(** * b2c-plugin-data-migrations: migration engine and feature state

    A shallow embedding of [lib/migrations.ts], [lib/state.ts],
    [lib/bootstrap.ts] and the variable handling of [lib/features.ts],
    with the properties of the reconciliation engine proved over it.

    Conventions.
    - A JS object used as a dictionary is a [gmap string _].
    - An [async] function that talks to the instance is a computation in
      the monad [M]: it reads and updates the remote record, may throw,
      and leaves a trace of the outside calls it made.
    - Code supplied by the project (lifecycle hooks, migration scripts) and
      by the SDK (archive import) is a parameter of type [Ext _]: any
      function of the remote record that returns or throws. It acts on the
      instance only: it does not change the arrays the engine hands to it.
      The code a module runs while it is loaded is given no instance: all
      it can do here is throw.
    - The project directory can be listed and does not change during a
      run, and its [setup.js], when there is one, loads.
    - Functions of the JS runtime ([path.extname], [String.prototype.match],
      [String.prototype.localeCompare], [fs.readFileSync], [JSON.parse])
      are section variables; modules [Runtime] and [Fixture] give
      executable instances for the examples. *)

From stdpp Require Import base decidable option list sorting strings gmap.
From Stdlib Require Import ZArith Lia.

Local Open Scope string_scope.
Local Open Scope Z_scope.
Local Open Scope list_scope.

(** ** Arrays and strings of the JS runtime *)

Module Js.

(** [Array.from(new Set(xs))]: a [Set] keeps the first occurrence of each
    element, in insertion order. *)
Definition setAdd (acc : list string) (x : string) : list string :=
  if decide (x ∈ acc) then acc else acc ++ [x].

Definition arrayFromSet (xs : list string) : list string :=
  fold_left setAdd xs [].

(** [xs.join(sep)] *)
Fixpoint join (sep : string) (xs : list string) : string :=
  match xs with
  | [] => ""
  | [x] => x
  | x :: rest => (x ++ sep ++ join sep rest)%string
  end.

(** [s.split(',')]: always at least one piece. *)
Fixpoint split (sep : Ascii.ascii) (s : string) : list string :=
  match s with
  | EmptyString => [""]
  | String c rest =>
      if decide (c = sep) then "" :: split sep rest
      else match split sep rest with
           | [] => [String c ""]
           | piece :: pieces => String c piece :: pieces
           end
  end.

(** [Array.prototype.sort(cmp)] is stable; a negative or zero result keeps
    [a] before [b]. Insertion from the right is stable. *)
Section Sort.
Context (cmp : string → string → Z).

Fixpoint insert (x : string) (l : list string) : list string :=
  match l with
  | [] => [x]
  | y :: l' => if decide (cmp x y ≤ 0) then x :: y :: l' else y :: insert x l'
  end.

Definition sort (l : list string) : list string := foldr insert [] l.

(** [a] may stand before [b] in the sorted array. *)
Definition precedes (a b : string) : Prop := cmp a b ≤ 0.

(** A consistent comparator, as [sort] expects it. *)
Definition consistent : Prop :=
  (∀ a b, cmp a b < 0 ↔ 0 < cmp b a)
  ∧ (∀ a b c, cmp a b ≤ 0 → cmp b c ≤ 0 → cmp a c ≤ 0).
End Sort.

End Js.

(** ** Errors and results *)

(** An [Error]; [responseStatus] is [e.response?.status]. *)
Record Exn := { message : string; responseStatus : option Z }.

Definition jsError (msg : string) : Exn :=
  {| message := msg; responseStatus := None |}.

#[export] Instance Exn_eq_dec : EqDecision Exn.
Proof. solve_decision. Defined.

(** What a call comes to: it returns a value or throws. *)
Inductive Outcome (A : Type) :=
  | Returns (a : A)
  | Throws (e : Exn).
Arguments Returns {A} a.
Arguments Throws {A} e.

#[export] Instance Outcome_eq_dec `{EqDecision A} : EqDecision (Outcome A).
Proof. solve_decision. Defined.

(** ** Unit collector ([collectMigrations]) *)

(** A [fs.Dirent] as far as the collector looks at it. *)
Record Dirent := { name : string; isDirectory : bool }.

Section Collector.
(** [path.extname]; [name.match(re)], of which the collector looks at
    whether there is a match: [match] compiles the string [re] with
    [new RegExp(re)] and throws a [SyntaxError] when it is no pattern;
    [a.localeCompare(b, locale, {numeric})]. *)
Context (extname : string → string).
Context (regexMatch : string → string → Outcome bool).
Context (localeCompare : string → string → string → bool → Z).

(** [exclude.every((re) => !name.match(re))]: [every] goes through the
    patterns in order and stops at the first one that matches. *)
Fixpoint everyUnmatched (name : string) (exclude : list string) : Outcome bool :=
  match exclude with
  | [] => Returns true
  | re :: rest =>
      match regexMatch name re with
      | Returns true => Returns false
      | Returns false => everyUnmatched name rest
      | Throws e => Throws e
      end
  end.

(** The callback of the first [filter]; [&&] looks at the patterns only
    for a directory or a script file. *)
Definition validMigration (exclude : list string) (d : Dirent) : Outcome bool :=
  if isDirectory d || bool_decide (extname (name d) = ".js")
  then everyUnmatched (name d) exclude
  else Returns false.

(** [entries.filter(callback)]: the callback is called on the entries in
    order, and the first call that throws ends the filtering. *)
Fixpoint filterValid (exclude : list string) (entries : list Dirent)
  : Outcome (list Dirent) :=
  match entries with
  | [] => Returns []
  | d :: rest =>
      match validMigration exclude d with
      | Throws e => Throws e
      | Returns keep =>
          match filterValid exclude rest with
          | Throws e => Throws e
          | Returns kept => Returns (if keep then d :: kept else kept)
          end
      end
  end.

Definition collectMigrations (entries : list Dirent) (exclude : list string)
  : Outcome (list string) :=
  match filterValid exclude entries with
  | Throws e => Throws e
  | Returns valid =>
      Returns
        (Js.sort (λ a b, localeCompare a b "en" false)
           (name <$> filter (λ entry, name entry ≠ "setup.js") valid))
  end.

(** The selection rule as the specification words it: a sub-directory or
    a file with the script extension, not the reserved name, and matched
    by no exclusion pattern. *)
Definition qualifies (exclude : list string) (d : Dirent) : Prop :=
  (isDirectory d = true ∨ extname (name d) = ".js")
  ∧ name d ≠ "setup.js"
  ∧ Forall (λ re, regexMatch (name d) re ≠ Returns true) exclude.

#[export] Instance qualifies_dec exclude d : Decision (qualifies exclude d).
Proof. unfold qualifies. apply _. Defined.
End Collector.

(** ** JSON values and objects *)

(** The values of properties: [undefined], the scalars of JSON, and
    [JBuiltin] for a function, as every object inherits some from
    [Object.prototype]. [JBuiltin] also stands for what the inherited
    [__proto__] reads as, the prototype itself, which the code modelled
    here hands to a setter of [__proto__] only and never stores as a
    property. Values that are objects or arrays are left out. *)
Inductive JsValue :=
  | JUndefined
  | JNull
  | JBool (b : bool)
  | JNum (n : Z)
  | JStr (s : string)
  | JBuiltin.

#[export] Instance JsValue_eq_dec : EqDecision JsValue.
Proof. solve_decision. Defined.

(** [Record<string, unknown>]: the own properties of an object written as
    a literal, whose prototype is [Object.prototype]; a property may be
    present and hold [undefined]. *)
Abbreviation JsObject := (gmap string JsValue).

(** The names of the properties of [Object.prototype]. *)
Definition inheritedNames : list string :=
  ["constructor"; "__defineGetter__"; "__defineSetter__"; "hasOwnProperty";
   "__lookupGetter__"; "__lookupSetter__"; "isPrototypeOf";
   "propertyIsEnumerable"; "toString"; "valueOf"; "__proto__";
   "toLocaleString"].

(** [o[key]]: the own property, or else the inherited one. *)
Definition getProp (o : JsObject) (key : string) : JsValue :=
  match o !! key with
  | Some v => v
  | None => if decide (key ∈ inheritedNames) then JBuiltin else JUndefined
  end.

(** [o[key] = v] for a [v] that is no object. The inherited [__proto__] is
    an accessor whose setter ignores such a value, so that the assignment
    makes no own property; every other name, and an own [__proto__], is
    set as an own property. *)
Definition setProp (o : JsObject) (key : string) (v : JsValue) : JsObject :=
  if decide (key = "__proto__" ∧ o !! key = None) then o else <[key := v]> o.

(** [{...a, ...b}]: the own properties are copied and the later operand
    wins ([∪] on maps is left-biased). *)
Definition spread (a b : JsObject) : JsObject := b ∪ a.

(** [JSON.parse(JSON.stringify(o))]: the object a stored JSON text stands
    for. [JSON.stringify] leaves out the properties that hold [undefined]
    or a function. *)
Definition jsonObject (o : JsObject) : JsObject :=
  filter (λ kv, kv.2 ≠ JUndefined ∧ kv.2 ≠ JBuiltin) o.

(** ** The instance (remote state record) and the monad of the engine *)

(** An OCAPI error response: status and [error.fault?.message]. *)
Record ApiError := { status : Z; faultMessage : option string }.

(** The attributes of the [b2cToolkit] preference group. The two JSON
    attributes are kept parsed; a text that does not parse reads as [{}]
    in the source and is [∅] here, and a text that parses is taken to be
    that of an object. A client entry is its [version], if any. *)
Record Preferences := {
  c_b2cToolkitDataVersion : option Z;
  c_b2cToolkitMigrations : option string;
  c_b2cToolsBootstrappedClientIDs : gmap string (option Z);
  c_b2cToolsVars : JsObject;
  c_b2cToolsFeaturesVersion : option Z;
  c_b2cToolsFeaturesBootstrappedClientIDs : gmap string (option Z);
}.

(** A [B2CToolsFeature] custom object. [None] is an attribute that is
    absent or the empty string. *)
Record CustomObject := {
  key_value_string : string;
  c_vars : option JsObject;
  c_secretVars : option JsObject;
  creation_date : string;
  last_modified : string;
}.

Record Remote := {
  getError : option ApiError;     (* GET  /global_preferences/... fails with *)
  patchError : option ApiError;   (* PATCH /global_preferences/... fails with *)
  preferences : Preferences;
  searchError : option ApiError;  (* POST /custom_objects_search/... fails with *)
  customObjects : gmap string CustomObject;
}.

Definition setPreferences (p : Preferences) (r : Remote) : Remote :=
  {| getError := getError r; patchError := patchError r;
     preferences := p; searchError := searchError r;
     customObjects := customObjects r |}.

Definition setCustomObjects (c : gmap string CustomObject) (r : Remote) : Remote :=
  {| getError := getError r; patchError := patchError r;
     preferences := preferences r; searchError := searchError r;
     customObjects := c |}.

(** [ToolkitInstanceState] of types.ts *)
Record ToolkitInstanceState := {
  version : option Z;
  migrations : list string;
  clients : gmap string (option Z);
  vars : JsObject;
}.

(** Code that is not the engine's: it sees and changes the remote record. *)
Definition Ext (A : Type) : Type := Remote → Outcome A * Remote.

(** The calls the engine makes to the outside, in order. *)
Inductive Event :=
  | EvGetInstanceState (result : option ToolkitInstanceState)
  | EvUpdateInstanceMigrations (migrations : list string)
  | EvBootstrapMigrations (clientId : string)
  | EvInit
  | EvStat (migration : string)
  | EvShouldBootstrap
  | EvBeforeAll (migrationsToApply : list string) (apply dryRun : bool)
  | EvBeforeEach (migration : string)
  | EvSiteArchiveImport (migration : string)
  | EvScriptCall (migration : string)
  | EvOnFailure (migration : string) (e : Exn)
  | EvAfterEach (migration : string)
  | EvAfterAll (migrationsRan : list string)
  | EvLogPut.

Definition M (A : Type) : Type := Remote → Outcome A * Remote * list Event.

Definition ret {A} (a : A) : M A := λ r, (Returns a, r, []).

Definition bind {A B} (m : M A) (k : A → M B) : M B := λ r,
  match m r with
  | (Returns a, r1, t1) =>
      match k a r1 with (o, r2, t2) => (o, r2, t1 ++ t2) end
  | (Throws e, r1, t1) => (Throws e, r1, t1)
  end.

Definition throw {A} (e : Exn) : M A := λ r, (Throws e, r, []).

(** [try { m } catch (e) { handler e }] *)
Definition tryCatch {A} (m : M A) (handler : Exn → M A) : M A := λ r,
  match m r with
  | (Returns a, r1, t1) => (Returns a, r1, t1)
  | (Throws e, r1, t1) =>
      match handler e r1 with (o, r2, t2) => (o, r2, t1 ++ t2) end
  end.

Definition emit (ev : Event) : M unit := λ r, (Returns tt, r, [ev]).

Definition call {A} (ev : Event) (f : Ext A) : M A := λ r,
  match f r with (o, r1) => (o, r1, [ev]) end.

Definition modify (f : Remote → Remote) : M unit := λ r, (Returns tt, f r, []).

Notation "'do' x <- m ; k" := (bind m (λ x, k))
  (at level 10, x name, m at level 100, k at level 200).
Notation "m ;; k" := (bind m (λ _, k))
  (at level 100, k at level 200, right associativity).

Definition outcome {A} (x : Outcome A * Remote * list Event) : Outcome A := x.1.1.
Definition remoteAfter {A} (x : Outcome A * Remote * list Event) : Remote := x.1.2.
Definition trace {A} (x : Outcome A * Remote * list Event) : list Event := x.2.

(** ** State store adapter ([lib/state.ts]) *)

Definition B2C_TOOLKIT_DATA_VERSION : Z := 7.
Definition B2C_TOOLS_FEATURES_VERSION : Z := 3.

Definition comma : Ascii.ascii := Ascii.Ascii false false true true false true false false.

(** [raw.c_b2cToolkitMigrations ? raw.c_b2cToolkitMigrations.split(',') : []] *)
Definition parseMigrations (raw : option string) : list string :=
  match raw with
  | None | Some "" => []
  | Some s => Js.split comma s
  end.

Definition readInstanceState (r : Remote) : Outcome (option ToolkitInstanceState) :=
  match getError r with
  | Some err =>
      if decide (status err = 403) then Returns None
      else if decide (status err = 404) then Returns None
      else Throws (jsError (default "Failed to read instance state" (faultMessage err)))
  | None =>
      let raw := preferences r in
      Returns (Some {|
        version := c_b2cToolkitDataVersion raw;
        migrations := parseMigrations (c_b2cToolkitMigrations raw);
        clients := c_b2cToolsBootstrappedClientIDs raw;
        vars := c_b2cToolsVars raw |})
  end.

Definition getInstanceState : M (option ToolkitInstanceState) := λ r,
  match readInstanceState r with
  | Returns st => (Returns st, r, [EvGetInstanceState st])
  | Throws e => (Throws e, r, [])
  end.

Definition writeMigrations (migrations : list string) (r : Remote) : Remote :=
  let p := preferences r in
  setPreferences
    {| c_b2cToolkitDataVersion := c_b2cToolkitDataVersion p;
       c_b2cToolkitMigrations := Some (Js.join "," migrations);
       c_b2cToolsBootstrappedClientIDs := c_b2cToolsBootstrappedClientIDs p;
       c_b2cToolsVars := c_b2cToolsVars p;
       c_b2cToolsFeaturesVersion := c_b2cToolsFeaturesVersion p;
       c_b2cToolsFeaturesBootstrappedClientIDs :=
         c_b2cToolsFeaturesBootstrappedClientIDs p |} r.

Definition permissionsError : Exn :=
  jsError "Permissions error; Ensure you have global_preferences configured for your client ID (run with --force-bootstrap to force a bootstrap upgrade)".

Definition updateInstanceMigrations (migrations : list string) : M unit :=
  emit (EvUpdateInstanceMigrations migrations) ;;
  λ r,
    match patchError r with
    | Some err =>
        if decide (status err = 403) then throw permissionsError r
        else if decide (status err = 404) then throw (jsError "Unable to set migrations") r
        else throw (jsError (default "Failed to update migrations" (faultMessage err))) r
    | None => modify (writeMigrations migrations) r
    end.

(** ** Bootstrap protocol ([lib/bootstrap.ts]) *)

(** [!v] on [number | null] *)
Definition falsy (v : option Z) : bool :=
  match v with
  | None => true
  | Some n => bool_decide (n = 0)
  end.

(** A comparison of [number | null] with a number: [null] counts as 0. *)
Definition toNumber (v : option Z) : Z := default 0 v.

(** [clients?.[clientId]?.version ?? 0] *)
Definition clientVersion (cs : gmap string (option Z)) (clientId : string) : Z :=
  match cs !! clientId with
  | Some (Some v) => v
  | _ => 0
  end.

(** [clients[clientId] = entry] for an entry that is an object with the
    given [version]. The setter of the inherited [__proto__] makes such an
    entry the prototype of [clients] and stores no own property, so that
    the JSON text of [clients] does not have it; every other name, and an
    own [__proto__], is set as an own property. *)
Definition setClient (cs : gmap string (option Z)) (clientId : string) (version : Z)
  : gmap string (option Z) :=
  if decide (clientId = "__proto__" ∧ cs !! clientId = None) then cs
  else <[clientId := Some version]> cs.

Definition isMigrationBootstrapRequired
    (clientId : string) (instanceState : option ToolkitInstanceState) : bool :=
  match instanceState with
  | None => true
  | Some st =>
      falsy (version st)
      || bool_decide (toNumber (version st) < B2C_TOOLKIT_DATA_VERSION)
      || negb (bool_decide (is_Some (clients st !! clientId)))
      || bool_decide (clientVersion (clients st) clientId < B2C_TOOLKIT_DATA_VERSION)
  end.

(** ** The project directory and its lifecycle module *)

Record MigrationLifecycleFunctions := {
  init : option (Ext unit);
  shouldBootstrap : option (ToolkitInstanceState → Ext bool);
  onBootstrap : option (ToolkitInstanceState → Ext ToolkitInstanceState);
  beforeAll : option (list string → bool → bool → Ext unit);
  beforeEach : option (string → bool → Ext bool);
  afterEach : option (string → bool → Ext unit);
  afterAll : option (list string → bool → Ext unit);
  onFailure : option (string → Exn → Ext unit);
}.

(** [{}]: no [setup.js] *)
Definition noLifecycle : MigrationLifecycleFunctions :=
  {| init := None; shouldBootstrap := None; onBootstrap := None;
     beforeAll := None; beforeEach := None; afterEach := None;
     afterAll := None; onFailure := None |}.

(** What [_require] of a migration file comes to: the module's exports, a
    function or something else, or the error its code throws while it is
    loaded. A module that loaded is cached, so that a second [_require]
    yields the same exports without running its code again. *)
Inductive MigrationScript :=
  | ExportsFunction (body : Ext unit)
  | ExportsOther
  | ThrowsOnLoad (e : Exn).

(** The project directory: its entries, what [_require] of a script file
    comes to, the file [notes.txt] of a directory unit ([None] when there
    is no such file, else what reading it comes to), and the exports of
    [setup.js] ([{}] when there is none). *)
Record Project := {
  dir : string;
  entries : list Dirent;                        (* readdir(dir) *)
  requireScript : string → MigrationScript;     (* _require(dir/name) *)
  notesFile : string → option (Outcome string); (* dir/name/notes.txt *)
  lifeCycleModule : MigrationLifecycleFunctions;
}.

(** Calls into the SDK: the archive import of a directory, the import of
    the bootstrap archive, and the WebDAV put of the run log. *)
Record Sdk := {
  siteArchiveImport : string → Ext unit;
  bootstrapImport : Ext unit;
  webdavPut : Ext unit;
}.

Record MigrateInstanceOptions := {
  exclude : list string;
  apply : bool;
  dryRun : bool;
  forceBootstrap : bool;
  allowBootstrap : bool;
  showNotes : bool;
}.

Definition defaultOptions : MigrateInstanceOptions :=
  {| exclude := []; apply := true; dryRun := false;
     forceBootstrap := false; allowBootstrap := true; showNotes := true |}.

Definition bootstrapForbidden (clientId : string) : Exn :=
  jsError ("Got status 403: At minimum your client ID (" +:+ clientId +:+
           ") needs OCAPI DATAAPI access for jobs and webdav write access to /impex; see README.md").

(** The final PATCH of [bootstrapMigrations]; its response is not looked at. *)
Definition recordBootstrap (st : ToolkitInstanceState) (r : Remote) : Remote :=
  match patchError r with
  | Some _ => r
  | None =>
      setPreferences
        {| c_b2cToolkitDataVersion := Some B2C_TOOLKIT_DATA_VERSION;
           c_b2cToolkitMigrations := c_b2cToolkitMigrations (preferences r);
           c_b2cToolsBootstrappedClientIDs := clients st;
           c_b2cToolsVars := jsonObject (vars st);
           c_b2cToolsFeaturesVersion := c_b2cToolsFeaturesVersion (preferences r);
           c_b2cToolsFeaturesBootstrappedClientIDs :=
             c_b2cToolsFeaturesBootstrappedClientIDs (preferences r) |} r
  end.

Definition withClients (cs : gmap string (option Z)) (st : ToolkitInstanceState)
  : ToolkitInstanceState :=
  {| version := version st; migrations := migrations st;
     clients := cs; vars := vars st |}.

Definition bootstrapMigrations
    (sdk : Sdk) (clientId : string) (lifecycleModule : MigrationLifecycleFunctions)
  : M unit :=
  tryCatch (call (EvBootstrapMigrations clientId) (bootstrapImport sdk))
    (λ e, if decide (responseStatus e = Some 403)
          then throw (bootstrapForbidden clientId)
          else throw e) ;;
  do instanceState <- getInstanceState;
  match instanceState with
  | None => throw (jsError "Failed to read instance state after bootstrap import")
  | Some st =>
      let st := withClients (setClient (clients st) clientId B2C_TOOLKIT_DATA_VERSION) st in
      do st <- match onBootstrap lifecycleModule with
               | Some hook => λ r, match hook st r with (o, r1) => (o, r1, []) end
               | None => ret st
               end;
      modify (recordBootstrap st)
  end.

(** ** Reconciliation engine ([migrateInstance]) *)

Definition bootstrapNotAllowed : Exn :=
  jsError "instance bootstrap or upgrade required but allow-bootstrap set to false".

Definition versionGreater : Exn :=
  jsError "Instance is using a b2c-tools version greater than currently installed; upgrade required".

Definition failedToRead : Exn := jsError "Failed to read instance state".

(** [path.join(dir, migration)], for a [dir] in normal form *)
Definition target (dir migration : string) : string := dir +:+ "/" +:+ migration.

Definition notValidMigration (dir migration : string) : Exn :=
  jsError (target dir migration +:+ " is not a valid migration; should export a function").

(** [fs.promises.stat(target)] then [isDirectory()]. The entries of the
    directory are taken not to be symbolic links and not to change during
    the run, so that [stat] answers as the [Dirent] of [readdir] does. *)
Definition statIsDirectory (p : Project) (migration : string) : M bool :=
  emit (EvStat migration) ;;
  match List.find (λ d, bool_decide (name d = migration)) (entries p) with
  | Some d => ret (isDirectory d)
  | None => throw (jsError ("ENOENT: no such file or directory, stat '" +:+
                            target (dir p) migration +:+ "'"))
  end.

(** [instanceState.migrations] as a read of the record reports it. *)
Definition appliedUnits (r : Remote) : list string :=
  parseMigrations (c_b2cToolkitMigrations (preferences r)).

(** An identifier that survives [join(',')] and [split(',')]. *)
Definition wellFormedId (s : string) : Prop :=
  s ≠ "" ∧ comma ∉ String.list_ascii_of_string s.

Section Engine.
Context (extname : string → string).
Context (regexMatch : string → string → Outcome bool).
Context (localeCompare : string → string → string → bool → Z).
Context (sdk : Sdk) (p : Project) (clientId : string).

(** Lines 89-93 *)
Definition runInit : M unit :=
  match init (lifeCycleModule p) with
  | Some hook => call EvInit hook
  | None => ret tt
  end.

(** Lines 108-120: the [shouldBootstrap] hook is asked only when
    bootstrap is not required already; a hook that throws asks for it. *)
Definition runShouldBootstrap
    (bootstrapRequired : bool) (instanceState : option ToolkitInstanceState)
  : M bool :=
  match shouldBootstrap (lifeCycleModule p), instanceState with
  | Some hook, Some st =>
      if bootstrapRequired then ret bootstrapRequired
      else tryCatch
             (do result <- call EvShouldBootstrap (hook st);
              ret (if result then true else bootstrapRequired))
             (λ _, ret true)
  | _, _ => ret bootstrapRequired
  end.

(** Lines 103-133: read the state, decide on bootstrap, gate on the
    version. Returns the state the run goes on with. *)
Definition stateCheck (opts : MigrateInstanceOptions)
  : M (option ToolkitInstanceState) :=
  do instanceState <- getInstanceState;
  let bootstrapRequired := isMigrationBootstrapRequired clientId instanceState in
  do bootstrapRequired <- runShouldBootstrap bootstrapRequired instanceState;
  if bootstrapRequired && negb (allowBootstrap opts) then throw bootstrapNotAllowed
  else if forceBootstrap opts || bootstrapRequired then
    bootstrapMigrations sdk clientId (lifeCycleModule p) ;;
    getInstanceState
  else
    match instanceState with
    | Some st =>
        if negb (falsy (version st))
           && bool_decide (toNumber (version st) > B2C_TOOLKIT_DATA_VERSION)
        then throw versionGreater
        else ret instanceState
    | None => ret instanceState
    end.

(** Line 96: the collector is called with the directory and the
    exclusion patterns of the run. *)
Definition collectProject (opts : MigrateInstanceOptions) : M (list string) :=
  λ r, (collectMigrations extname regexMatch localeCompare (entries p) (exclude opts),
        r, []).

(** Lines 89-137: the [init] hook, the collector, the state check, and the
    state the run works on. *)
Definition readState (opts : MigrateInstanceOptions) : M ToolkitInstanceState :=
  runInit ;;
  collectProject opts ;;
  do instanceState <- stateCheck opts;
  match instanceState with
  | None => throw failedToRead
  | Some st => ret st
  end.

(** Line 142 *)
Definition pendingMigrations (projectMigrations instanceMigrations : list string)
  : list string :=
  filter (λ m, m ∉ instanceMigrations) projectMigrations.

(** Lines 199-208 *)
Definition runBeforeEach (apply : bool) (migration : string) : M bool :=
  match beforeEach (lifeCycleModule p) with
  | Some hook => call (EvBeforeEach migration) (hook migration apply)
  | None => ret true
  end.

(** Lines 212-220: the body of the [try]. *)
Definition attempt (isDir : bool) (migration : string) : M unit :=
  if isDir then
    call (EvSiteArchiveImport migration)
         (siteArchiveImport sdk (target (dir p) migration))
  else
    match requireScript p migration with
    | ExportsFunction body => call (EvScriptCall migration) body
    | ExportsOther => throw (notValidMigration (dir p) migration)
    | ThrowsOnLoad e => throw e
    end.

(** Lines 211-232: the execution of one unit and its failure handling. *)
Definition execute (isDir : bool) (migration : string) : M unit :=
  tryCatch (attempt isDir migration)
    (λ e, match onFailure (lifeCycleModule p) with
          | Some hook => call (EvOnFailure migration e) (hook migration e)
          | None => throw e
          end).

(** Lines 238-253: record the unit and, with [apply], merge with the
    state read again and write the list back. *)
Definition commit (apply : bool) (migration : string) (instanceMigrations : list string)
  : M (list string) :=
  let instanceMigrations := instanceMigrations ++ [migration] in
  if apply then
    do instanceState <- getInstanceState;
    let instanceMigrations :=
      match instanceState with
      | Some st => Js.arrayFromSet (migrations st ++ instanceMigrations)
      | None => instanceMigrations
      end in
    updateInstanceMigrations instanceMigrations ;;
    ret instanceMigrations
  else ret instanceMigrations.

(** Lines 238-264: commit, [afterEach], and the record of the unit in
    [migrationsRan]. The state is the pair
    [(instanceMigrations, migrationsRan)]. *)
Definition conclude (opts : MigrateInstanceOptions) (migration : string)
    (acc : list string * list string) : M (list string * list string) :=
  do instanceMigrations <- commit (apply opts) migration acc.1;
  match afterEach (lifeCycleModule p) with
  | Some hook => call (EvAfterEach migration) (hook migration (apply opts))
  | None => ret tt
  end ;;
  ret (instanceMigrations, acc.2 ++ [migration]).

(** Lines 179-193: the notes of the unit are logged. For a directory they
    are read, with [showNotes], from its file [notes.txt] if there is one;
    for a script file its module is loaded here, with or without
    [showNotes] and outside the [try] of line 211. *)
Definition loadNotes (opts : MigrateInstanceOptions) (isDir : bool) (migration : string)
  : M unit :=
  if isDir then
    match notesFile p migration with
    | Some content =>
        if showNotes opts
        then match content with
             | Returns _ => ret tt
             | Throws e => throw e
             end
        else ret tt
    | None => ret tt
    end
  else match requireScript p migration with
       | ThrowsOnLoad e => throw e
       | _ => ret tt
       end.

(** One turn of the loop of lines 173-265. *)
Definition migrate (opts : MigrateInstanceOptions) (migration : string)
    (acc : list string * list string) : M (list string * list string) :=
  do isDir <- statIsDirectory p migration;
  loadNotes opts isDir migration ;;
  if dryRun opts then ret acc
  else
    do runMigration <- runBeforeEach (apply opts) migration;
    (if runMigration then execute isDir migration else ret tt) ;;
    conclude opts migration acc.

Fixpoint migrateAll (opts : MigrateInstanceOptions) (migrationsToApply : list string)
    (acc : list string * list string) : M (list string * list string) :=
  match migrationsToApply with
  | [] => ret acc
  | migration :: rest =>
      do acc <- migrate opts migration acc;
      migrateAll opts rest acc
  end.

(** The constant [projectMigrations] of line 96, which the planning of
    line 142 reads: what the collector returned. A run whose collector
    threw has ended in [readState]. *)
Definition projectMigrations (opts : MigrateInstanceOptions) : list string :=
  match collectMigrations extname regexMatch localeCompare (entries p) (exclude opts) with
  | Returns names => names
  | Throws _ => []
  end.

(** Lines 144-148 *)
Definition runBeforeAll (opts : MigrateInstanceOptions) (migrationsToApply : list string)
  : M unit :=
  match beforeAll (lifeCycleModule p) with
  | Some hook =>
      call (EvBeforeAll migrationsToApply (apply opts) (dryRun opts))
           (hook migrationsToApply (apply opts) (dryRun opts))
  | None => ret tt
  end.

(** Lines 268-272 *)
Definition runAfterAll (opts : MigrateInstanceOptions) (migrationsRan : list string)
  : M unit :=
  if dryRun opts then ret tt
  else match afterAll (lifeCycleModule p) with
       | Some hook => call (EvAfterAll migrationsRan) (hook migrationsRan (apply opts))
       | None => ret tt
       end.

(** Lines 274-283: a failure to write the log is ignored. *)
Definition writeLog : M unit :=
  tryCatch (call EvLogPut (webdavPut sdk)) (λ _, ret tt).

(** Lines 141-283: planning, the loop, [afterAll] and the run log. *)
Definition reconcile (opts : MigrateInstanceOptions) (instanceState : ToolkitInstanceState)
  : M unit :=
  let instanceMigrations := migrations instanceState in
  let migrationsToApply :=
    pendingMigrations (projectMigrations opts) instanceMigrations in
  runBeforeAll opts migrationsToApply ;;
  do acc <- migrateAll opts migrationsToApply (instanceMigrations, []);
  runAfterAll opts acc.2 ;;
  writeLog.

Definition migrateInstance (opts : MigrateInstanceOptions) : M unit :=
  do instanceState <- readState opts;
  reconcile opts instanceState.
End Engine.

(** The error with which the notes of a unit fail to load: for a script
    file the error its module throws while it is loaded, for a directory
    the error of reading its notes file when the notes are asked for. *)
Definition loadError (p : Project) (opts : MigrateInstanceOptions) (isDir : bool)
    (migration : string) : option Exn :=
  if isDir then
    match notesFile p migration with
    | Some (Throws e) => if showNotes opts then Some e else None
    | _ => None
    end
  else match requireScript p migration with
       | ThrowsOnLoad e => Some e
       | _ => None
       end.

(** A unit whose notes load. *)
Definition loads (p : Project) (opts : MigrateInstanceOptions) (migration : string)
  : Prop :=
  ∀ d, List.find (λ d, bool_decide (name d = migration)) (entries p) = Some d →
       loadError p opts (isDirectory d) migration = None.

#[export] Instance loads_dec p opts migration : Decision (loads p opts migration).
Proof.
  unfold loads. destruct (List.find _ (entries p)) as [d|].
  - destruct (decide (loadError p opts (isDirectory d) migration = None)) as [Heq|Hne].
    + left. by intros ? [= <-].
    + right. intros Hall. by apply Hne, Hall.
  - left. by intros.
Defined.


(** ** Readings of a trace *)

(** The units whose body was started: an archive import or a script call. *)
Definition executed (t : list Event) : list string :=
  omap (λ ev, match ev with
              | EvSiteArchiveImport m | EvScriptCall m => Some m
              | _ => None
              end) t.

(** The units the loop took up. *)
Definition taken (t : list Event) : list string :=
  omap (λ ev, match ev with EvStat m => Some m | _ => None end) t.

(** The lists handed to [updateInstanceMigrations]. *)
Definition updates (t : list Event) : list (list string) :=
  omap (λ ev, match ev with EvUpdateInstanceMigrations l => Some l | _ => None end) t.

(** The applied lists the engine read. *)
Definition reads (t : list Event) : list (list string) :=
  omap (λ ev, match ev with
              | EvGetInstanceState (Some st) => Some (migrations st)
              | _ => None
              end) t.

Definition bootstraps (t : list Event) : list string :=
  omap (λ ev, match ev with EvBootstrapMigrations c => Some c | _ => None end) t.

(** The number of different identifiers of a list. *)
Definition cardinal (l : list string) : nat := length (Js.arrayFromSet l).

(** No write of the trace loses an identifier: each list written holds
    every identifier of the state last seen before it, which is the last
    state read or, after a write, the list written ([known] at the start);
    and it has at least as many different identifiers. *)
Fixpoint keepsApplied (known : list string) (t : list Event) : Prop :=
  match t with
  | [] => True
  | EvGetInstanceState (Some st) :: t' => keepsApplied (migrations st) t'
  | EvUpdateInstanceMigrations written :: t' =>
      known ⊆ written ∧ (cardinal known ≤ cardinal written)%nat
      ∧ keepsApplied written t'
  | _ :: t' => keepsApplied known t'
  end.

(** The applied list last seen after a trace that started from [known]. *)
Fixpoint lastSeen (known : list string) (t : list Event) : list string :=
  match t with
  | [] => known
  | EvGetInstanceState (Some st) :: t' => lastSeen (migrations st) t'
  | EvUpdateInstanceMigrations written :: t' => lastSeen written t'
  | _ :: t' => lastSeen known t'
  end.

(** ** Feature state ([lib/state.ts], [lib/features.ts]) *)

Module Features.

(** [FeatureState] of types.ts; the dates stay as the strings they are
    built from. *)
Record FeatureState := {
  featureName : string;
  lastModified : string;
  creationDate : string;
  vars : JsObject;
}.

Record InstanceFeatureState := {
  b2cToolsFeaturesVersion : option Z;
  b2cToolsFeaturesBootstrappedClientIDs : gmap string (option Z);
  features : list FeatureState;
}.

(** The fields of a [FeatureDefinition] that the variable handling reads. *)
Record FeatureDefinition := {
  definitionName : string;
  defaultVars : option JsObject;
  secretVars : option (list string);
}.

Definition featureStateFromCustomObject (obj : CustomObject) : FeatureState :=
  let vars : JsObject := ∅ in
  let vars := match c_vars obj with
              | Some parsed => spread ∅ parsed
              | None => vars
              end in
  let vars := match c_secretVars obj with
              | Some parsed => spread vars parsed
              | None => vars
              end in
  {| featureName := key_value_string obj;
     lastModified := last_modified obj;
     creationDate := creation_date obj;
     vars := vars |}.

Definition featuresError (err : ApiError) (fallback : string)
  : Outcome (option InstanceFeatureState) :=
  if decide (status err = 403 ∨ status err = 404) then Returns None
  else Throws (jsError (default fallback (faultMessage err))).

Definition getInstanceFeatureState (r : Remote) : Outcome (option InstanceFeatureState) :=
  match getError r with
  | Some err => featuresError err "Failed to read feature state"
  | None =>
      match searchError r with
      | Some err => featuresError err "Failed to search features"
      | None =>
          let hits := (map_to_list (customObjects r)).*2 in
          Returns (Some {|
            b2cToolsFeaturesVersion := c_b2cToolsFeaturesVersion (preferences r);
            b2cToolsFeaturesBootstrappedClientIDs :=
              c_b2cToolsFeaturesBootstrappedClientIDs (preferences r);
            features := map featureStateFromCustomObject hits |})
      end
  end.

Definition redactionMarker : JsValue := JStr "*****".

(** [targetSecretVars[key] = v], on the record and whether its prototype
    is [null]. The value may be an object here, so the setter of the
    inherited [__proto__] can change the prototype: it becomes [null] for
    [v = null] and stays an object for the prototype or a function;
    another value is ignored. Under a [null] prototype nothing is
    inherited and every name, [__proto__] included, is set as an own
    property. *)
Definition setSecret (acc : JsObject * bool) (key : string) (v : JsValue)
  : JsObject * bool :=
  let '(o, nullPrototype) := acc in
  if nullPrototype then (<[key := v]> o, true)
  else if decide (key = "__proto__" ∧ o !! key = None)
       then (o, bool_decide (v = JNull))
       else (<[key := v]> o, false).

(** One turn of the loop of lines 187-196 on [targetVars] and
    [targetSecretVars], the latter with the state of its prototype. *)
Definition redact (saveSecrets : bool) (acc : JsObject * (JsObject * bool))
    (key : string) : JsObject * (JsObject * bool) :=
  let '(targetVars, targetSecretVars) := acc in
  if saveSecrets then
    let targetSecretVars := setSecret targetSecretVars key (getProp targetVars key) in
    if decide (getProp targetVars key ≠ JUndefined)
    then (setProp targetVars key redactionMarker, targetSecretVars)
    else (targetVars, targetSecretVars)
  else if decide (getProp targetVars key ≠ JUndefined)
  then (delete key targetVars, targetSecretVars)
  else (targetVars, targetSecretVars).

(** Lines 183-197: [targetVars] and [targetSecretVars] after the loop. *)
Definition targetRecords
    (vars : JsObject) (secretVars : option (list string)) (saveSecrets : bool)
  : JsObject * JsObject :=
  match secretVars with
  | Some keys =>
      let result := fold_left (redact saveSecrets) keys (vars, (∅, false)) in
      (result.1, result.2.1)
  | None => (vars, ∅)
  end.

(** Lines 199-222. The store answers 404 exactly for a missing key; PUT
    creates the object and PATCH changes the two attributes of an existing
    one; [now] is the time stamp the store gives the write. *)
Definition updateFeatureState
    (featureName : string) (vars : JsObject) (secretVars : option (list string))
    (saveSecrets : bool) (now : string) (r : Remote) : Remote :=
  let '(targetVars, targetSecretVars) := targetRecords vars secretVars saveSecrets in
  let body_c_vars := Some (jsonObject targetVars) in
  let body_c_secretVars := Some (jsonObject targetSecretVars) in
  match customObjects r !! featureName with
  | Some obj =>
      setCustomObjects
        (<[featureName := {| key_value_string := key_value_string obj;
                             c_vars := body_c_vars;
                             c_secretVars := body_c_secretVars;
                             creation_date := creation_date obj;
                             last_modified := now |}]> (customObjects r)) r
  | None =>
      setCustomObjects
        (<[featureName := {| key_value_string := featureName;
                             c_vars := body_c_vars;
                             c_secretVars := body_c_secretVars;
                             creation_date := now;
                             last_modified := now |}]> (customObjects r)) r
  end.

(** [deployFeature], lines 157-172: the stored state of the feature and
    the merge [defaults < instance state < incoming]. *)
Definition findFeatureState (instanceState : InstanceFeatureState) (name : string)
  : option FeatureState :=
  List.find (λ f, bool_decide (featureName f = name)) (features instanceState).

Definition mergeVars
    (feature : FeatureDefinition) (instanceFeatureState : option FeatureState)
    (vars : JsObject) : JsObject :=
  spread
    (spread (spread ∅ (default ∅ (defaultVars feature)))
            (match instanceFeatureState with
             | Some f => Features.vars f
             | None => ∅
             end))
    vars.

Definition featureVars
    (feature : FeatureDefinition) (instanceState : InstanceFeatureState)
    (featureName : string) (vars : JsObject) : JsObject :=
  mergeVars feature (findFeatureState instanceState featureName) vars.

End Features.

(** ** Executable instances of the runtime functions *)

Module Runtime.

(** [path.extname] of Node (posix): one pass from the right over the
    characters, then the slice from the last dot. *)
Record ExtnameState := {
  startDot : Z;
  startPart : Z;
  end_ : Z;
  matchedSlash : bool;
  preDotState : Z;
  stopped : bool;
}.

Definition slash : Ascii.ascii := Ascii.Ascii true true true true false true false false.
Definition dot : Ascii.ascii := Ascii.Ascii false true true true false true false false.

Definition extnameStep (st : ExtnameState) (ic : Z * Ascii.ascii) : ExtnameState :=
  let '(i, code) := ic in
  if stopped st then st
  else if decide (code = slash) then
    if negb (matchedSlash st) then
      {| startDot := startDot st; startPart := i + 1; end_ := end_ st;
         matchedSlash := matchedSlash st; preDotState := preDotState st;
         stopped := true |}
    else st
  else
    let matched := if decide (end_ st = -1) then false else matchedSlash st in
    let e := if decide (end_ st = -1) then i + 1 else end_ st in
    if decide (code = dot) then
      if decide (startDot st = -1) then
        {| startDot := i; startPart := startPart st; end_ := e;
           matchedSlash := matched; preDotState := preDotState st; stopped := false |}
      else
        {| startDot := startDot st; startPart := startPart st; end_ := e;
           matchedSlash := matched; preDotState := 1; stopped := false |}
    else if decide (startDot st ≠ -1) then
      {| startDot := startDot st; startPart := startPart st; end_ := e;
         matchedSlash := matched; preDotState := -1; stopped := false |}
    else
      {| startDot := startDot st; startPart := startPart st; end_ := e;
         matchedSlash := matched; preDotState := preDotState st; stopped := false |}.

Fixpoint indexed (i : Z) (cs : list Ascii.ascii) : list (Z * Ascii.ascii) :=
  match cs with
  | [] => []
  | c :: cs' => (i, c) :: indexed (i + 1) cs'
  end.

Definition extname (path : string) : string :=
  let st := fold_left extnameStep
              (rev (indexed 0 (String.list_ascii_of_string path)))
              {| startDot := -1; startPart := 0; end_ := -1;
                 matchedSlash := true; preDotState := 0; stopped := false |} in
  if bool_decide (startDot st = -1)
     || bool_decide (end_ st = -1)
     || bool_decide (preDotState st = 0)
     || (bool_decide (preDotState st = 1)
         && bool_decide (startDot st = end_ st - 1)
         && bool_decide (startDot st = startPart st + 1))
  then ""
  else String.substring (Z.to_nat (startDot st)) (Z.to_nat (end_ st - startDot st)) path.

(** [name.match(re)] for the patterns of the examples, which are of two
    kinds: a pattern of letters, digits and hyphens matches where it
    occurs in the name; a pattern with an opening parenthesis that is
    never closed is no regular expression, and [new RegExp] throws. *)
Fixpoint occursIn (re name : string) : bool :=
  String.prefix re name
  || match name with
     | EmptyString => false
     | String _ rest => occursIn re rest
     end.

Definition openParen : Ascii.ascii := Ascii.Ascii false false false true false true false false.
Definition closeParen : Ascii.ascii := Ascii.Ascii true false false true false true false false.

Definition unterminatedGroup (re : string) : Exn :=
  jsError ("Invalid regular expression: /" +:+ re +:+ "/: Unterminated group").

Definition literalMatch (name re : string) : Outcome bool :=
  if bool_decide (openParen ∈ String.list_ascii_of_string re)
     && negb (bool_decide (closeParen ∈ String.list_ascii_of_string re))
  then Throws (unterminatedGroup re)
  else Returns (occursIn re name).

(** A comparison by code units. On names made of hyphens, digits and
    lower-case letters it orders as the English collation does. *)
Fixpoint compareCodeUnits (a b : string) : Z :=
  match a, b with
  | EmptyString, EmptyString => 0
  | EmptyString, String _ _ => -1
  | String _ _, EmptyString => 1
  | String x a', String y b' =>
      if decide (Ascii.nat_of_ascii x < Ascii.nat_of_ascii y)%nat then -1
      else if decide (Ascii.nat_of_ascii y < Ascii.nat_of_ascii x)%nat then 1
      else compareCodeUnits a' b'
  end.

(** The number a name starts with, if it starts with a digit. *)
Definition digit (c : Ascii.ascii) : option Z :=
  let n := Z.of_nat (Ascii.nat_of_ascii c) in
  if decide (48 ≤ n ≤ 57) then Some (n - 48) else None.

Fixpoint leadingNumber (acc : option Z) (s : string) : option Z :=
  match s with
  | EmptyString => acc
  | String c rest =>
      match digit c with
      | Some d => leadingNumber (Some (10 * default 0 acc + d)) rest
      | None => acc
      end
  end.

(** [a.localeCompare(b, locale, {numeric})] on such names: with [numeric],
    two names that start with different numbers are ordered by these
    numbers. *)
Definition localeCompare (a b : string) (locale : string) (numeric : bool) : Z :=
  if numeric then
    match leadingNumber None a, leadingNumber None b with
    | Some m, Some n =>
        if decide (m < n) then -1
        else if decide (n < m) then 1
        else compareCodeUnits a b
    | _, _ => compareCodeUnits a b
    end
  else compareCodeUnits a b.

End Runtime.

(** ** Sample projects and instances *)

Module Sample.

Definition emptyPreferences : Preferences :=
  {| c_b2cToolkitDataVersion := None; c_b2cToolkitMigrations := None;
     c_b2cToolsBootstrappedClientIDs := ∅; c_b2cToolsVars := ∅;
     c_b2cToolsFeaturesVersion := None;
     c_b2cToolsFeaturesBootstrappedClientIDs := ∅ |}.

(** A bootstrapped instance: data version [v], client ["cid"] registered at
    [v], and the given applied list. *)
Definition instanceAt (v : Z) (applied : option string) : Remote :=
  {| getError := None; patchError := None;
     preferences :=
       {| c_b2cToolkitDataVersion := Some v; c_b2cToolkitMigrations := applied;
          c_b2cToolsBootstrappedClientIDs := {[ "cid" := Some v ]};
          c_b2cToolsVars := ∅;
          c_b2cToolsFeaturesVersion := None;
          c_b2cToolsFeaturesBootstrappedClientIDs := ∅ |};
     searchError := None; customObjects := ∅ |}.

(** The same instance for a client that is not registered yet. *)
Definition unregisteredAt (v : Z) (applied : option string) : Remote :=
  {| getError := None; patchError := None;
     preferences :=
       {| c_b2cToolkitDataVersion := Some v; c_b2cToolkitMigrations := applied;
          c_b2cToolsBootstrappedClientIDs := ∅;
          c_b2cToolsVars := ∅;
          c_b2cToolsFeaturesVersion := None;
          c_b2cToolsFeaturesBootstrappedClientIDs := ∅ |};
     searchError := None; customObjects := ∅ |}.

Definition succeed : Ext unit := λ r, (Returns tt, r).
Definition fail (msg : string) : Ext unit := λ r, (Throws (jsError msg), r).

(** Another writer sets the applied list while a unit runs. *)
Definition concurrentWrite (applied : list string) : Ext unit :=
  λ r, (Returns tt, writeMigrations applied r).

Definition sdk : Sdk :=
  {| siteArchiveImport := λ _, succeed; bootstrapImport := succeed;
     webdavPut := succeed |}.

(** The import of one directory fails. *)
Definition failingSdk (failing : string) : Sdk :=
  {| siteArchiveImport :=
       λ path, if decide (path = target "migrations" failing)
               then fail "import failed" else succeed;
     bootstrapImport := succeed; webdavPut := succeed |}.

(** Another writer sets the applied list while an archive is imported. *)
Definition racingSdk (applied : list string) : Sdk :=
  {| siteArchiveImport := λ _, concurrentWrite applied;
     bootstrapImport := succeed; webdavPut := succeed |}.

Definition directory (n : string) : Dirent := {| name := n; isDirectory := true |}.
Definition file (n : string) : Dirent := {| name := n; isDirectory := false |}.

Definition project (es : list Dirent) (scripts : string → MigrationScript)
    (hooks : MigrationLifecycleFunctions) : Project :=
  {| dir := "migrations"; entries := es; requireScript := scripts;
     notesFile := λ _, None;
     lifeCycleModule := hooks |}.

Definition runWith (s : Sdk) (p : Project) (opts : MigrateInstanceOptions) (r : Remote)
  : Outcome unit * Remote * list Event :=
  migrateInstance Runtime.extname Runtime.literalMatch Runtime.localeCompare
    s p "cid" opts r.

Definition run := runWith sdk.

Definition forced : MigrateInstanceOptions :=
  {| exclude := []; apply := true; dryRun := false;
     forceBootstrap := true; allowBootstrap := true;
     showNotes := true |}.

Definition disallowed : MigrateInstanceOptions :=
  {| exclude := []; apply := true; dryRun := false;
     forceBootstrap := false; allowBootstrap := false;
     showNotes := true |}.

Definition dry : MigrateInstanceOptions :=
  {| exclude := []; apply := true; dryRun := true;
     forceBootstrap := false; allowBootstrap := true;
     showNotes := true |}.

(** [beforeEach] returns [false] for every unit. *)
Definition vetoes : MigrationLifecycleFunctions :=
  {| init := None; shouldBootstrap := None; onBootstrap := None;
     beforeAll := None; beforeEach := Some (λ _ _ r, (Returns false, r));
     afterEach := None; afterAll := None; onFailure := None |}.

(** [shouldBootstrap] returns [true]. *)
Definition asksBootstrap : MigrationLifecycleFunctions :=
  {| init := None; shouldBootstrap := Some (λ _ r, (Returns true, r));
     onBootstrap := None; beforeAll := None; beforeEach := None;
     afterEach := None; afterAll := None; onFailure := None |}.

Definition handlesFailure : MigrationLifecycleFunctions :=
  {| init := None; shouldBootstrap := None; onBootstrap := None;
     beforeAll := None; beforeEach := None; afterEach := None;
     afterAll := None; onFailure := Some (λ _ _, succeed) |}.

End Sample.

(** * Further operations *)

(** ** Strings *)

Module JsString.

(** [s.indexOf(c)]; [None] stands for -1. *)
Fixpoint indexOf (c : Ascii.ascii) (s : string) : option nat :=
  match s with
  | EmptyString => None
  | String a rest =>
      if decide (a = c) then Some 0%nat else S <$> indexOf c rest
  end.

(** [s.slice(0, n)] and [s.slice(n)] for [0 <= n]. *)
Fixpoint sliceTo (n : nat) (s : string) : string :=
  match n, s with
  | S n', String a rest => String a (sliceTo n' rest)
  | _, _ => EmptyString
  end.

Fixpoint sliceFrom (n : nat) (s : string) : string :=
  match n, s with
  | S n', String _ rest => sliceFrom n' rest
  | _, _ => s
  end.

Definition quote : Ascii.ascii := Ascii.Ascii false true false false false true false false.
Definition equals : Ascii.ascii := Ascii.Ascii true false true true true true false false.

Definition quoted (s : string) : string := String quote (s +:+ String quote "").

End JsString.

(** ** Command-line variables ([parseVars] of the commands) *)

Module Cli.

(** The three flags, each of which may be absent. *)
Record Flags := {
  vars : option (list string);
  vars_file : option string;
  vars_json : option string;
}.

(** [if (flag)] on [string | undefined]: the empty string counts as
    absent. *)
Definition given (flag : option string) : option string :=
  match flag with
  | None | Some "" => None
  | Some text => Some text
  end.

Definition invalidVar (v : string) : Exn :=
  jsError ("Invalid var format: " +:+ JsString.quoted v +:+ ". Expected key=value.").

(** One turn of the loop over [flags.vars]. *)
Definition assign (result : Outcome JsObject) (v : string) : Outcome JsObject :=
  match result with
  | Throws e => Throws e
  | Returns result =>
      match JsString.indexOf JsString.equals v with
      | None => Throws (invalidVar v)
      | Some idx =>
          Returns (setProp result (JsString.sliceTo idx v)
                     (JStr (JsString.sliceFrom (S idx) v)))
      end
  end.

Section ParseVars.
(** [fs.readFileSync(path.resolve(file), 'utf-8')], which throws when the
    file cannot be read, and [JSON.parse], which throws on a text that is
    no JSON: of the value it returns, the own properties a spread copies
    (none for a number, a boolean or [null]), with values that are no
    objects. *)
Context (readFile : string → Outcome string).
Context (jsonParse : string → Outcome JsObject).

(** [{...result, ...JSON.parse(text)}] *)
Definition mergeJson (result : JsObject) (text : string) : Outcome JsObject :=
  match jsonParse text with
  | Returns parsed => Returns (spread result parsed)
  | Throws e => Throws e
  end.

(** Lines 18-23 *)
Definition loadFile (flags : Flags) (result : JsObject) : Outcome JsObject :=
  match given (vars_file flags) with
  | Some file =>
      match readFile file with
      | Returns content => mergeJson result content
      | Throws e => Throws e
      end
  | None => Returns result
  end.

(** Lines 25-28 *)
Definition mergeInline (flags : Flags) (result : JsObject) : Outcome JsObject :=
  match given (vars_json flags) with
  | Some text => mergeJson result text
  | None => Returns result
  end.

(** Lines 30-39 *)
Definition mergePairs (flags : Flags) (result : JsObject) : Outcome JsObject :=
  match vars flags with
  | Some vs => fold_left assign vs (Returns result)
  | None => Returns result
  end.

Definition parseVars (flags : Flags) : Outcome JsObject :=
  match loadFile flags ∅ with
  | Throws e => Throws e
  | Returns result =>
      match mergeInline flags result with
      | Throws e => Throws e
      | Returns result => mergePairs flags result
      end
  end.
End ParseVars.

(** [key=value] as it is typed on the command line. *)
Definition pair (key value : string) : string :=
  key +:+ String JsString.equals value.

(** The key of a pair, when it has one. *)
Definition keyOf (v : string) : option string :=
  (λ idx, JsString.sliceTo idx v) <$> JsString.indexOf JsString.equals v.

End Cli.

(** ** Archives as text maps ([lib/archive-utils.ts]) *)

Module Archive.

(** An entry of [zip.files]. *)
Record ZipEntry := {
  relativePath : string;
  dir : bool;
  content : string;
}.

(** Lines 32-33: the path without its first segment. *)
Definition cleanPath (relativePath : string) : string :=
  let parts := Js.split Runtime.slash relativePath in
  if decide (1 < length parts)%nat then Js.join "/" (drop 1 parts) else relativePath.

(** [extractArchiveToTextMap] on the entries of the archive, in their
    order. *)
Definition extractArchiveToTextMap (files : list ZipEntry) : gmap string string :=
  fold_left
    (λ result zipEntry,
       if dir zipEntry then result
       else <[cleanPath (relativePath zipEntry) := content zipEntry]> result)
    files ∅.

(** The file entries of an archive that holds [files] under the one folder
    [root], as [createArchiveFromTextMap] has the zip library name them. *)
Definition fileEntries (root : string) (files : list (string * string)) : list ZipEntry :=
  (λ fc, {| relativePath := root +:+ "/" +:+ fc.1;
            dir := false; content := fc.2 |}) <$> files.

(** A folder entry. *)
Definition folder (path : string) : ZipEntry :=
  {| relativePath := path +:+ "/"; dir := true; content := "" |}.

End Archive.

(** ** Feature bootstrap and removal ([lib/bootstrap.ts], [lib/features.ts]) *)

Module FeatureOps.

Definition isFeatureBootstrapRequired
    (clientId : string) (instanceState : option Features.InstanceFeatureState) : bool :=
  match instanceState with
  | None => true
  | Some st =>
      falsy (Features.b2cToolsFeaturesVersion st)
      || bool_decide (toNumber (Features.b2cToolsFeaturesVersion st)
                      < B2C_TOOLS_FEATURES_VERSION)
      || negb (bool_decide
                 (is_Some (Features.b2cToolsFeaturesBootstrappedClientIDs st !! clientId)))
      || bool_decide (clientVersion (Features.b2cToolsFeaturesBootstrappedClientIDs st)
                        clientId < B2C_TOOLS_FEATURES_VERSION)
  end.

(** The final PATCH of [bootstrapFeatures]; its response is not looked at. *)
Definition recordFeatureBootstrap (cs : gmap string (option Z)) (r : Remote) : Remote :=
  match patchError r with
  | Some _ => r
  | None =>
      let p := preferences r in
      setPreferences
        {| c_b2cToolkitDataVersion := c_b2cToolkitDataVersion p;
           c_b2cToolkitMigrations := c_b2cToolkitMigrations p;
           c_b2cToolsBootstrappedClientIDs := c_b2cToolsBootstrappedClientIDs p;
           c_b2cToolsVars := c_b2cToolsVars p;
           c_b2cToolsFeaturesVersion := Some B2C_TOOLS_FEATURES_VERSION;
           c_b2cToolsFeaturesBootstrappedClientIDs := cs |} r
  end.

(** [bootstrapFeatures]; [featuresImport] is the SDK's import of the
    features bootstrap archive. *)
Definition bootstrapFeatures (featuresImport : Ext unit) (clientId : string) : Ext unit :=
  λ r,
    match featuresImport r with
    | (Throws e, r1) =>
        if decide (responseStatus e = Some 403)
        then (Throws (bootstrapForbidden clientId), r1)
        else (Throws e, r1)
    | (Returns _, r1) =>
        match Features.getInstanceFeatureState r1 with
        | Throws e => (Throws e, r1)
        | Returns None =>
            (Throws (jsError "Failed to read feature state after bootstrap import"), r1)
        | Returns (Some instanceFeatureState) =>
            (Returns tt,
             recordFeatureBootstrap
               (setClient
                  (Features.b2cToolsFeaturesBootstrappedClientIDs instanceFeatureState)
                  clientId B2C_TOOLS_FEATURES_VERSION)
               r1)
        end
    end.

(** A feature of the project: its definition and its [remove] hook, which
    gets the merged variables and the feature state of the instance. *)
Record FeatureModule := {
  definition : Features.FeatureDefinition;
  remove : option (JsObject → Features.InstanceFeatureState → Ext unit);
}.

Definition cannotFind (featureName : string) : Exn :=
  jsError ("Cannot find feature " +:+ JsString.quoted featureName).

Definition notDeployed (featureName hostname : string) : Exn :=
  jsError (JsString.quoted featureName +:+ " not deployed to instance " +:+ hostname).

(** [removeFeature], for the features [collectFeatures] found in the
    features directory. The response of the final DELETE is not looked
    at; the instance is taken to carry it out. *)
Definition removeFeature
    (hostname : string) (features : list FeatureModule)
    (featureName : string) (vars : JsObject) : Ext unit :=
  λ r,
    match Features.getInstanceFeatureState r with
    | Throws e => (Throws e, r)
    | Returns None => (Returns tt, r)
    | Returns (Some instanceState) =>
        match List.find
                (λ f, bool_decide
                        (Features.definitionName (definition f) = featureName))
                features with
        | None => (Throws (cannotFind featureName), r)
        | Some feature =>
            match Features.findFeatureState instanceState featureName with
            | None => (Throws (notDeployed featureName hostname), r)
            | Some featureState =>
                let featureVars :=
                  Features.mergeVars (definition feature) (Some featureState) vars in
                match match remove feature with
                      | Some hook => hook featureVars instanceState r
                      | None => (Returns tt, r)
                      end with
                | (Throws e, r1) => (Throws e, r1)
                | (Returns _, r1) =>
                    (Returns tt,
                     setCustomObjects (delete featureName (customObjects r1)) r1)
                end
            end
        end
    end.

(** Every custom object is stored under its own key. *)
Definition keyedByName (r : Remote) : Prop :=
  ∀ k obj, customObjects r !! k = Some obj → key_value_string obj = k.

End FeatureOps.

(** ** Further readings of a run *)

(** The same SDK with another WebDAV put. *)
Definition withWebdavPut (put : Ext unit) (sdk : Sdk) : Sdk :=
  {| siteArchiveImport := siteArchiveImport sdk;
     bootstrapImport := bootstrapImport sdk;
     webdavPut := put |}.

(** The calls a dry run may make after the state check. *)
Definition dryRunEvent (ev : Event) : Prop :=
  match ev with
  | EvBeforeAll _ _ _ | EvStat _ | EvLogPut => True
  | _ => False
  end.

(** The calls of the loop over the pending units. *)
Definition loopEvent (ev : Event) : Prop :=
  match ev with
  | EvStat _ | EvBeforeEach _ | EvSiteArchiveImport _ | EvScriptCall _
  | EvOnFailure _ _ | EvAfterEach _ | EvGetInstanceState _
  | EvUpdateInstanceMigrations _ => True
  | _ => False
  end.

(** The lists handed to the [afterAll] hook. *)
Definition afterAlls (t : list Event) : list (list string) :=
  omap (λ ev, match ev with EvAfterAll l => Some l | _ => None end) t.

(** The lists handed to the [beforeAll] hook. *)
Definition beforeAlls (t : list Event) : list (list string) :=
  omap (λ ev, match ev with EvBeforeAll l _ _ => Some l | _ => None end) t.

(** ** More sample data *)

Module Fixture.

Definition twoUnits (hooks : MigrationLifecycleFunctions) : Project :=
  Sample.project [Sample.directory "0001-a"; Sample.directory "0002-b"]
    (λ _, ExportsOther) hooks.

(** The state a read of [Sample.instanceAt 7] gives, with the applied
    list [applied]. *)
Definition stateAt (applied : list string) : ToolkitInstanceState :=
  {| version := Some 7; migrations := applied;
     clients := {[ "cid" := Some 7 ]}; vars := ∅ |}.

Definition noApply : MigrateInstanceOptions :=
  {| exclude := []; apply := false; dryRun := false;
     forceBootstrap := false; allowBootstrap := true;
     showNotes := true |}.

Definition forcedButDisallowed : MigrateInstanceOptions :=
  {| exclude := []; apply := true; dryRun := false;
     forceBootstrap := true; allowBootstrap := false;
     showNotes := true |}.

(** [shouldBootstrap] throws. *)
Definition brokenShouldBootstrap : MigrationLifecycleFunctions :=
  {| init := None;
     shouldBootstrap := Some (λ _ r, (Throws (jsError "cannot tell"), r));
     onBootstrap := None; beforeAll := None; beforeEach := None;
     afterEach := None; afterAll := None; onFailure := None |}.

(** An instance that refuses every write of the preferences. *)
Definition readOnly (applied : option string) : Remote :=
  {| getError := None;
     patchError := Some {| status := 403; faultMessage := None |};
     preferences := preferences (Sample.instanceAt 7 applied);
     searchError := None; customObjects := ∅ |}.

(** The project [p] with a notes file in the directory [unit] that cannot
    be read. *)
Definition withUnreadableNotes (unit : string) (e : Exn) (p : Project) : Project :=
  {| dir := dir p; entries := entries p; requireScript := requireScript p;
     notesFile := λ m, if decide (m = unit) then Some (Throws e) else notesFile p m;
     lifeCycleModule := lifeCycleModule p |}.

Definition excluding (patterns : list string) : MigrateInstanceOptions :=
  {| exclude := patterns; apply := true; dryRun := false;
     forceBootstrap := false; allowBootstrap := true;
     showNotes := true |}.

Definition withoutNotes : MigrateInstanceOptions :=
  {| exclude := []; apply := true; dryRun := false;
     forceBootstrap := false; allowBootstrap := true;
     showNotes := false |}.

(** The files and JSON texts of the examples: one file, [vars.json], can
    be read; the parser knows its text and one more, and takes any other
    text for no JSON. *)
Definition jsonField (key value : string) : string :=
  JsString.quoted key +:+ ":" +:+ JsString.quoted value.

Definition fileText : string :=
  "{" +:+ jsonField "site" "file" +:+ "," +:+ jsonField "region" "eu" +:+ "}".

Definition inlineText : string := "{" +:+ jsonField "locale" "fr" +:+ "}".

Definition noSuchFile (file : string) : Exn :=
  jsError ("ENOENT: no such file or directory, open '" +:+ file +:+ "'").

Definition noJson (text : string) : Exn :=
  jsError ("Unexpected token in JSON: " +:+ text).

Definition readFile (file : string) : Outcome string :=
  if decide (file = "vars.json") then Returns fileText else Throws (noSuchFile file).

Definition jsonParse (text : string) : Outcome JsObject :=
  if decide (text = fileText)
  then Returns {[ "site" := JStr "file"; "region" := JStr "eu" ]}
  else if decide (text = inlineText) then Returns {[ "locale" := JStr "fr" ]}
  else Throws (noJson text).

(** A feature without defaults, secrets or [remove] hook. *)
Definition plainFeature (name : string) : FeatureOps.FeatureModule :=
  {| FeatureOps.definition :=
       {| Features.definitionName := name; Features.defaultVars := None;
          Features.secretVars := None |};
     FeatureOps.remove := None |}.

End Fixture.

(** * Properties *)

(** ** Arrays *)

Section SortFacts.
Context (cmp : string → string → Z).

Lemma insert_Permutation x l : Js.insert cmp x l ≡ₚ x :: l.
Proof.
  induction l as [|y l IH]; simpl; [done|].
  case_decide; [done|]. rewrite IH. apply Permutation_swap.
Qed.

Lemma sort_Permutation l : Js.sort cmp l ≡ₚ l.
Proof.
  induction l as [|x l IH]; simpl; [done|].
  by rewrite insert_Permutation, IH.
Qed.

Context (Hcmp : Js.consistent cmp).

Lemma precedes_total a b : Js.precedes cmp a b ∨ Js.precedes cmp b a.
Proof.
  unfold Js.precedes. destruct Hcmp as [Hanti _].
  destruct (decide (cmp a b ≤ 0)) as [|Hgt]; [by left|right].
  assert (cmp b a < 0) by (apply Hanti; lia). lia.
Qed.

Lemma precedes_trans a b c :
  Js.precedes cmp a b → Js.precedes cmp b c → Js.precedes cmp a c.
Proof. destruct Hcmp as [_ Htrans]. apply Htrans. Qed.

Lemma insert_StronglySorted x l :
  StronglySorted (Js.precedes cmp) l →
  StronglySorted (Js.precedes cmp) (Js.insert cmp x l).
Proof.
  induction 1 as [|y l Hl IH Hy]; simpl.
  - repeat constructor.
  - case_decide as Hxy.
    + constructor; [by constructor|].
      constructor; [done|].
      eapply Forall_impl; [exact Hy|]. intros z Hz.
      by apply precedes_trans with y.
    + constructor; [done|].
      rewrite insert_Permutation. constructor; [|done].
      by destruct (precedes_total x y).
Qed.

Lemma sort_StronglySorted l : StronglySorted (Js.precedes cmp) (Js.sort cmp l).
Proof.
  induction l as [|x l IH]; simpl; [constructor|].
  by apply insert_StronglySorted.
Qed.

(** In a sorted array an element that compares strictly below another
    one stands at a smaller index. *)
Lemma sorted_strictly_before l i j a b :
  StronglySorted (Js.precedes cmp) l →
  l !! i = Some a → l !! j = Some b → cmp a b < 0 → (i < j)%nat.
Proof.
  intros Hl Hi Hj Hab.
  destruct Hcmp as [Hanti _].
  destruct (decide (i < j)%nat) as [|Hge]; [done|exfalso].
  destruct (decide (i = j)) as [->|Hne].
  - assert (a = b) as -> by congruence.
    assert (0 < cmp b b) by by apply Hanti. lia.
  - assert (j < i)%nat as Hji by lia.
    assert (Js.precedes cmp b a) as Hba.
    { apply list_elem_of_split_length in Hj as (l1 & l2 & -> & ->).
      rewrite lookup_app_r in Hi by lia.
      destruct (i - length l1)%nat as [|k] eqn:Hk; [lia|]. simpl in Hi.
      apply StronglySorted_app_1_r, StronglySorted_cons in Hl as [Hfa _].
      rewrite Forall_forall in Hfa. apply Hfa.
      by eapply list_elem_of_lookup_2. }
    unfold Js.precedes in Hba.
    assert (0 < cmp b a) by by apply Hanti. lia.
Qed.
End SortFacts.

(** ** Unit collector *)

Section CollectorFacts.
Context (extname : string → string).
Context (regexMatch : string → string → Outcome bool).
Context (localeCompare : string → string → string → bool → Z).

Lemma everyUnmatched_returns n exclude b :
  everyUnmatched regexMatch n exclude = Returns b →
  b = true ↔ Forall (λ re, regexMatch n re ≠ Returns true) exclude.
Proof.
  induction exclude as [|re exclude IH]; simpl.
  - intros [= <-]. split; [constructor|done].
  - destruct (regexMatch n re) as [[|]|e] eqn:Hre; [| |done].
    + intros [= <-]. split; [done|]. by inversion_clear 1.
    + intros Hb. rewrite (IH Hb), Forall_cons. rewrite Hre. naive_solver.
Qed.

Lemma everyUnmatched_throws n exclude e :
  everyUnmatched regexMatch n exclude = Throws e →
  ∃ re, re ∈ exclude ∧ regexMatch n re = Throws e.
Proof.
  induction exclude as [|re exclude IH]; simpl; [done|].
  destruct (regexMatch n re) as [[|]|e'] eqn:Hre; [done| |].
  - intros (re' & ? & ?)%IH. exists re'. split; [by right|done].
  - intros [= ->]. exists re. split; [by left|done].
Qed.

Lemma everyUnmatched_total n exclude :
  (∀ re, re ∈ exclude → ∃ b, regexMatch n re = Returns b) →
  ∃ b, everyUnmatched regexMatch n exclude = Returns b.
Proof.
  induction exclude as [|re exclude IH]; simpl; intros Hall; [by eexists|].
  destruct (Hall re) as [[|] ->]; [by left|by eexists|].
  apply IH. intros re' Hre'. apply Hall. by right.
Qed.

Lemma validMigration_qualifies exclude d b :
  validMigration extname regexMatch exclude d = Returns b →
  name d ≠ "setup.js" ∧ b = true ↔ qualifies extname regexMatch exclude d.
Proof.
  unfold validMigration, qualifies.
  destruct (isDirectory d || bool_decide (extname (name d) = ".js")) eqn:Hkind.
  - intros Hb%everyUnmatched_returns. rewrite Hb.
    apply orb_true_iff in Hkind as Hkind'. rewrite bool_decide_eq_true in Hkind'.
    tauto.
  - intros [= <-].
    apply orb_false_iff in Hkind as [Hd He]. rewrite bool_decide_eq_false in He.
    rewrite Hd. naive_solver.
Qed.

Lemma filterValid_qualifies exclude entries valid :
  filterValid extname regexMatch exclude entries = Returns valid →
  filter (λ entry, name entry ≠ "setup.js") valid
  = filter (qualifies extname regexMatch exclude) entries.
Proof.
  revert valid. induction entries as [|d entries IH]; simpl; intros valid.
  - by intros [= <-].
  - destruct (validMigration extname regexMatch exclude d) as [keep|] eqn:Hd; [|done].
    destruct (filterValid extname regexMatch exclude entries) as [kept|]; [|done].
    intros [= <-]. specialize (IH kept eq_refl).
    apply validMigration_qualifies in Hd as [Hto Hfrom].
    rewrite (filter_cons (qualifies _ _ _)).
    destruct keep.
    + rewrite filter_cons, IH.
      destruct (decide (name d ≠ "setup.js")) as [Hname|Hname],
        (decide (qualifies extname regexMatch exclude d)) as [Hq|Hq]; [done| | |done].
      * by destruct Hq, Hto.
      * by destruct (Hfrom Hq).
    + rewrite IH.
      destruct (decide (qualifies extname regexMatch exclude d)) as [Hq|Hq]; [|done].
      by destruct (Hfrom Hq).
Qed.

Lemma filterValid_throws exclude entries e :
  filterValid extname regexMatch exclude entries = Throws e →
  ∃ d re, d ∈ entries ∧ (isDirectory d = true ∨ extname (name d) = ".js")
          ∧ re ∈ exclude ∧ regexMatch (name d) re = Throws e.
Proof.
  induction entries as [|d entries IH]; simpl; [done|].
  destruct (validMigration extname regexMatch exclude d) as [keep|e'] eqn:Hd.
  - destruct (filterValid extname regexMatch exclude entries) as [kept|e'']; [done|].
    intros [= ->]. destruct (IH eq_refl) as (d' & re & ? & ?).
    exists d', re. split; [by right|done].
  - intros [= ->]. unfold validMigration in Hd.
    destruct (isDirectory d || bool_decide (extname (name d) = ".js")) eqn:Hkind; [|done].
    apply everyUnmatched_throws in Hd as (re & ? & ?).
    apply orb_true_iff in Hkind. rewrite bool_decide_eq_true in Hkind.
    exists d, re. split_and!; [by left|done..].
Qed.

Lemma filterValid_is_Returns exclude entries :
  (∃ valid, filterValid extname regexMatch exclude entries = Returns valid)
  ↔ Forall (λ d, ∃ b, validMigration extname regexMatch exclude d = Returns b) entries.
Proof.
  induction entries as [|d entries IH]; simpl.
  - split; [by constructor|by eexists].
  - rewrite Forall_cons, <-IH.
    destruct (validMigration extname regexMatch exclude d) as [keep|e];
      [|split; [by intros [? ?]|by intros [[? ?] _]]].
    destruct (filterValid extname regexMatch exclude entries) as [kept|e].
    + split; [intros _; split; by eexists|by eexists].
    + split; [by intros [? ?]|by intros [_ [? ?]]].
Qed.

Lemma collectMigrations_Permutation entries exclude result :
  collectMigrations extname regexMatch localeCompare entries exclude = Returns result →
  result ≡ₚ name <$> filter (qualifies extname regexMatch exclude) entries.
Proof.
  unfold collectMigrations.
  destruct (filterValid extname regexMatch exclude entries) as [valid|] eqn:Hvalid; [|done].
  intros [= <-]. by rewrite sort_Permutation, (filterValid_qualifies _ _ _ Hvalid).
Qed.

Lemma collectMigrations_is_Returns entries exclude :
  (∃ result, collectMigrations extname regexMatch localeCompare entries exclude
             = Returns result)
  ↔ Forall (λ d, ∃ b, validMigration extname regexMatch exclude d = Returns b) entries.
Proof.
  rewrite <-filterValid_is_Returns. unfold collectMigrations.
  destruct (filterValid extname regexMatch exclude entries) as [valid|e].
  - split; by eexists.
  - split; by intros [? ?].
Qed.

Lemma collectMigrations_StronglySorted entries exclude result :
  Js.consistent (λ a b, localeCompare a b "en" false) →
  collectMigrations extname regexMatch localeCompare entries exclude = Returns result →
  StronglySorted (Js.precedes (λ a b, localeCompare a b "en" false)) result.
Proof.
  intros Hcmp. unfold collectMigrations.
  destruct (filterValid extname regexMatch exclude entries) as [valid|]; [|done].
  intros [= <-]. by apply sort_StronglySorted.
Qed.

(** C6, as the code has it. When it returns, [collectMigrations] returns
    the names of exactly the entries that qualify (sub-directories and
    files whose extension is [.js], without [setup.js] and without the
    names an exclusion pattern matches), each as often as it is listed, in
    ascending order of [localeCompare(_, 'en', {numeric: false})] for a
    consistent comparison: a name that this comparison puts strictly
    below another one stands before it, as ["10-foo"] before ["2-foo"]
    where the comparison says so. The result is a function of the
    entries, and it is the same for any other listing order of the same
    entries when no two different names of the result compare equal.
    It returns whenever every pattern is a regular expression; it
    throws only the error of a pattern that failed to compile on the name
    of a sub-directory or script file. *)
Theorem collectMigrations_selects_and_sorts entries exclude :
  let cmp := λ a b, localeCompare a b "en" false in
  let collect := collectMigrations extname regexMatch localeCompare in
  Js.consistent cmp →
  match collect entries exclude with
  | Returns result =>
      result ≡ₚ name <$> filter (qualifies extname regexMatch exclude) entries
      ∧ StronglySorted (Js.precedes cmp) result
      ∧ (∀ a b i j, cmp a b < 0 →
           result !! i = Some a → result !! j = Some b → (i < j)%nat)
      ∧ (∀ entries',
           entries' ≡ₚ entries →
           (∀ a b, a ∈ result → b ∈ result → cmp a b ≤ 0 → cmp b a ≤ 0 → a = b) →
           collect entries' exclude = Returns result)
  | Throws e =>
      ∃ d re, d ∈ entries ∧ (isDirectory d = true ∨ extname (name d) = ".js")
              ∧ re ∈ exclude ∧ regexMatch (name d) re = Throws e
  end
  ∧ ((∀ d re, d ∈ entries → re ∈ exclude → ∃ b, regexMatch (name d) re = Returns b) →
     ∃ result, collect entries exclude = Returns result).
Proof.
  intros cmp collect Hcmp. split.
  - destruct (collect entries exclude) as [result|e] eqn:Hresult.
    + assert (StronglySorted (Js.precedes cmp) result) as Hsorted
        by by eapply collectMigrations_StronglySorted.
      split_and!.
      * by apply collectMigrations_Permutation.
      * done.
      * intros a b i j Hlt Hi Hj. by eapply sorted_strictly_before.
      * intros entries' Hperm Hties.
        destruct (proj2 (collectMigrations_is_Returns entries' exclude)) as [result' Hresult'].
        { rewrite Hperm. apply collectMigrations_is_Returns. by eexists. }
        fold collect in Hresult'. rewrite Hresult'. f_equal.
        assert (result' ≡ₚ result) as Hsame.
        { rewrite (collectMigrations_Permutation _ _ _ Hresult'),
            (collectMigrations_Permutation _ _ _ Hresult).
          by rewrite Hperm. }
        apply (StronglySorted_unique_strong (Js.precedes cmp));
          [|by eapply collectMigrations_StronglySorted|done..].
        intros a b Ha Hb Hab Hba. rewrite Hsame in Ha. by apply Hties.
    + unfold collect, collectMigrations in Hresult.
      destruct (filterValid extname regexMatch exclude entries) as [valid|e'] eqn:Hvalid;
        [done|].
      injection Hresult as ->. by apply filterValid_throws.
  - intros Hall. apply collectMigrations_is_Returns, Forall_forall.
    intros d Hd. unfold validMigration.
    destruct (isDirectory d || bool_decide (extname (name d) = ".js")); [|by eexists].
    apply everyUnmatched_total. intros re Hre. by apply Hall.
Qed.
End CollectorFacts.

(** The code-unit comparison is a consistent comparator. *)
Lemma compareCodeUnits_anti a b :
  Runtime.compareCodeUnits a b < 0 ↔ 0 < Runtime.compareCodeUnits b a.
Proof.
  revert b. induction a as [|x a IH]; intros [|y b]; simpl; [lia..|].
  repeat case_decide; try lia. apply IH.
Qed.

Lemma compareCodeUnits_trans a b c :
  Runtime.compareCodeUnits a b ≤ 0 → Runtime.compareCodeUnits b c ≤ 0 →
  Runtime.compareCodeUnits a c ≤ 0.
Proof.
  revert b c. induction a as [|x a IH]; intros [|y b] [|z c]; simpl; try lia.
  repeat case_decide; try lia. apply IH.
Qed.

Lemma runtime_consistent :
  Js.consistent (λ a b, Runtime.localeCompare a b "en" false).
Proof.
  split.
  - intros a b. apply compareCodeUnits_anti.
  - intros a b c. apply compareCodeUnits_trans.
Qed.

Lemma collectMigrations_selects_and_sorts_witness :
  let entries :=
    [Sample.directory "2-foo"; Sample.file "setup.js"; Sample.directory "10-foo";
     Sample.file "b.js"; Sample.file "readme.md"; Sample.file "skip-me.js"] in
  let cmp := λ a b, Runtime.localeCompare a b "en" false in
  let collect :=
    collectMigrations Runtime.extname Runtime.literalMatch Runtime.localeCompare in
  let result := ["10-foo"; "2-foo"; "b.js"] in
  collect entries ["skip"] = Returns result
  ∧ result ≡ₚ name <$> filter (qualifies Runtime.extname Runtime.literalMatch ["skip"]) entries
  ∧ StronglySorted (Js.precedes cmp) result
  ∧ (∀ a b i j, cmp a b < 0 →
       result !! i = Some a → result !! j = Some b → (i < j)%nat)
  ∧ (∀ entries',
       entries' ≡ₚ entries →
       (∀ a b, a ∈ result → b ∈ result → cmp a b ≤ 0 → cmp b a ≤ 0 → a = b) →
       collect entries' ["skip"] = Returns result).
Proof.
  split; [reflexivity|].
  exact (proj1 (collectMigrations_selects_and_sorts
                  Runtime.extname Runtime.literalMatch Runtime.localeCompare
                  [Sample.directory "2-foo"; Sample.file "setup.js";
                   Sample.directory "10-foo"; Sample.file "b.js";
                   Sample.file "readme.md"; Sample.file "skip-me.js"]
                  ["skip"] runtime_consistent)).
Defined.

(** An exclusion pattern that is no regular expression: the collector
    throws the [SyntaxError] of [new RegExp] and returns no list. *)
Lemma collectMigrations_throws_on_invalid_pattern :
  collectMigrations Runtime.extname Runtime.literalMatch Runtime.localeCompare
    [Sample.directory "0001-a"; Sample.file "0002-b.js"] ["("]
  = Throws (Runtime.unterminatedGroup "(").
Proof. reflexivity. Qed.

(** ** [Array.from(new Set(_))] *)

Lemma fold_setAdd_elem_of xs acc x :
  x ∈ fold_left Js.setAdd xs acc ↔ x ∈ acc ∨ x ∈ xs.
Proof.
  revert acc. induction xs as [|y xs IH]; intros acc; simpl.
  - rewrite elem_of_nil. tauto.
  - rewrite IH. unfold Js.setAdd. destruct (decide (y ∈ acc)).
    + rewrite elem_of_cons. split; [tauto|]. intros [?|[->|?]]; auto.
    + rewrite elem_of_app, list_elem_of_singleton, elem_of_cons. tauto.
Qed.

Lemma fold_setAdd_NoDup xs acc :
  NoDup acc → NoDup (fold_left Js.setAdd xs acc).
Proof.
  revert acc. induction xs as [|y xs IH]; intros acc Hacc; simpl; [done|].
  apply IH. unfold Js.setAdd. case_decide; [done|].
  apply NoDup_app. split_and!; [done| |apply NoDup_singleton].
  intros z Hz ->%list_elem_of_singleton. done.
Qed.

Lemma fold_setAdd_fresh xs acc :
  NoDup (acc ++ xs) → fold_left Js.setAdd xs acc = acc ++ xs.
Proof.
  revert acc. induction xs as [|y xs IH]; intros acc Hnd; simpl.
  - by rewrite app_nil_r.
  - unfold Js.setAdd. case_decide as Hin.
    + apply NoDup_app in Hnd as (_ & Hdisj & _).
      destruct (Hdisj y Hin). by left.
    + rewrite IH; rewrite <-app_assoc; done.
Qed.

Lemma arrayFromSet_elem_of xs x : x ∈ Js.arrayFromSet xs ↔ x ∈ xs.
Proof.
  unfold Js.arrayFromSet. rewrite fold_setAdd_elem_of, elem_of_nil. tauto.
Qed.

Lemma arrayFromSet_NoDup xs : NoDup (Js.arrayFromSet xs).
Proof. apply fold_setAdd_NoDup, NoDup_nil_2. Qed.

Lemma arrayFromSet_id xs : NoDup xs → Js.arrayFromSet xs = xs.
Proof. intros. unfold Js.arrayFromSet. by rewrite fold_setAdd_fresh. Qed.


(** ** The applied list as text *)

Lemma split_no_comma s :
  comma ∉ String.list_ascii_of_string s → Js.split comma s = [s].
Proof.
  induction s as [|c s IH]; simpl; [done|].
  intros Hc. apply not_elem_of_cons in Hc as [Hne Hs].
  case_decide; [congruence|]. by rewrite IH.
Qed.

Lemma split_app_comma s rest :
  comma ∉ String.list_ascii_of_string s →
  Js.split comma (s +:+ "," +:+ rest) = s :: Js.split comma rest.
Proof.
  induction s as [|c s IH]; simpl.
  - intros _. reflexivity.
  - intros Hc. apply not_elem_of_cons in Hc as [Hne Hs].
    case_decide; [congruence|]. by rewrite IH.
Qed.

Lemma split_join l :
  l ≠ [] → Forall wellFormedId l → Js.split comma (Js.join "," l) = l.
Proof.
  induction l as [|x l IH]; [done|]. intros _ Hall.
  apply Forall_cons in Hall as [[_ Hx] Hl].
  destruct l as [|y l]; simpl.
  - by apply split_no_comma.
  - change (Js.split comma (x +:+ "," +:+ Js.join "," (y :: l)) = x :: y :: l).
    rewrite split_app_comma by done. f_equal. by apply IH.
Qed.

(** What is written reads back as the same list. *)
Lemma parseMigrations_join l :
  Forall wellFormedId l → parseMigrations (Some (Js.join "," l)) = l.
Proof.
  intros Hall. destruct l as [|x l]; [done|].
  assert (Js.join "," (x :: l) ≠ "") as Hne.
  { apply Forall_cons in Hall as [[Hx _] _].
    destruct x; [done|]. by destruct l. }
  unfold parseMigrations.
  destruct (Js.join "," (x :: l)) eqn:Hj; [done|].
  rewrite <-Hj. by apply split_join.
Qed.

(** ** Running the monad *)

Lemma bind_run {A B} (m : M A) (k : A → M B) r :
  bind m k r =
  match m r with
  | (Returns a, r1, t1) =>
      (outcome (k a r1), remoteAfter (k a r1), t1 ++ trace (k a r1))
  | (Throws e, r1, t1) => (Throws e, r1, t1)
  end.
Proof.
  unfold bind, outcome, remoteAfter, trace.
  destruct (m r) as [[[a|e] r1] t1]; [|done].
  by destruct (k a r1) as [[o r2] t2].
Qed.

Lemma trace_triple {A} (o : Outcome A) r t : trace (o, r, t) = t.
Proof. done. Qed.
Lemma outcome_triple {A} (o : Outcome A) r t : outcome (o, r, t) = o.
Proof. done. Qed.
Lemma remoteAfter_triple {A} (o : Outcome A) r t : remoteAfter (o, r, t) = r.
Proof. done. Qed.

Lemma run_eta {A} (x : Outcome A * Remote * list Event) :
  x = (outcome x, remoteAfter x, trace x).
Proof. by destruct x as [[o r] t]. Qed.

Lemma getInstanceState_run r :
  getInstanceState r =
  match readInstanceState r with
  | Returns st => (Returns st, r, [EvGetInstanceState st])
  | Throws e => (Throws e, r, [])
  end.
Proof. done. Qed.

Lemma updateInstanceMigrations_trace l r :
  trace (updateInstanceMigrations l r) = [EvUpdateInstanceMigrations l].
Proof.
  unfold updateInstanceMigrations. rewrite bind_run. simpl.
  destruct (patchError r) as [err|]; [|done].
  by repeat case_decide.
Qed.

Lemma updateInstanceMigrations_ok l r :
  patchError r = None →
  updateInstanceMigrations l r =
  (Returns tt, writeMigrations l r, [EvUpdateInstanceMigrations l]).
Proof. intros H. unfold updateInstanceMigrations. rewrite bind_run. simpl. by rewrite H. Qed.

Lemma updateInstanceMigrations_remote l r :
  remoteAfter (updateInstanceMigrations l r) =
  match patchError r with Some _ => r | None => writeMigrations l r end.
Proof.
  unfold updateInstanceMigrations. rewrite bind_run. simpl.
  destruct (patchError r) as [err|]; [|done].
  by repeat case_decide.
Qed.


Lemma call_run {A} ev (f : Ext A) r :
  call ev f r = ((f r).1, (f r).2, [ev]).
Proof. unfold call. by destruct (f r). Qed.

Lemma tryCatch_run {A} (m : M A) (h : Exn → M A) r :
  tryCatch m h r =
  match m r with
  | (Returns a, r1, t1) => (Returns a, r1, t1)
  | (Throws e, r1, t1) =>
      (outcome (h e r1), remoteAfter (h e r1), t1 ++ trace (h e r1))
  end.
Proof.
  unfold tryCatch, outcome, remoteAfter, trace.
  destruct (m r) as [[[a|e] r1] t1]; [done|].
  by destruct (h e r1) as [[o r2] t2].
Qed.

Lemma taken_app t1 t2 : taken (t1 ++ t2) = taken t1 ++ taken t2.
Proof. apply omap_app. Qed.
Lemma executed_app t1 t2 : executed (t1 ++ t2) = executed t1 ++ executed t2.
Proof. apply omap_app. Qed.
Lemma updates_app t1 t2 : updates (t1 ++ t2) = updates t1 ++ updates t2.
Proof. apply omap_app. Qed.
Lemma reads_app t1 t2 : reads (t1 ++ t2) = reads t1 ++ reads t2.
Proof. apply omap_app. Qed.

Lemma commit_run apply m l r :
  commit apply m l r =
  if apply then
    match readInstanceState r with
    | Throws e => (Throws e, r, [])
    | Returns s =>
        let written :=
          match s with
          | Some st => Js.arrayFromSet (migrations st ++ l ++ [m])
          | None => l ++ [m]
          end in
        (match outcome (updateInstanceMigrations written r) with
         | Returns _ => Returns written
         | Throws e => Throws e
         end,
         remoteAfter (updateInstanceMigrations written r),
         [EvGetInstanceState s; EvUpdateInstanceMigrations written])
    end
  else (Returns (l ++ [m]), r, []).
Proof.
  unfold commit. destruct apply; [|done].
  rewrite bind_run, getInstanceState_run.
  destruct (readInstanceState r) as [s|e]; [|done].
  unfold outcome, remoteAfter, trace; simpl.
  set (written := match s with Some st => _ | None => _ end).
  rewrite !bind_run.
  rewrite (run_eta (updateInstanceMigrations written r)).
  rewrite updateInstanceMigrations_trace.
  by destruct (outcome (updateInstanceMigrations written r)).
Qed.


Lemma lastSeen_app known t1 t2 :
  lastSeen known (t1 ++ t2) = lastSeen (lastSeen known t1) t2.
Proof.
  revert known. induction t1 as [|ev t1 IH]; intros known; simpl; [done|].
  destruct ev as [[st|]| | | | | | | | | | | | |]; by rewrite ?IH.
Qed.

(** A trace without reads of a state and without writes. *)
Lemma quiet_keeps known t :
  reads t = [] → updates t = [] →
  keepsApplied known t ∧ lastSeen known t = known.
Proof.
  induction t as [|ev t IH]; simpl; [done|].
  destruct ev as [[st|]| | | | | | | | | | | | |]; simpl; try done; auto.
Qed.



Section EngineFacts.
Context (extname : string → string).
Context (regexMatch : string → string → Outcome bool).
Context (localeCompare : string → string → string → bool → Z).
Context (sdk : Sdk) (p : Project).

Lemma statIsDirectory_run m r :
  statIsDirectory p m r =
  match List.find (λ d, bool_decide (name d = m)) (entries p) with
  | Some d => (Returns (isDirectory d), r, [EvStat m])
  | None =>
      (Throws (jsError ("ENOENT: no such file or directory, stat '" +:+
                        target (dir p) m +:+ "'")), r, [EvStat m])
  end.
Proof.
  unfold statIsDirectory. rewrite bind_run. simpl.
  by destruct (List.find _ _).
Qed.

Lemma execute_run isDir m r :
  execute sdk p isDir m r =
  match attempt sdk p isDir m r with
  | (Returns a, r1, t1) => (Returns a, r1, t1)
  | (Throws e, r1, t1) =>
      match onFailure (lifeCycleModule p) with
      | Some hook => ((hook m e r1).1, (hook m e r1).2, t1 ++ [EvOnFailure m e])
      | None => (Throws e, r1, t1)
      end
  end.
Proof.
  unfold execute. rewrite tryCatch_run.
  destruct (attempt sdk p isDir m r) as [[[a|e] r1] t1]; [done|].
  destruct (onFailure (lifeCycleModule p)) as [hook|].
  - by rewrite call_run.
  - unfold outcome, remoteAfter, trace; simpl. by rewrite app_nil_r.
Qed.

Lemma loadNotes_run opts isDir m r :
  loadNotes p opts isDir m r =
  match loadError p opts isDir m with
  | Some e => (Throws e, r, [])
  | None => (Returns tt, r, [])
  end.
Proof.
  unfold loadNotes, loadError. destruct isDir.
  - destruct (notesFile p m) as [[text|e]|]; by destruct (showNotes opts).
  - by destruct (requireScript p m).
Qed.

Lemma migrate_run opts m acc r :
  migrate sdk p opts m acc r =
  match List.find (λ d, bool_decide (name d = m)) (entries p) with
  | None =>
      (Throws (jsError ("ENOENT: no such file or directory, stat '" +:+
                        target (dir p) m +:+ "'")), r, [EvStat m])
  | Some d =>
      match loadError p opts (isDirectory d) m with
      | Some e => (Throws e, r, [EvStat m])
      | None =>
      if dryRun opts then (Returns acc, r, [EvStat m])
      else
        match runBeforeEach p (apply opts) m r with
        | (Throws e, rb, tb) => (Throws e, rb, EvStat m :: tb)
        | (Returns b, rb, tb) =>
            match (if b then execute sdk p (isDirectory d) m else ret tt) rb with
            | (Throws e, r1, t1) => (Throws e, r1, EvStat m :: tb ++ t1)
            | (Returns _, r1, t1) =>
                let x := conclude p opts m acc r1 in
                (outcome x, remoteAfter x, EvStat m :: tb ++ t1 ++ trace x)
            end
        end
      end
  end.
Proof.
  unfold migrate. rewrite bind_run, statIsDirectory_run.
  destruct (List.find _ _) as [d|]; [|done].
  rewrite bind_run, loadNotes_run.
  destruct (loadError p opts (isDirectory d) m); [done|].
  destruct (dryRun opts); [done|].
  rewrite bind_run.
  destruct (runBeforeEach p (apply opts) m r) as [[[b|e] rb] tb]; [|done].
  rewrite bind_run.
  destruct ((if b then execute sdk p (isDirectory d) m else ret tt) rb)
    as [[[u|e] r1] t1]; [|done].
  unfold outcome, remoteAfter, trace; simpl. by rewrite app_assoc.
Qed.

Lemma migrateAll_cons_run opts m rest acc r :
  migrateAll sdk p opts (m :: rest) acc r =
  match migrate sdk p opts m acc r with
  | (Returns acc', r1, t1) =>
      let x := migrateAll sdk p opts rest acc' r1 in
      (outcome x, remoteAfter x, t1 ++ trace x)
  | (Throws e, r1, t1) => (Throws e, r1, t1)
  end.
Proof. simpl. by rewrite bind_run. Qed.

Lemma migrateAll_app_run opts l1 l2 acc r :
  migrateAll sdk p opts (l1 ++ l2) acc r =
  match migrateAll sdk p opts l1 acc r with
  | (Returns acc', r1, t1) =>
      let x := migrateAll sdk p opts l2 acc' r1 in
      (outcome x, remoteAfter x, t1 ++ trace x)
  | (Throws e, r1, t1) => (Throws e, r1, t1)
  end.
Proof.
  revert acc r. induction l1 as [|m l1 IH]; intros acc r.
  - simpl. apply run_eta.
  - rewrite <-app_comm_cons, !migrateAll_cons_run.
    destruct (migrate sdk p opts m acc r) as [[[acc'|e] r1] t1]; [|done].
    simpl. rewrite IH.
    destruct (migrateAll sdk p opts l1 acc' r1) as [[[acc''|e] r2] t2]; simpl.
    + unfold outcome, remoteAfter, trace; simpl. by rewrite app_assoc.
    + done.
Qed.

Lemma runBeforeEach_trace apply m r :
  trace (runBeforeEach p apply m r) = [] ∨
  trace (runBeforeEach p apply m r) = [EvBeforeEach m].
Proof.
  unfold runBeforeEach. destruct (beforeEach (lifeCycleModule p)) as [hook|].
  - right. by rewrite call_run.
  - by left.
Qed.

Lemma attempt_trace isDir m r :
  trace (attempt sdk p isDir m r) = [] ∨
  trace (attempt sdk p isDir m r) = [EvSiteArchiveImport m] ∨
  trace (attempt sdk p isDir m r) = [EvScriptCall m].
Proof.
  unfold attempt. destruct isDir.
  - right; left. by rewrite call_run.
  - destruct (requireScript p m) as [body| |e].
    + right; right. by rewrite call_run.
    + by left.
    + by left.
Qed.

Lemma conclude_run opts m acc r :
  conclude p opts m acc r =
  match commit (apply opts) m acc.1 r with
  | (Throws e, r1, t1) => (Throws e, r1, t1)
  | (Returns l, r1, t1) =>
      match afterEach (lifeCycleModule p) with
      | None => (Returns (l, acc.2 ++ [m]), r1, t1)
      | Some hook =>
          (match (hook m (apply opts) r1).1 with
           | Returns _ => Returns (l, acc.2 ++ [m])
           | Throws e => Throws e
           end,
           (hook m (apply opts) r1).2, t1 ++ [EvAfterEach m])
      end
  end.
Proof.
  unfold conclude. rewrite bind_run.
  destruct (commit (apply opts) m acc.1 r) as [[[l|e] r1] t1]; [|done].
  rewrite bind_run.
  destruct (afterEach (lifeCycleModule p)) as [hook|].
  - rewrite call_run. destruct (hook m (apply opts) r1) as [[u|e] r2]; simpl.
    + unfold outcome, remoteAfter, trace; simpl. by rewrite ?app_nil_r.
    + done.
  - unfold outcome, remoteAfter, trace; simpl. by rewrite ?app_nil_r.
Qed.

Lemma runBeforeEach_quiet apply m r :
  let t := trace (runBeforeEach p apply m r) in
  taken t = [] ∧ executed t = [] ∧ updates t = [] ∧ reads t = [].
Proof. by destruct (runBeforeEach_trace apply m r) as [-> | ->]. Qed.

Lemma attempt_quiet isDir m r :
  let t := trace (attempt sdk p isDir m r) in
  taken t = [] ∧ updates t = [] ∧ reads t = []
  ∧ (executed t = [] ∨ executed t = [m]).
Proof.
  destruct (attempt_trace isDir m r) as [-> | [-> | ->]]; simpl; auto.
Qed.

Lemma execute_quiet isDir m r :
  let t := trace (execute sdk p isDir m r) in
  taken t = [] ∧ updates t = [] ∧ reads t = []
  ∧ (executed t = [] ∨ executed t = [m]).
Proof.
  rewrite execute_run.
  pose proof (attempt_quiet isDir m r) as (Ht & Hu & Hr & He).
  destruct (attempt sdk p isDir m r) as [[[a|e] r1] t1]; [done|].
  destruct (onFailure (lifeCycleModule p)) as [hook|]; [|done].
  unfold trace in *; simpl in *.
  rewrite taken_app, updates_app, reads_app, executed_app, Ht, Hu, Hr.
  simpl. rewrite app_nil_r. done.
Qed.

Lemma commit_quiet apply m l r :
  let t := trace (commit apply m l r) in taken t = [] ∧ executed t = [].
Proof.
  rewrite commit_run. destruct apply; [|done].
  by destruct (readInstanceState r).
Qed.

Lemma conclude_quiet opts m acc r :
  let t := trace (conclude p opts m acc r) in taken t = [] ∧ executed t = [].
Proof.
  rewrite conclude_run.
  pose proof (commit_quiet (apply opts) m acc.1 r) as [Ht He].
  destruct (commit (apply opts) m acc.1 r) as [[[l|e] r1] t1]; [|done].
  destruct (afterEach (lifeCycleModule p)) as [hook|]; [|done].
  unfold trace in *; simpl in *.
  by rewrite taken_app, executed_app, Ht, He.
Qed.

Lemma conclude_returns opts m acc r acc' r' t :
  conclude p opts m acc r = (Returns acc', r', t) → acc'.2 = acc.2 ++ [m].
Proof.
  rewrite conclude_run.
  destruct (commit (apply opts) m acc.1 r) as [[[l|e] r1] t1]; [|done].
  destruct (afterEach (lifeCycleModule p)) as [hook|].
  - destruct (hook m (apply opts) r1).1; [|done]. by intros [= <- _ _].
  - by intros [= <- _ _].
Qed.

Lemma migrate_taken opts m acc r :
  taken (trace (migrate sdk p opts m acc r)) = [m].
Proof.
  rewrite migrate_run.
  destruct (List.find _ _) as [d|]; [|done].
  destruct (loadError _ _ _) as [eload|]; [done|].
  destruct (dryRun opts); [done|].
  pose proof (runBeforeEach_quiet (apply opts) m r) as (Hb & _).
  destruct (runBeforeEach p (apply opts) m r) as [[[b|e] rb] tb];
    unfold trace in *; simpl in *; [|by rewrite Hb].
  assert (taken (trace ((if b then execute sdk p (isDirectory d) m else ret tt) rb)) = [])
    as Hx by (destruct b; [apply execute_quiet|done]).
  destruct ((if b then execute sdk p (isDirectory d) m else ret tt) rb)
    as [[[u|e] r1] t1]; unfold trace in *; simpl in *.
  - pose proof (conclude_quiet opts m acc r1) as [Hc _]. unfold trace in Hc.
    by rewrite !taken_app, Hb, Hx, Hc.
  - by rewrite !taken_app, Hb, Hx.
Qed.

Lemma migrate_executed opts m acc r :
  executed (trace (migrate sdk p opts m acc r)) = [] ∨
  executed (trace (migrate sdk p opts m acc r)) = [m].
Proof.
  rewrite migrate_run.
  destruct (List.find _ _) as [d|]; [|by left].
  destruct (loadError _ _ _) as [eload|]; [by left|].
  destruct (dryRun opts); [by left|].
  pose proof (runBeforeEach_quiet (apply opts) m r) as (_ & Hb & _).
  destruct (runBeforeEach p (apply opts) m r) as [[[b|e] rb] tb];
    unfold trace in *; simpl in *; [|by left].
  assert (executed (trace ((if b then execute sdk p (isDirectory d) m else ret tt) rb)) = []
          ∨ executed (trace ((if b then execute sdk p (isDirectory d) m else ret tt) rb)) = [m])
    as Hx by (destruct b; [apply execute_quiet|by left]).
  destruct ((if b then execute sdk p (isDirectory d) m else ret tt) rb)
    as [[[u|e] r1] t1]; unfold trace in *; simpl in *.
  - pose proof (conclude_quiet opts m acc r1) as [_ Hc]. unfold trace in Hc.
    rewrite !executed_app, Hb, Hc, app_nil_r. done.
  - rewrite !executed_app, Hb. done.
Qed.

Lemma migrate_returns_ran opts m acc r acc' r' t :
  migrate sdk p opts m acc r = (Returns acc', r', t) →
  acc'.2 = if dryRun opts then acc.2 else acc.2 ++ [m].
Proof.
  rewrite migrate_run.
  destruct (List.find _ _) as [d|]; [|done].
  destruct (loadError _ _ _) as [eload|]; [done|].
  destruct (dryRun opts); [by intros [= <- _ _]|].
  destruct (runBeforeEach p (apply opts) m r) as [[[b|e] rb] tb]; [|done].
  destruct ((if b then execute sdk p (isDirectory d) m else ret tt) rb)
    as [[[u|e] r1] t1]; [|done].
  simpl. rewrite (run_eta (conclude p opts m acc r1)).
  unfold outcome, remoteAfter, trace; simpl. intros [= Ho _ _].
  eapply conclude_returns. rewrite (run_eta (conclude p opts m acc r1)).
  unfold outcome. by rewrite Ho.
Qed.



Lemma migrateAll_taken opts ms acc r :
  taken (trace (migrateAll sdk p opts ms acc r)) `prefix_of` ms
  ∧ (∀ acc', outcome (migrateAll sdk p opts ms acc r) = Returns acc' →
             taken (trace (migrateAll sdk p opts ms acc r)) = ms).
Proof.
  revert acc r. induction ms as [|m ms IH]; intros acc r; [done|].
  rewrite migrateAll_cons_run.
  pose proof (migrate_taken opts m acc r) as Hm.
  destruct (migrate sdk p opts m acc r) as [[[acc1|e] r1] t1];
    unfold trace, outcome in *; simpl in *.
  - destruct (IH acc1 r1) as [Hpre Hall].
    rewrite taken_app, Hm. split.
    + by apply prefix_cons.
    + intros acc' Ho. simpl. f_equal. by eapply Hall.
  - rewrite Hm. split; [|done]. apply prefix_cons, prefix_nil.
Qed.

Lemma migrateAll_executed opts ms acc r :
  executed (trace (migrateAll sdk p opts ms acc r)) `sublist_of` ms.
Proof.
  revert acc r. induction ms as [|m ms IH]; intros acc r; [done|].
  rewrite migrateAll_cons_run.
  pose proof (migrate_executed opts m acc r) as Hm.
  destruct (migrate sdk p opts m acc r) as [[[acc1|e] r1] t1];
    unfold trace in *; simpl in *.
  - rewrite executed_app.
    destruct Hm as [-> | ->]; simpl.
    + by apply sublist_cons.
    + by apply sublist_skip.
  - destruct Hm as [-> | ->].
    + apply sublist_nil_l.
    + apply sublist_skip, sublist_nil_l.
Qed.

Lemma migrateAll_returns_ran opts ms acc r acc' r' t :
  migrateAll sdk p opts ms acc r = (Returns acc', r', t) →
  acc'.2 = if dryRun opts then acc.2 else acc.2 ++ ms.
Proof.
  revert acc r t. induction ms as [|m ms IH]; intros acc r t.
  - intros [= <- _ _]. destruct (dryRun opts); by rewrite ?app_nil_r.
  - rewrite migrateAll_cons_run.
    destruct (migrate sdk p opts m acc r) as [[[acc1|e] r1] t1] eqn:Hm; [|done].
    destruct (migrateAll sdk p opts ms acc1 r1) as [[o2 r2] t2] eqn:Hrest.
    unfold outcome, remoteAfter, trace; simpl. intros [= -> -> <-].
    apply migrate_returns_ran in Hm. apply IH in Hrest.
    rewrite Hrest, Hm. destruct (dryRun opts); [done|]. by rewrite <-app_assoc.
Qed.


Lemma writeLog_run r :
  writeLog sdk r = (Returns tt, (webdavPut sdk r).2, [EvLogPut]).
Proof.
  unfold writeLog. rewrite tryCatch_run, call_run.
  by destruct (webdavPut sdk r) as [[[]|e] r1].
Qed.

Lemma runBeforeAll_quiet opts ms r :
  let t := trace (runBeforeAll p opts ms r) in
  taken t = [] ∧ executed t = [] ∧ updates t = [] ∧ reads t = [].
Proof.
  unfold runBeforeAll. destruct (beforeAll (lifeCycleModule p)) as [hook|]; [|done].
  by rewrite call_run.
Qed.

Lemma runAfterAll_quiet opts ms r :
  let t := trace (runAfterAll p opts ms r) in
  taken t = [] ∧ executed t = [] ∧ updates t = [] ∧ reads t = [].
Proof.
  unfold runAfterAll. destruct (dryRun opts); [done|].
  destruct (afterAll (lifeCycleModule p)) as [hook|]; [|done].
  by rewrite call_run.
Qed.

Lemma reconcile_run opts st r :
  let pending :=
    pendingMigrations
      (projectMigrations extname regexMatch localeCompare p opts) (migrations st) in
  reconcile extname regexMatch localeCompare sdk p opts st r =
  match runBeforeAll p opts pending r with
  | (Throws e, r0, t0) => (Throws e, r0, t0)
  | (Returns _, r0, t0) =>
      match migrateAll sdk p opts pending (migrations st, []) r0 with
      | (Throws e, r1, t1) => (Throws e, r1, t0 ++ t1)
      | (Returns acc, r1, t1) =>
          match runAfterAll p opts acc.2 r1 with
          | (Throws e, r2, t2) => (Throws e, r2, t0 ++ t1 ++ t2)
          | (Returns _, r2, t2) =>
              (Returns tt, (webdavPut sdk r2).2, t0 ++ t1 ++ t2 ++ [EvLogPut])
          end
      end
  end.
Proof.
  intros pending. unfold reconcile. fold pending. rewrite bind_run.
  destruct (runBeforeAll p opts pending r) as [[[u|e] r0] t0]; [|done].
  rewrite bind_run.
  destruct (migrateAll sdk p opts pending (migrations st, []) r0)
    as [[[acc|e] r1] t1]; [|done].
  rewrite bind_run.
  destruct (runAfterAll p opts acc.2 r1) as [[[u'|e] r2] t2]; [|done].
  by rewrite writeLog_run.
Qed.


Lemma migrate_throwing_unit opts m acc r d rb tb e r1 t1 :
  dryRun opts = false →
  List.find (λ d, bool_decide (name d = m)) (entries p) = Some d →
  loadError p opts (isDirectory d) m = None →
  runBeforeEach p (apply opts) m r = (Returns true, rb, tb) →
  attempt sdk p (isDirectory d) m rb = (Throws e, r1, t1) →
  migrate sdk p opts m acc r =
  match onFailure (lifeCycleModule p) with
  | None => (Throws e, r1, EvStat m :: tb ++ t1)
  | Some hook =>
      match hook m e r1 with
      | (Throws e', r2) => (Throws e', r2, EvStat m :: tb ++ t1 ++ [EvOnFailure m e])
      | (Returns _, r2) =>
          let x := conclude p opts m acc r2 in
          (outcome x, remoteAfter x,
           EvStat m :: tb ++ (t1 ++ [EvOnFailure m e]) ++ trace x)
      end
  end.
Proof.
  intros Hdry Hfind Hload Hbefore Hatt.
  rewrite migrate_run, Hfind, Hload, Hdry, Hbefore, execute_run, Hatt.
  destruct (onFailure (lifeCycleModule p)) as [hook|]; [|done].
  by destruct (hook m e r1) as [[u|e'] r2].
Qed.

Lemma conclude_updates opts m acc r s :
  apply opts = true →
  readInstanceState r = Returns s →
  ∃ written, updates (trace (conclude p opts m acc r)) = [written] ∧ m ∈ written.
Proof.
  intros Happly Hread. rewrite conclude_run, commit_run, Happly, Hread.
  set (written := match s with Some st => _ | None => _ end).
  exists written. split.
  - simpl. destruct (outcome (updateInstanceMigrations written r)); [|done].
    by destruct (afterEach (lifeCycleModule p)).
  - unfold written. destruct s as [st|].
    + rewrite arrayFromSet_elem_of, !elem_of_app, list_elem_of_singleton. auto.
    + rewrite elem_of_app, list_elem_of_singleton. auto.
Qed.


(** C3, as the code has it. A file unit whose module does not export a
    function, reached in a run that is not a dry run and not vetoed by
    [beforeEach], fails with the invalid-migration error before anything
    of it is executed. Without an [onFailure] hook that error ends the
    run, and when the hook throws its error does; the unit is not
    committed. When the hook returns, the error counts as handled, as for
    any failed execution: the unit is committed and the run goes on. *)
Theorem invalid_unit_fatal_unless_handled opts m rest acc r d rb tb :
  dryRun opts = false →
  List.find (λ d, bool_decide (name d = m)) (entries p) = Some d →
  isDirectory d = false →
  requireScript p m = ExportsOther →
  runBeforeEach p (apply opts) m r = (Returns true, rb, tb) →
  let invalid := notValidMigration (dir p) m in
  let run := migrateAll sdk p opts (m :: rest) acc r in
  match onFailure (lifeCycleModule p) with
  | None =>
      run = (Throws invalid, rb, EvStat m :: tb)
      ∧ updates (trace run) = [] ∧ executed (trace run) = []
  | Some hook =>
      match hook m invalid rb with
      | (Throws e', r2) =>
          run = (Throws e', r2, EvStat m :: tb ++ [EvOnFailure m invalid])
          ∧ updates (trace run) = [] ∧ executed (trace run) = []
      | (Returns _, r2) =>
          let next := (do acc' <- conclude p opts m acc;
                       migrateAll sdk p opts rest acc') r2 in
          run = (outcome next, remoteAfter next,
                 EvStat m :: tb ++ [EvOnFailure m invalid] ++ trace next)
          ∧ (apply opts = true → ∀ s, readInstanceState r2 = Returns s →
             ∃ written ws, updates (trace next) = written :: ws ∧ m ∈ written)
      end
  end.
Proof.
  intros Hdry Hfind Hfile Hscript Hbefore invalid run.
  assert (attempt sdk p (isDirectory d) m rb = (Throws invalid, rb, [])) as Hatt.
  { unfold attempt. by rewrite Hfile, Hscript. }
  assert (loadError p opts (isDirectory d) m = None) as Hload.
  { unfold loadError. by rewrite Hfile, Hscript. }
  pose proof (migrate_throwing_unit opts m acc r d rb tb invalid rb []
                Hdry Hfind Hload Hbefore Hatt) as Hstep.
  pose proof (runBeforeEach_quiet (apply opts) m r) as (_ & Heb & Hub & _).
  rewrite Hbefore in Heb, Hub. unfold trace in Heb, Hub; simpl in Heb, Hub.
  unfold run. rewrite migrateAll_cons_run, Hstep.
  destruct (onFailure (lifeCycleModule p)) as [hook|].
  - destruct (hook m invalid rb) as [[u|e'] r2] eqn:Hhook.
    + split.
      * rewrite bind_run.
        destruct (conclude p opts m acc r2) as [[[acc2|e2] r3] t3];
          unfold outcome, remoteAfter, trace; simpl;
          by rewrite <-?app_assoc.
      * intros Happly s Hread.
        destruct (conclude_updates opts m acc r2 s Happly Hread)
          as (written & Hw & Hin).
        rewrite bind_run.
        destruct (conclude p opts m acc r2) as [[[acc2|e2] r3] t3];
          unfold trace in *; simpl in *.
        -- rewrite updates_app, Hw. eauto.
        -- eauto.
    + unfold trace; simpl. rewrite updates_app, executed_app, Hub, Heb.
      by rewrite app_nil_r.
  - unfold trace; simpl. by rewrite app_nil_r, Hub, Heb.
Qed.

Lemma conclude_shape opts m acc r :
  ∃ post, reads post = [] ∧ updates post = []
    ∧ trace (conclude p opts m acc r)
        = trace (commit (apply opts) m acc.1 r) ++ post
    ∧ (∀ acc', outcome (conclude p opts m acc r) = Returns acc' →
               outcome (commit (apply opts) m acc.1 r) = Returns acc'.1).
Proof.
  rewrite conclude_run.
  destruct (commit (apply opts) m acc.1 r) as [[[l|e] r1] t1].
  - destruct (afterEach (lifeCycleModule p)) as [hook|].
    + exists [EvAfterEach m]. split_and!; [done..|].
      unfold outcome; simpl. intros acc' Hacc.
      destruct (hook m (apply opts) r1).1; by simplify_eq.
    + exists []. split_and!; [done|done|by rewrite app_nil_r|].
      unfold outcome; simpl. intros acc' Hacc. by simplify_eq.
  - exists []. split_and!; [done|done|by rewrite app_nil_r|done].
Qed.

Lemma migrate_shape opts m acc r :
  ∃ pre, reads pre = [] ∧ updates pre = []
    ∧ ((∃ e, outcome (migrate sdk p opts m acc r) = Throws e
             ∧ trace (migrate sdk p opts m acc r) = pre)
       ∨ (migrate sdk p opts m acc r = (Returns acc, r, pre))
       ∨ (∃ r1, migrate sdk p opts m acc r
                = (outcome (conclude p opts m acc r1),
                   remoteAfter (conclude p opts m acc r1),
                   pre ++ trace (conclude p opts m acc r1)))).
Proof.
  rewrite migrate_run.
  destruct (List.find _ _) as [d|]; [|exists [EvStat m]; eauto 10].
  destruct (loadError _ _ _) as [eload|]; [exists [EvStat m]; eauto 10|].
  destruct (dryRun opts); [exists [EvStat m]; eauto 10|].
  pose proof (runBeforeEach_quiet (apply opts) m r) as (_ & _ & Hub & Hrb).
  destruct (runBeforeEach p (apply opts) m r) as [[[b|e] rb] tb];
    unfold trace in Hub, Hrb; simpl in Hub, Hrb;
    [|exists (EvStat m :: tb); eauto 10].
  assert (updates (trace ((if b then execute sdk p (isDirectory d) m else ret tt) rb)) = []
          ∧ reads (trace ((if b then execute sdk p (isDirectory d) m else ret tt) rb)) = [])
    as [Hux Hrx].
  { destruct b; [|done]. by destruct (execute_quiet (isDirectory d) m rb) as (_ & ? & ? & _). }
  destruct ((if b then execute sdk p (isDirectory d) m else ret tt) rb)
    as [[[u|e] r1] t1]; unfold trace in Hux, Hrx; simpl in Hux, Hrx.
  - exists (EvStat m :: tb ++ t1). split_and!.
    + simpl. by rewrite reads_app, Hrb, Hrx.
    + simpl. by rewrite updates_app, Hub, Hux.
    + right; right. exists r1. simpl. by rewrite <-app_assoc.
  - exists (EvStat m :: tb ++ t1). split_and!.
    + simpl. by rewrite reads_app, Hrb, Hrx.
    + simpl. by rewrite updates_app, Hub, Hux.
    + left. by exists e.
Qed.





Context (clientId : string).

Lemma runShouldBootstrap_trace required s r :
  trace (runShouldBootstrap p required s r) = [] ∨
  trace (runShouldBootstrap p required s r) = [EvShouldBootstrap].
Proof.
  unfold runShouldBootstrap.
  destruct (shouldBootstrap (lifeCycleModule p)) as [hook|]; [|by left].
  destruct s as [st|]; [|by left].
  destruct required; [by left|right].
  rewrite tryCatch_run, bind_run, call_run.
  by destruct (hook st r) as [[b|e] r1].
Qed.



Lemma collectProject_bind {B} opts (k : M B) r :
  bind (collectProject extname regexMatch localeCompare p opts) (λ _, k) r =
  match collectMigrations extname regexMatch localeCompare (entries p) (exclude opts) with
  | Returns _ => k r
  | Throws e => (Throws e, r, [])
  end.
Proof.
  unfold bind, collectProject.
  destruct (collectMigrations _ _ _ _ _) as [catalog|e]; [|done].
  by destruct (k r) as [[o r1] t1].
Qed.




Lemma migrateInstance_run opts r :
  migrateInstance extname regexMatch localeCompare sdk p clientId opts r =
  match readState extname regexMatch localeCompare sdk p clientId opts r with
  | (Returns st, r1, t1) =>
      let x := reconcile extname regexMatch localeCompare sdk p opts st r1 in
      (outcome x, remoteAfter x, t1 ++ trace x)
  | (Throws e, r1, t1) => (Throws e, r1, t1)
  end.
Proof. unfold migrateInstance. by rewrite bind_run. Qed.


Lemma runInit_trace r :
  trace (runInit p r) = [] ∨ trace (runInit p r) = [EvInit].
Proof.
  unfold runInit. destruct (init (lifeCycleModule p)) as [hook|].
  - right. by rewrite call_run.
  - by left.
Qed.

(** C5, as the code has it. In a run that comes to read the state (the
    [init] hook and the collector returned): when bootstrap is not forced
    and not required (the client is registered at the expected version or
    above, and no [shouldBootstrap] hook asks for it), a data version on
    the instance above the expected one makes the run fail with the
    version error right after the state check: no bootstrap, no unit
    taken up or executed, nothing written. *)
Theorem version_skew_fails_fast opts r r1 t0 catalog st v r2 t1 :
  runInit p r = (Returns tt, r1, t0) →
  collectMigrations extname regexMatch localeCompare (entries p) (exclude opts)
    = Returns catalog →
  readInstanceState r1 = Returns (Some st) →
  version st = Some v →
  v > B2C_TOOLKIT_DATA_VERSION →
  forceBootstrap opts = false →
  isMigrationBootstrapRequired clientId (Some st) = false →
  runShouldBootstrap p false (Some st) r1 = (Returns false, r2, t1) →
  let run := migrateInstance extname regexMatch localeCompare
               sdk p clientId opts r in
  run = (Throws versionGreater, r2, t0 ++ EvGetInstanceState (Some st) :: t1)
  ∧ bootstraps (trace run) = []
  ∧ taken (trace run) = []
  ∧ executed (trace run) = []
  ∧ updates (trace run) = [].
Proof.
  intros Hinit Hcatalog Hread Hversion Hv Hforce Hrequired Hshould run.
  assert (run = (Throws versionGreater, r2, t0 ++ EvGetInstanceState (Some st) :: t1))
    as ->.
  { unfold run. rewrite migrateInstance_run. unfold readState.
    rewrite bind_run, Hinit. cbn iota.
    rewrite collectProject_bind, Hcatalog.
    unfold stateCheck.
    rewrite !bind_run, getInstanceState_run, Hread. cbn beta iota zeta.
    rewrite !bind_run, Hrequired, Hshould. cbn beta iota zeta.
    rewrite Hforce, Hversion. simpl.
    rewrite bool_decide_eq_false_2 by (unfold B2C_TOOLKIT_DATA_VERSION in Hv; lia).
    simpl. rewrite bool_decide_eq_true_2 by done.
    unfold throw, outcome, remoteAfter, trace. simpl. by rewrite app_nil_r. }
  split; [done|]. rewrite trace_triple.
  pose proof (runInit_trace r) as Hti. rewrite Hinit, trace_triple in Hti.
  pose proof (runShouldBootstrap_trace false (Some st) r1) as Hts.
  rewrite Hshould, trace_triple in Hts.
  by destruct Hti as [-> | ->], Hts as [-> | ->].
Qed.

(** C1. A commit with [apply] reads the state again and hands to
    [updateInstanceMigrations] the union, without duplicates, of the
    applied list just read and the in-memory list (which holds the unit
    being committed); that list is what the record holds after a write
    that succeeds. When the read finds no state the in-memory list is
    written as it is, and when the read fails nothing is written. With
    A, B applied, and C added by another writer before the engine
    commits D, the list written is A, B, C, D. *)
Theorem commit_writes_union migration instanceMigrations r :
  let inMemory := instanceMigrations ++ [migration] in
  let run := commit true migration instanceMigrations r in
  match readInstanceState r with
  | Returns (Some st) =>
      let written := Js.arrayFromSet (migrations st ++ inMemory) in
      trace run = [EvGetInstanceState (Some st); EvUpdateInstanceMigrations written]
      ∧ NoDup written
      ∧ (∀ x, x ∈ written ↔ x ∈ migrations st ∨ x ∈ inMemory)
      ∧ (patchError r = None →
         outcome run = Returns written
         ∧ c_b2cToolkitMigrations (preferences (remoteAfter run))
             = Some (Js.join "," written))
  | Returns None =>
      trace run = [EvGetInstanceState None; EvUpdateInstanceMigrations inMemory]
  | Throws e => run = (Throws e, r, [])
  end
  ∧ (let x := Sample.runWith (Sample.racingSdk ["A"; "B"; "C"])
                (Sample.project [Sample.directory "A"; Sample.directory "B";
                                 Sample.directory "D"]
                   (λ _, ExportsOther) noLifecycle)
                defaultOptions (Sample.instanceAt 7 (Some "A,B")) in
     outcome x = Returns tt
     ∧ executed (trace x) = ["D"]
     ∧ updates (trace x) = [["A"; "B"; "C"; "D"]]
     ∧ appliedUnits (remoteAfter x) = ["A"; "B"; "C"; "D"]).
Proof.
  intros inMemory run. split; [|by vm_compute].
  unfold run. rewrite commit_run.
  destruct (readInstanceState r) as [[st|]|e]; [|done..].
  fold inMemory. simpl. split_and!.
  - done.
  - apply arrayFromSet_NoDup.
  - intros x. rewrite arrayFromSet_elem_of, elem_of_app. tauto.
  - intros Hpatch. by rewrite updateInstanceMigrations_ok.
Qed.
End EngineFacts.

(** ** The theorems at sample runs *)

(** A file that exports no function: with an [onFailure] hook that returns
    it is committed and the run returns; in a dry run, and under a
    [beforeEach] that returns [false], the run returns without any error,
    and in the second case the file is committed. *)
Lemma invalid_unit_committed_when_handled :
  let bad hooks := Sample.project [Sample.file "0001-bad.js"] (λ _, ExportsOther) hooks in
  let x := Sample.run (bad Sample.handlesFailure) defaultOptions (Sample.instanceAt 7 None) in
  let y := Sample.run (bad noLifecycle) Sample.dry (Sample.instanceAt 7 None) in
  let z := Sample.run (bad Sample.vetoes) defaultOptions (Sample.instanceAt 7 None) in
  (outcome x = Returns tt
   ∧ executed (trace x) = []
   ∧ updates (trace x) = [["0001-bad.js"]]
   ∧ appliedUnits (remoteAfter x) = ["0001-bad.js"])
  ∧ (outcome y = Returns tt ∧ updates (trace y) = [])
  ∧ (outcome z = Returns tt ∧ appliedUnits (remoteAfter z) = ["0001-bad.js"]).
Proof. by vm_compute. Qed.

Lemma invalid_unit_fatal_unless_handled_witness :
  let p := Sample.project [Sample.file "0001-bad.js"; Sample.directory "0002-b"]
             (λ _, ExportsOther) noLifecycle in
  let r := Sample.instanceAt 7 None in
  let run := migrateAll Sample.sdk p defaultOptions ["0001-bad.js"; "0002-b"] ([], []) r in
  run = (Throws (notValidMigration "migrations" "0001-bad.js"), r, [EvStat "0001-bad.js"])
  ∧ updates (trace run) = [] ∧ executed (trace run) = [].
Proof.
  exact (invalid_unit_fatal_unless_handled Sample.sdk
           (Sample.project [Sample.file "0001-bad.js"; Sample.directory "0002-b"]
              (λ _, ExportsOther) noLifecycle)
           defaultOptions "0001-bad.js" ["0002-b"] ([], []) (Sample.instanceAt 7 None)
           (Sample.file "0001-bad.js") (Sample.instanceAt 7 None) []
           eq_refl eq_refl eq_refl eq_refl eq_refl).
Defined.



(** An instance at data version 8. With [forceBootstrap], for a client
    that is not registered, and when [shouldBootstrap] asks for it, the
    run bootstraps, sets the version to 7 and returns; for a client that
    is not registered and with [allowBootstrap] off, it fails with the
    error of the forbidden bootstrap. *)
Lemma version_skew_bootstraps_when_forced_or_required :
  let p := Sample.project [] (λ _, ExportsOther) noLifecycle in
  let x := Sample.run p Sample.forced (Sample.instanceAt 8 None) in
  let y := Sample.run p defaultOptions (Sample.unregisteredAt 8 None) in
  let z := Sample.run (Sample.project [] (λ _, ExportsOther) Sample.asksBootstrap)
             defaultOptions (Sample.instanceAt 8 None) in
  let w := Sample.run p Sample.disallowed (Sample.unregisteredAt 8 None) in
  (outcome x = Returns tt
   ∧ bootstraps (trace x) = ["cid"]
   ∧ c_b2cToolkitDataVersion (preferences (remoteAfter x)) = Some 7)
  ∧ (outcome y = Returns tt
     ∧ bootstraps (trace y) = ["cid"]
     ∧ c_b2cToolkitDataVersion (preferences (remoteAfter y)) = Some 7)
  ∧ (outcome z = Returns tt
     ∧ bootstraps (trace z) = ["cid"]
     ∧ c_b2cToolkitDataVersion (preferences (remoteAfter z)) = Some 7)
  ∧ outcome w = Throws bootstrapNotAllowed.
Proof. by vm_compute. Qed.

Lemma version_skew_fails_fast_witness :
  let p := Sample.project [] (λ _, ExportsOther) noLifecycle in
  let r := Sample.instanceAt 8 None in
  let st := {| version := Some 8; migrations := [];
               clients := {[ "cid" := Some 8 ]}; vars := ∅ |} in
  let run := Sample.run p defaultOptions r in
  run = (Throws versionGreater, r, [] ++ EvGetInstanceState (Some st) :: [])
  ∧ bootstraps (trace run) = []
  ∧ taken (trace run) = []
  ∧ executed (trace run) = []
  ∧ updates (trace run) = [].
Proof.
  intros p r st run.
  refine (version_skew_fails_fast
            Runtime.extname Runtime.literalMatch Runtime.localeCompare
            Sample.sdk p "cid" defaultOptions r r [] [] st 8 r []
            eq_refl eq_refl eq_refl eq_refl _ eq_refl eq_refl eq_refl).
  done.
Defined.

(** ** Feature state *)


Lemma spread_lookup (a b : JsObject) k :
  spread a b !! k = match b !! k with Some v => Some v | None => a !! k end.
Proof.
  unfold spread. rewrite lookup_union.
  by destruct (b !! k), (a !! k).
Qed.

(** C9. The merged variables of [deployFeature] take each key from the
    caller's variables when they have it, else from the variables stored
    for the feature on the instance, else from the defaults of the
    definition. For defaults x:1, stored x:2, y:3 and caller y:4 the
    result is x:2, y:4. *)
Theorem mergeVars_precedence feature instanceFeatureState (vars : JsObject) k :
  let stored : JsObject :=
    match instanceFeatureState with
    | Some f => Features.vars f
    | None => ∅
    end in
  Features.mergeVars feature instanceFeatureState vars !! k
    = match vars !! k with
      | Some v => Some v
      | None =>
          match stored !! k with
          | Some v => Some v
          | None => default ∅ (Features.defaultVars feature) !! k
          end
      end
  ∧ (let definition :=
       {| Features.definitionName := "f";
          Features.defaultVars := Some {[ "x" := JNum 1 ]};
          Features.secretVars := None |} in
     let state :=
       {| Features.b2cToolsFeaturesVersion := Some 3;
          Features.b2cToolsFeaturesBootstrappedClientIDs := ∅;
          Features.features :=
            [{| Features.featureName := "f"; Features.lastModified := "";
                Features.creationDate := "";
                Features.vars := {[ "x" := JNum 2; "y" := JNum 3 ]} |}] |} in
     Features.featureVars definition state "f" {[ "y" := JNum 4 ]}
       = {[ "x" := JNum 2; "y" := JNum 4 ]}).
Proof.
  intros stored. split.
  - unfold Features.mergeVars. rewrite !spread_lookup. fold stored.
    rewrite lookup_empty.
    by destruct (vars !! k), (stored !! k),
         (default ∅ (Features.defaultVars feature) !! k).
  - vm_compute. reflexivity.
Qed.












Lemma updateFeatureState_stored featureName vars secretVars saveSecrets now r :
  let records := Features.targetRecords vars secretVars saveSecrets in
  ∃ obj,
    customObjects (Features.updateFeatureState featureName vars secretVars
                     saveSecrets now r) !! featureName = Some obj
    ∧ c_vars obj = Some (jsonObject records.1)
    ∧ c_secretVars obj = Some (jsonObject records.2).
Proof.
  intros records. unfold Features.updateFeatureState. fold records.
  destruct records as [targetVars targetSecretVars].
  destruct (customObjects r !! featureName) as [obj|];
    eexists; (split; [apply lookup_insert_eq|done]).
Qed.








(** ** Sample evaluations *)

(** The bare name [.js] has no extension for [path.extname], so a file of
    that name is not collected; a sub-directory named [setup.js] is left
    out like the file. *)
Example collect_sample :
  Runtime.extname ".js" = ""
  ∧ Runtime.extname "0001-a.js" = ".js"
  ∧ collectMigrations Runtime.extname Runtime.literalMatch Runtime.localeCompare
      [Sample.directory "2-foo"; Sample.directory "setup.js";
       Sample.directory "10-foo"; Sample.file "b.js"; Sample.file ".js";
       Sample.file "readme.md"; Sample.file "skip-me.js"] ["skip"]
    = Returns ["10-foo"; "2-foo"; "b.js"].
Proof. by vm_compute. Qed.

(** The collector asks for the comparison without [numeric]: with it, the
    runtime of the examples puts ["2-foo"] before ["10-foo"]. *)
Example numeric_sample :
  Runtime.localeCompare "10-foo" "2-foo" "en" false < 0
  ∧ Runtime.localeCompare "10-foo" "2-foo" "en" true > 0.
Proof. by vm_compute. Qed.

(** The patterns are looked at in order and only for directories and
    script files: a pattern that is no regular expression goes unnoticed
    when every such entry is matched by a pattern before it, or when there
    is no such entry. *)
Example unreached_pattern_sample :
  let collect :=
    collectMigrations Runtime.extname Runtime.literalMatch Runtime.localeCompare in
  collect [Sample.directory "tmp-a"; Sample.file "notes.txt"] ["tmp"; "("] = Returns []
  ∧ collect [Sample.file "notes.txt"] ["("] = Returns []
  ∧ collect [Sample.directory "tmp-a"] ["("; "tmp"]
    = Throws (Runtime.unterminatedGroup "(").
Proof. by vm_compute. Qed.

(** An exclusion pattern that is no regular expression ends the run
    before the state is read: on an instance at data version 8 the run
    throws the error of the pattern and not the version error. *)
Example invalid_pattern_run_sample :
  let r := Sample.instanceAt 8 None in
  Sample.run (Fixture.twoUnits noLifecycle) (Fixture.excluding ["("]) r
  = (Throws (Runtime.unterminatedGroup "("), r, []).
Proof. by vm_compute. Qed.

(** A run whose second unit fails without [onFailure] hook: the first unit
    stays committed and the third is not taken up. *)
Example halted_run_sample :
  let x := Sample.runWith (Sample.failingSdk "0002-b")
             (Sample.project
                [Sample.directory "0001-a"; Sample.directory "0002-b";
                 Sample.directory "0003-c"]
                (λ _, ExportsOther) noLifecycle)
             defaultOptions (Sample.instanceAt 7 None) in
  outcome x = Throws (jsError "import failed")
  ∧ taken (trace x) = ["0001-a"; "0002-b"]
  ∧ updates (trace x) = [["0001-a"]]
  ∧ appliedUnits (remoteAfter x) = ["0001-a"].
Proof. by vm_compute. Qed.

(** A dry run takes up every pending unit and executes and writes nothing. *)
Example dry_run_sample :
  let x := Sample.run
             (Sample.project [Sample.directory "0001-a"; Sample.file "0002-b.js"]
                (λ _, ExportsOther) noLifecycle)
             Sample.dry (Sample.instanceAt 7 None) in
  outcome x = Returns tt
  ∧ taken (trace x) = ["0001-a"; "0002-b.js"]
  ∧ executed (trace x) = []
  ∧ updates (trace x) = [].
Proof. by vm_compute. Qed.

(** The secret name [__proto__]. When the variables have no property of
    that name, both assignments go to the setter of the prototype and
    store nothing. When they have one (as the object of a JSON text can),
    holding a string, the plain record gets the marker and the setter of
    the secret record ignores the string: the value is stored nowhere. *)
Example proto_secret_name_sample :
  let records vars := Features.targetRecords vars (Some ["__proto__"]) true in
  (jsonObject (records {[ "region" := JStr "eu" ]}).1 = {[ "region" := JStr "eu" ]}
   ∧ jsonObject (records {[ "region" := JStr "eu" ]}).2 = ∅)
  ∧ (jsonObject (records {[ "__proto__" := JStr "abc" ]}).1
     = {[ "__proto__" := JStr "*****" ]}
     ∧ jsonObject (records {[ "__proto__" := JStr "abc" ]}).2 = ∅).
Proof. split; split; vm_compute; reflexivity. Qed.

(** * Further properties *)

(** ** Splitting and joining *)

Lemma split_nonempty c s : Js.split c s ≠ [].
Proof. destruct s as [|a s]; simpl; [done|]. case_decide; [done|]. by destruct (Js.split c s). Qed.

Lemma split_free c s :
  c ∉ String.list_ascii_of_string s → Js.split c s = [s].
Proof.
  induction s as [|a s IH]; simpl; [done|].
  intros Hc. apply not_elem_of_cons in Hc as [Hne Hs].
  case_decide; [congruence|]. by rewrite IH.
Qed.

Lemma split_app c s rest :
  c ∉ String.list_ascii_of_string s →
  Js.split c (s +:+ String c rest) = s :: Js.split c rest.
Proof.
  induction s as [|a s IH]; simpl.
  - intros _. by rewrite decide_True.
  - intros Hc. apply not_elem_of_cons in Hc as [Hne Hs].
    case_decide; [congruence|]. by rewrite IH.
Qed.

Lemma split_pieces_free c s :
  Forall (λ piece, c ∉ String.list_ascii_of_string piece) (Js.split c s).
Proof.
  induction s as [|a s IH]; simpl.
  - repeat constructor. simpl. apply not_elem_of_nil.
  - case_decide.
    + constructor; [simpl; apply not_elem_of_nil | done].
    + destruct (Js.split c s) as [|piece pieces].
      * repeat constructor. simpl. rewrite elem_of_cons. intros [?|Hin]; [congruence|].
        by apply not_elem_of_nil in Hin.
      * apply Forall_cons in IH as [Hp Hps]. constructor; [|done].
        simpl. rewrite elem_of_cons. intros [?|?]; [congruence|done].
Qed.

Lemma join_split c s : Js.join (String c "") (Js.split c s) = s.
Proof.
  induction s as [|a s IH]; simpl; [done|].
  case_decide as Hc.
  - subst a. pose proof (split_nonempty c s) as Hne.
    destruct (Js.split c s) as [|piece pieces] eqn:Hs; [done|].
    change (String c (Js.join (String c "") (piece :: pieces)) = String c s).
    by rewrite IH.
  - pose proof (split_nonempty c s) as Hne.
    destruct (Js.split c s) as [|piece pieces] eqn:Hs; [done|].
    destruct pieces as [|p2 pieces]; simpl in *; by rewrite <-IH.
Qed.

(** ** Paths inside an archive *)

Lemma cleanPath_rooted root rest :
  Runtime.slash ∉ String.list_ascii_of_string root →
  Archive.cleanPath (root +:+ "/" +:+ rest) = rest.
Proof.
  intros Hroot. unfold Archive.cleanPath.
  change (root +:+ "/" +:+ rest) with (root +:+ String Runtime.slash rest).
  rewrite split_app by done. cbn [length drop].
  pose proof (split_nonempty Runtime.slash rest) as Hne.
  destruct (decide _) as [_|Hn].
  - apply (join_split Runtime.slash).
  - destruct (Js.split Runtime.slash rest); [done|simpl in Hn; lia].
Qed.

Lemma cleanPath_flat s :
  Runtime.slash ∉ String.list_ascii_of_string s → Archive.cleanPath s = s.
Proof.
  intros Hs. unfold Archive.cleanPath. rewrite split_free by done.
  destruct (decide _) as [Hn|_]; [simpl in Hn; lia|done].
Qed.

Lemma fold_left_insert_list_to_map {A} (l : list (string * A)) :
  fold_left (λ acc kv, <[kv.1 := kv.2]> acc) l (∅ : gmap string A)
  = list_to_map (reverse l).
Proof.
  rewrite <-fold_left_rev_right. unfold reverse. rewrite <-rev_alt. reflexivity.
Qed.

Lemma extract_rooted root files (acc : gmap string string) :
  Runtime.slash ∉ String.list_ascii_of_string root →
  fold_left
    (λ result zipEntry,
       if Archive.dir zipEntry then result
       else <[Archive.cleanPath (Archive.relativePath zipEntry)
              := Archive.content zipEntry]> result)
    (Archive.fileEntries root files) acc
  = fold_left (λ acc kv, <[kv.1 := kv.2]> acc) files acc.
Proof.
  intros Hroot. revert acc.
  induction files as [|[k v] files IH]; intros acc; [done|].
  unfold Archive.fileEntries.
  cbn [fmap list_fmap fold_left Archive.dir Archive.relativePath Archive.content fst snd].
  rewrite cleanPath_rooted by done. apply IH.
Qed.

(** Folder entries do not count. *)
Lemma extract_files_only archive (acc : gmap string string) :
  fold_left
    (λ result zipEntry,
       if Archive.dir zipEntry then result
       else <[Archive.cleanPath (Archive.relativePath zipEntry)
              := Archive.content zipEntry]> result)
    archive acc
  = fold_left
      (λ result zipEntry,
         if Archive.dir zipEntry then result
         else <[Archive.cleanPath (Archive.relativePath zipEntry)
                := Archive.content zipEntry]> result)
      (filter (λ e, Archive.dir e = false) archive) acc.
Proof.
  revert acc. induction archive as [|e archive IH]; intros acc; [done|].
  rewrite filter_cons. destruct (decide (Archive.dir e = false)) as [Hd|Hd].
  - cbn [fold_left]. apply IH.
  - cbn [fold_left]. destruct (Archive.dir e); [apply IH|done].
Qed.

(** X1. An archive laid out under one root folder reads back as its files.
    [extractArchiveToTextMap] skips the folder entries and drops the first
    segment of every other path. So for an archive whose files all lie
    under one root folder with a name without a slash, the map it returns
    holds each file under the name it has below the root, nested names
    included; of two files of the same name the later one stays. A path
    without any slash is kept as it is. *)
Theorem extract_strips_root root files archive :
  Runtime.slash ∉ String.list_ascii_of_string root →
  filter (λ e, Archive.dir e = false) archive = Archive.fileEntries root files →
  Archive.extractArchiveToTextMap archive = list_to_map (reverse files)
  ∧ (NoDup files.*1 →
     ∀ name text, (name, text) ∈ files →
       Archive.extractArchiveToTextMap archive !! name = Some text)
  ∧ (∀ flat text,
       Runtime.slash ∉ String.list_ascii_of_string flat →
       Archive.extractArchiveToTextMap
         [{| Archive.relativePath := flat; Archive.dir := false;
             Archive.content := text |}] !! flat = Some text).
Proof.
  intros Hroot Hfiles.
  assert (Archive.extractArchiveToTextMap archive = list_to_map (reverse files)) as Heq.
  { unfold Archive.extractArchiveToTextMap.
    rewrite extract_files_only, Hfiles, (extract_rooted root files ∅ Hroot).
    apply fold_left_insert_list_to_map. }
  split; [exact Heq|]. split.
  - intros Hnd name text Hin. rewrite Heq.
    apply elem_of_list_to_map_1.
    + rewrite fmap_reverse. by rewrite reverse_Permutation.
    + by apply elem_of_reverse.
  - intros flat text Hflat. unfold Archive.extractArchiveToTextMap.
    cbn [fold_left Archive.dir Archive.relativePath Archive.content].
    rewrite cleanPath_flat by done. apply lookup_insert_eq.
Qed.

Lemma extract_strips_root_witness :
  let files := [("preferences.xml", "<preferences/>");
                ("meta/system-objecttype-extensions.xml", "<metadata/>")] in
  Archive.extractArchiveToTextMap
    (Archive.folder "b2c-tools-bootstrap"
     :: Archive.folder "b2c-tools-bootstrap/meta"
     :: Archive.fileEntries "b2c-tools-bootstrap" files)
  = {[ "preferences.xml" := "<preferences/>";
       "meta/system-objecttype-extensions.xml" := "<metadata/>" ]}.
Proof.
  intros files.
  refine (eq_trans
            (proj1 (extract_strips_root "b2c-tools-bootstrap" files
                      (Archive.folder "b2c-tools-bootstrap"
                       :: Archive.folder "b2c-tools-bootstrap/meta"
                       :: Archive.fileEntries "b2c-tools-bootstrap" files)
                      _ eq_refl)) _).
  - apply (bool_decide_unpack _). vm_compute. exact I.
  - vm_compute. reflexivity.
Defined.

(** ** Variables of the command line *)

Lemma indexOf_None c s :
  JsString.indexOf c s = None ↔ c ∉ String.list_ascii_of_string s.
Proof.
  induction s as [|a s IH]; simpl.
  - split; [intros _; apply not_elem_of_nil|done].
  - rewrite not_elem_of_cons. destruct (decide (a = c)) as [->|Hne].
    + split; [done|]. by intros [? _].
    + rewrite fmap_None, IH. split; [by intros ?; split; [congruence|]|by intros [_ ?]].
Qed.

Lemma indexOf_pair c key value :
  c ∉ String.list_ascii_of_string key →
  JsString.indexOf c (key +:+ String c value) = Some (String.length key).
Proof.
  induction key as [|a key IH]; simpl.
  - intros _. by rewrite decide_True.
  - intros Hc. apply not_elem_of_cons in Hc as [Hne Hkey].
    rewrite decide_False by congruence. by rewrite IH.
Qed.

Lemma sliceTo_pair key rest :
  JsString.sliceTo (String.length key) (key +:+ rest) = key.
Proof.
  induction key as [|a key IH]; simpl; [by destruct rest|by rewrite IH].
Qed.

Lemma sliceFrom_pair c key value :
  JsString.sliceFrom (S (String.length key)) (key +:+ String c value) = value.
Proof. induction key as [|a key IH]; simpl; [done|apply IH]. Qed.

Lemma assign_pair key value result :
  JsString.equals ∉ String.list_ascii_of_string key →
  Cli.assign (Returns result) (Cli.pair key value)
  = Returns (setProp result key (JStr value)).
Proof.
  intros Hkey. unfold Cli.assign, Cli.pair.
  rewrite indexOf_pair by done.
  by rewrite sliceTo_pair, sliceFrom_pair.
Qed.

Lemma setProp_lookup_ne (o : JsObject) key k v :
  key ≠ k → setProp o key v !! k = o !! k.
Proof. intros Hne. unfold setProp. case_decide; [done|]. by apply lookup_insert_ne. Qed.

Lemma setProp_lookup_eq (o : JsObject) key v :
  setProp o key v !! key
  = if decide (key = "__proto__" ∧ o !! key = None) then None else Some v.
Proof.
  unfold setProp. case_decide as Hproto; [by destruct Hproto|apply lookup_insert_eq].
Qed.

Lemma fold_assign_Throws vs e :
  fold_left Cli.assign vs (Throws e) = Throws e.
Proof. induction vs as [|v vs IH]; [done|apply IH]. Qed.

Lemma fold_assign_other key vs base result :
  Forall (λ v, Cli.keyOf v ≠ Some key) vs →
  fold_left Cli.assign vs (Returns base) = Returns result →
  result !! key = base !! key.
Proof.
  revert base. induction vs as [|v vs IH]; intros base Hall; simpl.
  - by intros [= ->].
  - apply Forall_cons in Hall as [Hv Hvs]. unfold Cli.keyOf in Hv.
    destruct (JsString.indexOf JsString.equals v) as [idx|] eqn:Hidx.
    + intros Hfold. rewrite (IH _ Hvs Hfold).
      apply setProp_lookup_ne. intros Heq. apply Hv. simpl. by rewrite Heq.
    + by rewrite fold_assign_Throws.
Qed.

(** No pair makes a property [__proto__]. *)
Lemma fold_assign_proto vs base result :
  base !! "__proto__" = None →
  fold_left Cli.assign vs (Returns base) = Returns result →
  result !! "__proto__" = None.
Proof.
  revert base. induction vs as [|v vs IH]; intros base Hbase; simpl.
  - by intros [= <-].
  - destruct (JsString.indexOf JsString.equals v) as [idx|] eqn:Hidx.
    + apply IH.
      destruct (decide (JsString.sliceTo idx v = "__proto__")) as [Heq|Hne].
      * by rewrite Heq, setProp_lookup_eq, decide_True.
      * by rewrite setProp_lookup_ne.
    + by rewrite fold_assign_Throws.
Qed.

Lemma fold_assign_returns vs base :
  Forall (λ v, JsString.equals ∈ String.list_ascii_of_string v) vs →
  ∃ result, fold_left Cli.assign vs (Returns base) = Returns result.
Proof.
  revert base. induction vs as [|v vs IH]; intros base Hall; simpl; [by eexists|].
  apply Forall_cons in Hall as [Hv Hvs].
  destruct (JsString.indexOf JsString.equals v) as [idx|] eqn:Hidx.
  - by apply IH.
  - by apply indexOf_None in Hidx.
Qed.

Lemma fold_assign_first_bad before v after base :
  Forall (λ v, JsString.equals ∈ String.list_ascii_of_string v) before →
  JsString.equals ∉ String.list_ascii_of_string v →
  fold_left Cli.assign (before ++ v :: after) (Returns base)
  = Throws (Cli.invalidVar v).
Proof.
  intros Hbefore Hv. rewrite fold_left_app.
  destruct (fold_assign_returns before base Hbefore) as [result ->].
  simpl. apply indexOf_None in Hv as ->. apply fold_assign_Throws.
Qed.

Lemma fold_assign_throws vs base e :
  fold_left Cli.assign vs (Returns base) = Throws e →
  ∃ before v after,
    vs = (before ++ v :: after)
    ∧ Forall (λ v, JsString.equals ∈ String.list_ascii_of_string v) before
    ∧ (JsString.equals ∉ String.list_ascii_of_string v)
    ∧ e = Cli.invalidVar v.
Proof.
  revert base. induction vs as [|v vs IH]; intros base; simpl; [done|].
  destruct (JsString.indexOf JsString.equals v) as [idx|] eqn:Hidx.
  - intros Hfold. destruct (IH _ Hfold) as (before & w & after & -> & Hb & Hw & ->).
    exists (v :: before), w, after. split_and!; try done.
    constructor; [|done].
    destruct (decide (JsString.equals ∈ String.list_ascii_of_string v)) as [|Hn]; [done|].
    apply indexOf_None in Hn. congruence.
  - rewrite fold_assign_Throws. intros [= <-].
    exists [], v, vs. split_and!; try done. by apply indexOf_None.
Qed.

Lemma mergePairs_throws flags base e :
  Cli.mergePairs flags base = Throws e
  ↔ ∃ before v after,
      Cli.vars flags = Some (before ++ v :: after)
      ∧ Forall (λ v, JsString.equals ∈ String.list_ascii_of_string v) before
      ∧ (JsString.equals ∉ String.list_ascii_of_string v)
      ∧ e = Cli.invalidVar v.
Proof.
  unfold Cli.mergePairs. split.
  - destruct (Cli.vars flags) as [vs|]; [|done].
    intros Hrun. destruct (fold_assign_throws _ _ _ Hrun)
      as (before & v & after & -> & Hb & Hv & ->).
    by exists before, v, after.
  - intros (before & v & after & -> & Hb & Hv & ->).
    by apply fold_assign_first_bad.
Qed.

Section ParseVarsFacts.
Context (readFile : string → Outcome string).
Context (jsonParse : string → Outcome JsObject).

(** The objects the two JSON flags stand for in a call whose first two
    steps return: what the texts parse to, and [{}] for a flag that is
    not given. *)
Lemma parseVars_sources flags fromFile base :
  Cli.loadFile readFile jsonParse flags ∅ = Returns fromFile →
  Cli.mergeInline jsonParse flags fromFile = Returns base →
  ∃ fromJson : JsObject,
    match Cli.given (Cli.vars_file flags) with
    | Some file => ∃ content, readFile file = Returns content
                              ∧ jsonParse content = Returns fromFile
    | None => fromFile = ∅
    end
    ∧ match Cli.given (Cli.vars_json flags) with
      | Some text => jsonParse text = Returns fromJson
      | None => fromJson = ∅
      end
    ∧ ∀ key, base !! key = match fromJson !! key with
                           | Some v => Some v
                           | None => fromFile !! key
                           end.
Proof.
  unfold Cli.loadFile, Cli.mergeInline, Cli.mergeJson.
  intros Hfile Hjson.
  assert (match Cli.given (Cli.vars_file flags) with
          | Some file => ∃ content, readFile file = Returns content
                                    ∧ jsonParse content = Returns fromFile
          | None => fromFile = ∅
          end) as Hfrom.
  { destruct (Cli.given (Cli.vars_file flags)) as [file|]; [|by injection Hfile].
    destruct (readFile file) as [content|]; [|done].
    destruct (jsonParse content) as [parsed|] eqn:Hparsed; [|done].
    injection Hfile as <-. exists content. split; [done|].
    by rewrite Hparsed; unfold spread; rewrite map_union_empty. }
  destruct (Cli.given (Cli.vars_json flags)) as [text|].
  - destruct (jsonParse text) as [parsed|] eqn:Hparsed; [|done].
    injection Hjson as <-. exists parsed. split_and!; [done..|].
    intros key. apply spread_lookup.
  - injection Hjson as <-. exists ∅. split_and!; [done..|].
    intros key. by rewrite lookup_empty.
Qed.

(** X2. Precedence of the variable sources. In the object [parseVars]
    returns, a key other than [__proto__] that a [key=value] pair sets
    has the value of the last such pair, as a string and whatever the two
    JSON flags say, and the value is all that follows the first [=],
    further [=] included; a key no pair sets has the value of the text of
    [--vars-json] if that has the key, and the value of the text of the
    file of [--vars-file] otherwise. A pair does not make a property
    [__proto__]: the result has one only if a JSON text has. *)
Theorem parseVars_precedence flags result :
  Cli.parseVars readFile jsonParse flags = Returns result →
  ∃ fromFile fromJson : JsObject,
    match Cli.given (Cli.vars_file flags) with
    | Some file => ∃ content, readFile file = Returns content
                              ∧ jsonParse content = Returns fromFile
    | None => fromFile = ∅
    end
    ∧ match Cli.given (Cli.vars_json flags) with
      | Some text => jsonParse text = Returns fromJson
      | None => fromJson = ∅
      end
    ∧ (∀ before key value after,
         Cli.vars flags = Some (before ++ Cli.pair key value :: after) →
         JsString.equals ∉ String.list_ascii_of_string key →
         Forall (λ v, Cli.keyOf v ≠ Some key) after →
         key ≠ "__proto__" →
         result !! key = Some (JStr value))
    ∧ (∀ key,
         Forall (λ v, Cli.keyOf v ≠ Some key) (default [] (Cli.vars flags)) →
         result !! key = match fromJson !! key with
                         | Some v => Some v
                         | None => fromFile !! key
                         end)
    ∧ (fromJson !! "__proto__" = None → fromFile !! "__proto__" = None →
       result !! "__proto__" = None).
Proof.
  unfold Cli.parseVars.
  destruct (Cli.loadFile readFile jsonParse flags ∅) as [fromFile|] eqn:Hfile; [|done].
  destruct (Cli.mergeInline jsonParse flags fromFile) as [base|] eqn:Hjson; [|done].
  destruct (parseVars_sources flags fromFile base Hfile Hjson)
    as (fromJson & Hfrom & Hinline & Hbase).
  unfold Cli.mergePairs. intros Hrun.
  exists fromFile, fromJson. split_and!; [done|done|..].
  - intros before key value after Hvars Hkey Hafter Hproto.
    rewrite Hvars, fold_left_app in Hrun. simpl in Hrun.
    destruct (fold_left Cli.assign before _) as [mid|e] eqn:Hmid.
    + rewrite assign_pair in Hrun by done.
      rewrite (fold_assign_other key after _ result Hafter Hrun).
      rewrite setProp_lookup_eq, decide_False; [done|]. by intros [? _].
    + simpl in Hrun. by rewrite fold_assign_Throws in Hrun.
  - intros key Hall. rewrite <-Hbase.
    destruct (Cli.vars flags) as [vs|]; simpl in Hall.
    + by apply (fold_assign_other key vs).
    + by injection Hrun as <-.
  - intros Hj Hf.
    assert (base !! "__proto__" = None) as Hnone by by rewrite Hbase, Hj.
    destruct (Cli.vars flags) as [vs|].
    + by apply (fold_assign_proto vs base).
    + by injection Hrun as <-.
Qed.

(** X3. When [parseVars] fails. It throws exactly in these cases, with the
    error of the first one that applies: the file of [--vars-file] cannot
    be read; its text is no JSON; the text of [--vars-json] is no JSON;
    some entry of [--vars] has no [=], and then the error names the first
    such entry. *)
Theorem parseVars_throws_at_first_failure flags e :
  Cli.parseVars readFile jsonParse flags = Throws e
  ↔ (∃ file, Cli.given (Cli.vars_file flags) = Some file
             ∧ (readFile file = Throws e
                ∨ ∃ content, readFile file = Returns content
                             ∧ jsonParse content = Throws e))
    ∨ (∃ fromFile text,
         Cli.loadFile readFile jsonParse flags ∅ = Returns fromFile
         ∧ Cli.given (Cli.vars_json flags) = Some text
         ∧ jsonParse text = Throws e)
    ∨ (∃ fromFile base before v after,
         Cli.loadFile readFile jsonParse flags ∅ = Returns fromFile
         ∧ Cli.mergeInline jsonParse flags fromFile = Returns base
         ∧ Cli.vars flags = Some (before ++ v :: after)
         ∧ Forall (λ v, JsString.equals ∈ String.list_ascii_of_string v) before
         ∧ (JsString.equals ∉ String.list_ascii_of_string v)
         ∧ e = Cli.invalidVar v).
Proof.
  unfold Cli.parseVars. split.
  - destruct (Cli.loadFile readFile jsonParse flags ∅) as [fromFile|e1] eqn:Hfile.
    + destruct (Cli.mergeInline jsonParse flags fromFile) as [base|e2] eqn:Hjson.
      * intros (before & v & after & ?)%mergePairs_throws.
        right; right. by exists fromFile, base, before, v, after.
      * intros [= ->]. right; left. unfold Cli.mergeInline, Cli.mergeJson in Hjson.
        destruct (Cli.given (Cli.vars_json flags)) as [text|]; [|done].
        exists fromFile, text. split_and!; [done..|].
        destruct (jsonParse text); [done|congruence].
    + intros [= ->]. left. unfold Cli.loadFile, Cli.mergeJson in Hfile.
      destruct (Cli.given (Cli.vars_file flags)) as [file|]; [|done].
      exists file. split; [done|].
      destruct (readFile file) as [content|] eqn:Hread; [right|left; congruence].
      exists content. split; [done|].
      destruct (jsonParse content); [done|congruence].
  - intros [(file & Hgiven & Hfail)|[(fromFile & text & -> & Hgiven & Hfail)
             |(fromFile & base & before & v & after & -> & -> & Hpairs)]].
    + unfold Cli.loadFile, Cli.mergeJson. rewrite Hgiven.
      destruct Hfail as [->|(content & -> & ->)]; done.
    + unfold Cli.mergeInline, Cli.mergeJson. by rewrite Hgiven, Hfail.
    + apply mergePairs_throws. by exists before, v, after.
Qed.
End ParseVarsFacts.

Lemma parseVars_precedence_witness :
  let flags := {| Cli.vars := Some ["site=RefArch"; "token=a=b"; "site=SiteGenesis"];
                  Cli.vars_file := Some "vars.json";
                  Cli.vars_json := Some Fixture.inlineText |} in
  ∃ result,
    Cli.parseVars Fixture.readFile Fixture.jsonParse flags = Returns result
    ∧ result !! "site" = Some (JStr "SiteGenesis")
    ∧ result !! "token" = Some (JStr "a=b")
    ∧ result !! "locale" = Some (JStr "fr")
    ∧ result !! "region" = Some (JStr "eu").
Proof.
  intros flags.
  destruct (Cli.parseVars Fixture.readFile Fixture.jsonParse flags) as [result|e] eqn:Hrun;
    [|by vm_compute in Hrun].
  exists result. split; [done|].
  destruct (parseVars_precedence Fixture.readFile Fixture.jsonParse flags result Hrun)
    as (fromFile & fromJson & (content & Hread & Hfile) & Hinline & Hpair & Hjson & _).
  injection Hread as <-.
  assert (fromFile = {[ "site" := JStr "file"; "region" := JStr "eu" ]}) as ->.
  { vm_compute in Hfile. by injection Hfile as <-. }
  assert (fromJson = {[ "locale" := JStr "fr" ]}) as ->.
  { vm_compute in Hinline. by injection Hinline as <-. }
  split_and!.
  - apply (Hpair ["site=RefArch"; "token=a=b"] "site" "SiteGenesis" []); [done| |done|done].
    apply (bool_decide_unpack _). by vm_compute.
  - apply (Hpair ["site=RefArch"] "token" "a=b" ["site=SiteGenesis"]); [done| | |done].
    + apply (bool_decide_unpack _). by vm_compute.
    + repeat constructor. by vm_compute.
  - rewrite (Hjson "locale"); [done|].
    repeat constructor; by vm_compute.
  - rewrite (Hjson "region"); [done|].
    repeat constructor; by vm_compute.
Defined.

(** The failures of the examples, one for each step. *)
Example parseVars_failures_sample :
  let parse := Cli.parseVars Fixture.readFile Fixture.jsonParse in
  parse {| Cli.vars := Some ["site"]; Cli.vars_file := Some "missing.json";
           Cli.vars_json := Some "{" |}
  = Throws (Fixture.noSuchFile "missing.json")
  ∧ parse {| Cli.vars := Some ["site"]; Cli.vars_file := Some "vars.json";
             Cli.vars_json := Some "{" |}
    = Throws (Fixture.noJson "{")
  ∧ parse {| Cli.vars := Some ["a=1"; "site"; "locale"]; Cli.vars_file := Some "";
             Cli.vars_json := None |}
    = Throws (Cli.invalidVar "site")
  ∧ parse {| Cli.vars := Some ["__proto__=x"; "a=1"]; Cli.vars_file := None;
             Cli.vars_json := None |}
    = Returns {[ "a" := JStr "1" ]}.
Proof. split_and!; vm_compute; reflexivity. Qed.

(** ** The applied list in the store *)

Lemma split_join_free l :
  l ≠ [] → Forall (λ m, comma ∉ String.list_ascii_of_string m) l →
  Js.split comma (Js.join "," l) = l.
Proof.
  induction l as [|x l IH]; [done|]. intros _ Hall.
  apply Forall_cons in Hall as [Hx Hl].
  destruct l as [|y l]; simpl.
  - by apply split_free.
  - change (Js.split comma (x +:+ String comma (Js.join "," (y :: l))) = x :: y :: l).
    rewrite split_app by done. f_equal. by apply IH.
Qed.

Lemma parseMigrations_free raw :
  Forall (λ m, comma ∉ String.list_ascii_of_string m) (parseMigrations raw).
Proof.
  destruct raw as [[|c s]|]; simpl; try by constructor.
  apply (split_pieces_free comma (String c s)).
Qed.

Lemma join_empty l : Js.join "," l = "" → l = [] ∨ l = [""].
Proof.
  destruct l as [|x [|y l]]; simpl; [by left| |].
  - intros ->. by right.
  - destruct x; discriminate.
Qed.

Lemma parseMigrations_round_trip l :
  parseMigrations (Some (Js.join "," l)) = l
  ↔ Forall (λ m, comma ∉ String.list_ascii_of_string m) l ∧ l ≠ [""].
Proof.
  split.
  - intros Heq. split.
    + rewrite <-Heq. apply parseMigrations_free.
    + intros ->. discriminate Heq.
  - intros [Hfree Hne]. unfold parseMigrations.
    destruct (Js.join "," l) as [|c s] eqn:Hj.
    + by destruct (join_empty l Hj).
    + rewrite <-Hj. apply split_join_free; [|done]. by intros ->.
Qed.

(** X4. What [updateInstanceMigrations] writes, [getInstanceState] reads
    back. On a store that accepts the write and the read, the state read
    after the write has the version, the clients and the variables the
    store had before, and its applied list is the list written exactly
    when no identifier of the list holds a comma and the list is not the
    single empty identifier. *)
Theorem written_list_reads_back l r :
  patchError r = None →
  getError r = None →
  let run := (updateInstanceMigrations l ;; getInstanceState) r in
  ∃ st,
    outcome run = Returns (Some st)
    ∧ trace run = [EvUpdateInstanceMigrations l; EvGetInstanceState (Some st)]
    ∧ version st = c_b2cToolkitDataVersion (preferences r)
    ∧ clients st = c_b2cToolsBootstrappedClientIDs (preferences r)
    ∧ vars st = c_b2cToolsVars (preferences r)
    ∧ (migrations st = l
       ↔ Forall (λ m, comma ∉ String.list_ascii_of_string m) l ∧ l ≠ [""]).
Proof.
  intros Hpatch Hget run. subst run.
  rewrite bind_run, updateInstanceMigrations_ok by done.
  rewrite getInstanceState_run. unfold readInstanceState.
  cbn [getError writeMigrations setPreferences]. rewrite Hget.
  eexists. rewrite outcome_triple, trace_triple.
  split; [reflexivity|]. split; [reflexivity|].
  cbn [version clients vars migrations preferences c_b2cToolkitDataVersion
       c_b2cToolsBootstrappedClientIDs c_b2cToolsVars c_b2cToolkitMigrations].
  split_and!; try reflexivity.
  apply parseMigrations_round_trip.
Qed.

Lemma written_list_reads_back_witness :
  let r := Sample.instanceAt 7 (Some "0001-a") in
  let run := (updateInstanceMigrations ["0001-a"; "0002,b"] ;; getInstanceState) r in
  ∃ st, outcome run = Returns (Some st)
        ∧ migrations st = ["0001-a"; "0002"; "b"]
        ∧ version st = Some 7.
Proof.
  intros r run.
  destruct (written_list_reads_back ["0001-a"; "0002,b"] r eq_refl eq_refl)
    as (st & Hout & _ & Hv & _).
  exists st. split; [exact Hout|]. split; [|exact Hv].
  change (outcome run = Returns (Some st)) in Hout.
  vm_compute in Hout. injection Hout as <-. reflexivity.
Defined.

(** ** The order of the list written *)


Lemma fold_setAdd_prefix xs acc : acc `prefix_of` fold_left Js.setAdd xs acc.
Proof.
  revert acc. induction xs as [|x xs IH]; intros acc; [done|].
  simpl. etrans; [|apply IH]. unfold Js.setAdd.
  case_decide; [done|]. by apply prefix_app_r.
Qed.

Lemma arrayFromSet_app xs ys :
  Js.arrayFromSet (xs ++ ys) = fold_left Js.setAdd ys (Js.arrayFromSet xs).
Proof. unfold Js.arrayFromSet. apply fold_left_app. Qed.

Lemma arrayFromSet_snoc xs x :
  x ∉ xs → Js.arrayFromSet (xs ++ [x]) = Js.arrayFromSet xs ++ [x].
Proof.
  intros Hx. rewrite arrayFromSet_app. simpl. unfold Js.setAdd.
  rewrite decide_False; [done|]. by rewrite arrayFromSet_elem_of.
Qed.

(** X5. The merge keeps the order of the instance. The list a commit
    writes starts with the list read from the instance (without its
    repetitions), so what another writer stored keeps its place; what the
    engine knows besides comes after it, and a unit that is new to both
    lists is the last entry. *)
Theorem merge_keeps_the_stored_order migration instanceMigrations r st :
  readInstanceState r = Returns (Some st) →
  let run := commit true migration instanceMigrations r in
  ∃ written,
    updates (trace run) = [written]
    ∧ Js.arrayFromSet (migrations st) `prefix_of` written
    ∧ (NoDup (migrations st) → migrations st `prefix_of` written)
    ∧ (migration ∉ migrations st → migration ∉ instanceMigrations →
       last written = Some migration).
Proof.
  intros Hread run. subst run. rewrite commit_run, Hread. cbv zeta.
  rewrite trace_triple. eexists. split; [reflexivity|].
  assert (Js.arrayFromSet (migrations st)
          `prefix_of` Js.arrayFromSet (migrations st ++ instanceMigrations ++ [migration]))
    as Hprefix by (rewrite arrayFromSet_app; apply fold_setAdd_prefix).
  split_and!.
  - done.
  - intros Hnd. by rewrite (arrayFromSet_id _ Hnd) in Hprefix.
  - intros Hst Hmem. rewrite app_assoc, arrayFromSet_snoc; [apply last_snoc|].
    rewrite elem_of_app. tauto.
Qed.


(** ** Further facts about the engine *)

Lemma pending_catalog catalog applied m :
  m ∈ pendingMigrations catalog applied ↔ m ∈ catalog ∧ m ∉ applied.
Proof. unfold pendingMigrations. rewrite list_elem_of_filter. tauto. Qed.


Lemma first_failure {A} (P : A → Prop) `{∀ x, Decision (P x)} (l : list A) :
  ¬ Forall P l →
  ∃ before x after, l = before ++ x :: after ∧ Forall P before ∧ ¬ P x.
Proof.
  induction l as [|a l IH]; intros Hnot.
  - destruct Hnot. constructor.
  - destruct (decide (P a)) as [Ha|Ha].
    + destruct IH as (before & x & after & -> & Hbefore & Hx).
      { intros Hl. apply Hnot. by constructor. }
      exists (a :: before), x, after. split_and!; [done| |done]. by constructor.
    + by exists [], a, l.
Qed.

Section EngineMore.
Context (extname : string → string).
Context (regexMatch : string → string → Outcome bool).
Context (localeCompare : string → string → string → bool → Z).
Context (sdk : Sdk) (p : Project).

(** The catalog holds names of entries that qualify, each as often as it
    is listed. *)
Lemma projectMigrations_sublist opts :
  ∃ names,
    projectMigrations extname regexMatch localeCompare p opts ≡ₚ names
    ∧ names `sublist_of`
        name <$> filter (qualifies extname regexMatch (exclude opts)) (entries p).
Proof.
  unfold projectMigrations.
  destruct (collectMigrations _ _ _ _ _) as [names|e] eqn:Hcollect.
  - eexists. split; [exact (collectMigrations_Permutation _ _ _ _ _ _ Hcollect)|done].
  - exists []. split; [done|apply sublist_nil_l].
Qed.

(** Every unit of the catalog is an entry of the directory. *)
Lemma catalog_entry opts m :
  m ∈ projectMigrations extname regexMatch localeCompare p opts →
  ∃ d, List.find (λ d, bool_decide (name d = m)) (entries p) = Some d.
Proof.
  destruct (projectMigrations_sublist opts) as (names & -> & Hsub).
  intros Hin. pose proof (elem_of_sublist _ _ _ Hin Hsub) as Hname.
  apply list_elem_of_fmap in Hname as (d & -> & Hd).
  apply list_elem_of_filter in Hd as [_ Hd].
  destruct (List.find _ (entries p)) as [d'|] eqn:Hfind; [by eexists|].
  apply list_elem_of_In in Hd.
  pose proof (find_none _ _ Hfind d Hd) as Hf. simpl in Hf.
  by rewrite bool_decide_true in Hf.
Qed.

Lemma pending_entries opts applied :
  Forall (λ m, is_Some (List.find (λ d, bool_decide (name d = m)) (entries p)))
    (pendingMigrations
       (projectMigrations extname regexMatch localeCompare p opts) applied).
Proof.
  apply Forall_forall. intros m Hm. apply pending_catalog in Hm as [Hm _].
  destruct (catalog_entry opts m Hm) as [d ->]. by eexists.
Qed.

(** A dry run of the loop looks at each unit and loads its notes, and
    does nothing else. *)
Lemma migrateAll_dry opts ms acc r :
  dryRun opts = true →
  Forall (λ m, is_Some (List.find (λ d, bool_decide (name d = m)) (entries p))) ms →
  Forall (loads p opts) ms →
  migrateAll sdk p opts ms acc r = (Returns acc, r, EvStat <$> ms).
Proof.
  intros Hdry. induction ms as [|m ms IH]; intros Hall Hloads; [done|].
  apply Forall_cons in Hall as [[d Hd] Hms].
  apply Forall_cons in Hloads as [Hload Hloads].
  rewrite migrateAll_cons_run, migrate_run, Hd, (Hload d Hd), Hdry.
  cbv zeta. rewrite (IH Hms Hloads). reflexivity.
Qed.

(** It ends at the first unit whose notes fail to load. *)
Lemma migrateAll_dry_load_failure opts before m after d e acc r :
  dryRun opts = true →
  Forall (λ m, is_Some (List.find (λ d, bool_decide (name d = m)) (entries p))) before →
  Forall (loads p opts) before →
  List.find (λ d, bool_decide (name d = m)) (entries p) = Some d →
  loadError p opts (isDirectory d) m = Some e →
  migrateAll sdk p opts (before ++ m :: after) acc r
  = (Throws e, r, EvStat <$> (before ++ [m])).
Proof.
  intros Hdry Hall Hloads Hd Hload.
  rewrite migrateAll_app_run, (migrateAll_dry opts before acc r Hdry Hall Hloads).
  cbv zeta. rewrite migrateAll_cons_run, migrate_run, Hd, Hload.
  by rewrite outcome_triple, remoteAfter_triple, trace_triple, fmap_app.
Qed.

Lemma dryRunEvent_quiet t :
  Forall dryRunEvent t →
  executed t = [] ∧ updates t = [] ∧ reads t = [] ∧ afterAlls t = [].
Proof.
  induction 1 as [|ev t Hev _ (He & Hu & Hr & Ha)]; [done|].
  by destruct ev.
Qed.

Lemma stats_dry ms : Forall dryRunEvent (EvStat <$> ms).
Proof. apply Forall_fmap, Forall_true. by intros m. Qed.

Lemma runBeforeAll_run opts ms r :
  runBeforeAll p opts ms r =
  match beforeAll (lifeCycleModule p) with
  | Some hook =>
      ((hook ms (apply opts) (dryRun opts) r).1,
       (hook ms (apply opts) (dryRun opts) r).2,
       [EvBeforeAll ms (apply opts) (dryRun opts)])
  | None => (Returns tt, r, [])
  end.
Proof.
  unfold runBeforeAll. destruct (beforeAll (lifeCycleModule p)); [|done].
  apply call_run.
Qed.

Lemma runAfterAll_run opts ran r :
  runAfterAll p opts ran r =
  if dryRun opts then (Returns tt, r, [])
  else match afterAll (lifeCycleModule p) with
       | Some hook =>
           ((hook ran (apply opts) r).1, (hook ran (apply opts) r).2, [EvAfterAll ran])
       | None => (Returns tt, r, [])
       end.
Proof.
  unfold runAfterAll. destruct (dryRun opts); [done|].
  destruct (afterAll (lifeCycleModule p)); [|done]. apply call_run.
Qed.

(** X6. A dry run only plans. With [dryRun] the engine calls the
    [beforeAll] hook, looks at each pending unit and loads its notes,
    which for a script file loads its module, and writes the run log; it
    starts no unit, calls no other hook, and neither reads nor writes the
    applied list. When [beforeAll] returns and the notes of every pending
    unit load, the run returns, every pending unit was looked at in
    order, and the instance is as the hook and the log put left it. When
    loading the notes of a pending unit throws, the run throws that error
    at the first such unit, without a run log. *)
Theorem dry_run_only_plans opts st r :
  dryRun opts = true →
  let pending :=
    pendingMigrations
      (projectMigrations extname regexMatch localeCompare p opts) (migrations st) in
  let run := reconcile extname regexMatch localeCompare sdk p opts st r in
  Forall dryRunEvent (trace run)
  ∧ executed (trace run) = [] ∧ updates (trace run) = []
  ∧ reads (trace run) = [] ∧ afterAlls (trace run) = []
  ∧ (∀ r0 t0,
       runBeforeAll p opts pending r = (Returns tt, r0, t0) →
       (Forall (loads p opts) pending →
        run = (Returns tt, (webdavPut sdk r0).2,
               t0 ++ (EvStat <$> pending) ++ [EvLogPut]))
       ∧ (∀ before m after d e,
            pending = before ++ m :: after →
            Forall (loads p opts) before →
            List.find (λ d, bool_decide (name d = m)) (entries p) = Some d →
            loadError p opts (isDirectory d) m = Some e →
            run = (Throws e, r0, t0 ++ (EvStat <$> before ++ [m])))).
Proof.
  intros Hdry pending run.
  assert (∀ r0 t0,
            runBeforeAll p opts pending r = (Returns tt, r0, t0) →
            Forall (loads p opts) pending →
            run = (Returns tt, (webdavPut sdk r0).2,
                   t0 ++ (EvStat <$> pending) ++ [EvLogPut])) as Hrun.
  { intros r0 t0 Hb Hloads. subst run. rewrite reconcile_run. cbv zeta. fold pending.
    rewrite Hb, (migrateAll_dry opts pending _ r0 Hdry (pending_entries opts _) Hloads).
    cbn beta iota. by rewrite runAfterAll_run, Hdry. }
  assert (∀ r0 t0 before m after d e,
            runBeforeAll p opts pending r = (Returns tt, r0, t0) →
            pending = before ++ m :: after →
            Forall (loads p opts) before →
            List.find (λ d, bool_decide (name d = m)) (entries p) = Some d →
            loadError p opts (isDirectory d) m = Some e →
            run = (Throws e, r0, t0 ++ (EvStat <$> before ++ [m]))) as Hfail.
  { intros r0 t0 before m after d e Hb Hsplit Hloads Hd Hload.
    pose proof (pending_entries opts (migrations st)) as Hentries.
    fold pending in Hentries. rewrite Hsplit in Hentries.
    apply Forall_app in Hentries as [Hentries _].
    subst run. rewrite reconcile_run. cbv zeta. fold pending.
    rewrite Hb, Hsplit.
    by rewrite (migrateAll_dry_load_failure opts before m after d e _ r0
                  Hdry Hentries Hloads Hd Hload). }
  assert (Forall dryRunEvent (trace run)) as Hall.
  { destruct (runBeforeAll p opts pending r) as [[[[]|e] r0] t0] eqn:Hb.
    - assert (Forall dryRunEvent t0) as Ht0.
      { rewrite runBeforeAll_run in Hb.
        destruct (beforeAll (lifeCycleModule p)); simplify_eq; by repeat constructor. }
      destruct (decide (Forall (loads p opts) pending)) as [Hloads|Hloads].
      + rewrite (Hrun r0 t0 eq_refl Hloads), trace_triple.
        apply Forall_app. split; [done|].
        apply Forall_app. split; [apply stats_dry|by repeat constructor].
      + apply first_failure in Hloads as (before & m & after & Hsplit & Hloads & Hm);
          [|apply _].
        assert (∃ d e, List.find (λ d, bool_decide (name d = m)) (entries p) = Some d
                       ∧ loadError p opts (isDirectory d) m = Some e) as (d & e & Hd & Hload).
        { unfold loads in Hm.
          destruct (List.find _ (entries p)) as [d|]; [|by destruct Hm].
          destruct (loadError p opts (isDirectory d) m) as [e|] eqn:Hload; [by eauto|].
          destruct Hm. by intros ? [= <-]. }
        rewrite (Hfail r0 t0 before m after d e eq_refl Hsplit Hloads Hd Hload),
          trace_triple.
        apply Forall_app. split; [done|apply stats_dry].
    - subst run. rewrite reconcile_run. cbv zeta. fold pending. rewrite Hb.
      rewrite trace_triple. rewrite runBeforeAll_run in Hb.
      destruct (beforeAll (lifeCycleModule p)); simplify_eq;
        by repeat constructor. }
  pose proof (dryRunEvent_quiet _ Hall) as (He & Hu & Hr & Ha).
  split_and!; [done..|]. intros r0 t0 Hb. split.
  - by apply Hrun.
  - intros before m after d e. by apply Hfail.
Qed.

(** What a reading of the trace of [reconcile] sees, when the reading
    skips the two hooks around the loop and the log put. *)
Lemma reconcile_reading {X} (g : Event → option X) opts st r :
  (∀ l a d, g (EvBeforeAll l a d) = None) →
  (∀ l, g (EvAfterAll l) = None) →
  g EvLogPut = None →
  let pending :=
    pendingMigrations
      (projectMigrations extname regexMatch localeCompare p opts) (migrations st) in
  let run := reconcile extname regexMatch localeCompare sdk p opts st r in
  omap g (trace run) = []
  ∨ ∃ r0, omap g (trace run)
          = omap g (trace (migrateAll sdk p opts pending (migrations st, []) r0)).
Proof.
  intros Hb Ha Hl pending run. subst run. rewrite reconcile_run. cbv zeta.
  fold pending. rewrite runBeforeAll_run.
  assert (∀ (o : Outcome unit) r0 t0,
            omap g t0 = [] →
            omap g (trace
              match (o, r0, t0) with
              | (Throws e, r0, t0) => (Throws e, r0, t0)
              | (Returns _, r0, t0) =>
                  match migrateAll sdk p opts pending (migrations st, []) r0 with
                  | (Throws e, r1, t1) => (Throws e, r1, t0 ++ t1)
                  | (Returns acc, r1, t1) =>
                      match runAfterAll p opts acc.2 r1 with
                      | (Throws e, r2, t2) => (Throws e, r2, t0 ++ t1 ++ t2)
                      | (Returns _, r2, t2) =>
                          (Returns tt, (webdavPut sdk r2).2,
                           t0 ++ t1 ++ t2 ++ [EvLogPut])
                      end
                  end
              end) = []
            ∨ ∃ r', omap g (trace
              match (o, r0, t0) with
              | (Throws e, r0, t0) => (Throws e, r0, t0)
              | (Returns _, r0, t0) =>
                  match migrateAll sdk p opts pending (migrations st, []) r0 with
                  | (Throws e, r1, t1) => (Throws e, r1, t0 ++ t1)
                  | (Returns acc, r1, t1) =>
                      match runAfterAll p opts acc.2 r1 with
                      | (Throws e, r2, t2) => (Throws e, r2, t0 ++ t1 ++ t2)
                      | (Returns _, r2, t2) =>
                          (Returns tt, (webdavPut sdk r2).2,
                           t0 ++ t1 ++ t2 ++ [EvLogPut])
                      end
                  end
              end)
              = omap g (trace (migrateAll sdk p opts pending (migrations st, []) r')))
    as Hcase.
  { intros [[]|e] r0 t0 Ht0; cbn beta iota; [|left; by rewrite trace_triple].
    right. exists r0.
    destruct (migrateAll sdk p opts pending (migrations st, []) r0)
      as [[[acc|e] r1] t1]; rewrite !trace_triple.
    - rewrite runAfterAll_run.
      assert (∀ (o : Outcome unit) r2 t2,
                omap g t2 = [] →
                omap g (trace
                  match (o, r2, t2) with
                  | (Throws e, r2, t2) => (Throws e, r2, t0 ++ t1 ++ t2)
                  | (Returns _, r2, t2) =>
                      (Returns tt, (webdavPut sdk r2).2, t0 ++ t1 ++ t2 ++ [EvLogPut])
                  end) = omap g t1) as Htail.
      { intros [[]|e] r2 t2 Ht2; cbn beta iota; rewrite !trace_triple;
          rewrite !omap_app, Ht0, Ht2; simpl; rewrite ?Hl;
          simpl; by rewrite ?app_nil_r. }
      destruct (dryRun opts); [exact (Htail (Returns tt) r1 [] eq_refl)|].
      destruct (afterAll (lifeCycleModule p)) as [hook|];
        [|exact (Htail (Returns tt) r1 [] eq_refl)].
      apply (Htail (hook acc.2 (apply opts) r1).1 (hook acc.2 (apply opts) r1).2
               [EvAfterAll acc.2]).
      simpl. by rewrite Ha.
    - by rewrite omap_app, Ht0. }
  destruct (beforeAll (lifeCycleModule p)) as [hook|].
  - apply (Hcase (hook pending (apply opts) (dryRun opts) r).1
                 (hook pending (apply opts) (dryRun opts) r).2
                 [EvBeforeAll pending (apply opts) (dryRun opts)]).
    simpl. by rewrite Hb.
  - exact (Hcase (Returns tt) r [] eq_refl).
Qed.

(** Without [apply] one turn of the loop neither reads nor writes the
    applied list. *)
Lemma migrate_without_apply opts m acc r :
  apply opts = false →
  reads (trace (migrate sdk p opts m acc r)) = []
  ∧ updates (trace (migrate sdk p opts m acc r)) = [].
Proof.
  intros Hap.
  destruct (migrate_shape sdk p opts m acc r)
    as (pre & Hr & Hu & [(e & _ & ->)|[->|(r1 & ->)]]);
    rewrite ?trace_triple; [done..|].
  destruct (conclude_shape p opts m acc r1) as (post & Hrp & Hup & Ht & _).
  rewrite Ht, commit_run, Hap, trace_triple, app_nil_l.
  by rewrite reads_app, updates_app, Hr, Hu, Hrp, Hup.
Qed.

Lemma migrateAll_without_apply opts ms acc r :
  apply opts = false →
  reads (trace (migrateAll sdk p opts ms acc r)) = []
  ∧ updates (trace (migrateAll sdk p opts ms acc r)) = [].
Proof.
  intros Hap. revert acc r. induction ms as [|m ms IH]; intros acc r; [done|].
  rewrite migrateAll_cons_run.
  pose proof (migrate_without_apply opts m acc r Hap) as [Hr Hu].
  destruct (migrate sdk p opts m acc r) as [[[acc'|e] r1] t1];
    rewrite trace_triple in Hr, Hu; cbv zeta; rewrite trace_triple; [|done].
  destruct (IH acc' r1) as [Hr' Hu'].
  by rewrite reads_app, updates_app, Hr, Hu, Hr', Hu'.
Qed.

(** X7. Without [apply] the applied list is left alone. With
    [apply = false] the run from planning to the log put makes no read
    and no write of the applied list, whatever the units and the hooks
    do. *)
Theorem without_apply_list_is_left_alone opts st r :
  apply opts = false →
  let run := reconcile extname regexMatch localeCompare sdk p opts st r in
  reads (trace run) = [] ∧ updates (trace run) = [].
Proof.
  intros Hap run. split.
  - destruct (reconcile_reading
                (λ ev, match ev with
                       | EvGetInstanceState (Some st) => Some (migrations st)
                       | _ => None
                       end) opts st r) as [H|[r0 H]]; try done.
    unfold reads. fold run in H. rewrite H.
    apply (migrateAll_without_apply opts _ _ r0 Hap).
  - destruct (reconcile_reading
                (λ ev, match ev with
                       | EvUpdateInstanceMigrations l => Some l
                       | _ => None
                       end) opts st r) as [H|[r0 H]]; try done.
    unfold updates. fold run in H. rewrite H.
    apply (migrateAll_without_apply opts _ _ r0 Hap).
Qed.

Lemma sublist_omap {X} (g : Event → option X) (l k : list Event) :
  l `sublist_of` k → omap g l `sublist_of` omap g k.
Proof.
  induction 1 as [|ev l k _ IH|ev l k _ IH]; simpl.
  - constructor.
  - destruct (g ev); [by apply sublist_skip|done].
  - destruct (g ev); [by apply sublist_cons|done].
Qed.

(** X8. An instance that is up to date. When every unit of the catalog is
    in the applied list of the state, nothing is pending, and the run
    calls at most the [beforeAll] hook, the [afterAll] hook and the log
    put, in this order, both hooks with the empty list: no unit is looked
    at or started and the applied list is neither read nor written. *)
Theorem up_to_date_run_is_quiet opts st r :
  projectMigrations extname regexMatch localeCompare p opts ⊆ migrations st →
  let run := reconcile extname regexMatch localeCompare sdk p opts st r in
  pendingMigrations
    (projectMigrations extname regexMatch localeCompare p opts) (migrations st) = []
  ∧ trace run `sublist_of`
      [EvBeforeAll [] (apply opts) (dryRun opts); EvAfterAll []; EvLogPut]
  ∧ taken (trace run) = [] ∧ executed (trace run) = []
  ∧ reads (trace run) = [] ∧ updates (trace run) = [].
Proof.
  intros Hsub run.
  assert (pendingMigrations
            (projectMigrations extname regexMatch localeCompare p opts)
            (migrations st) = []) as Hpending.
  { apply elem_of_nil_inv. intros m Hm. apply pending_catalog in Hm as [Hc Hn].
    by apply Hn, Hsub. }
  assert (trace run `sublist_of`
            [EvBeforeAll [] (apply opts) (dryRun opts); EvAfterAll []; EvLogPut])
    as Htrace.
  { subst run. rewrite reconcile_run. cbv zeta. rewrite Hpending.
    rewrite runBeforeAll_run.
    assert (∀ (o : Outcome unit) r0 t0,
              t0 `sublist_of` [EvBeforeAll [] (apply opts) (dryRun opts)] →
              trace
                match (o, r0, t0) with
                | (Throws e, r0, t0) => (Throws e, r0, t0)
                | (Returns _, r0, t0) =>
                    match migrateAll sdk p opts [] (migrations st, []) r0 with
                    | (Throws e, r1, t1) => (Throws e, r1, t0 ++ t1)
                    | (Returns acc, r1, t1) =>
                        match runAfterAll p opts acc.2 r1 with
                        | (Throws e, r2, t2) => (Throws e, r2, t0 ++ t1 ++ t2)
                        | (Returns _, r2, t2) =>
                            (Returns tt, (webdavPut sdk r2).2,
                             t0 ++ t1 ++ t2 ++ [EvLogPut])
                        end
                    end
                end
              `sublist_of`
              [EvBeforeAll [] (apply opts) (dryRun opts); EvAfterAll []; EvLogPut])
      as Hcase.
    { intros [[]|e] r0 t0 Ht0; cbn beta iota.
      2:{ rewrite trace_triple. etrans; [exact Ht0|].
          apply sublist_skip, sublist_nil_l. }
      change (migrateAll sdk p opts [] (migrations st, []) r0)
        with (Returns (migrations st, ([] : list string)), r0, ([] : list Event)).
      cbn beta iota. cbn [snd app]. rewrite runAfterAll_run.
      assert (t0 ++ [] ++ [EvLogPut] `sublist_of`
                [EvBeforeAll [] (apply opts) (dryRun opts)]
                ++ [EvAfterAll []; EvLogPut]) as Hnone.
      { apply sublist_app; [done|]. apply sublist_cons. reflexivity. }
      destruct (dryRun opts); [by rewrite trace_triple|].
      destruct (afterAll (lifeCycleModule p)) as [hook|];
        [|by rewrite trace_triple].
      destruct (hook [] (apply opts) r0) as [[[]|e] r2];
        cbn [fst snd]; rewrite trace_triple;
        apply (sublist_app _ [EvBeforeAll [] _ _] _ [EvAfterAll []; EvLogPut] Ht0).
      - reflexivity.
      - apply sublist_skip, sublist_nil_l. }
    destruct (beforeAll (lifeCycleModule p)) as [hook|].
    - by apply (Hcase (hook [] (apply opts) (dryRun opts) r).1
                      (hook [] (apply opts) (dryRun opts) r).2
                      [EvBeforeAll [] (apply opts) (dryRun opts)]).
    - apply (Hcase (Returns tt) r []). apply sublist_nil_l. }
  split; [done|]. split; [done|].
  assert (∀ {X} (g : Event → option X),
            (∀ l a d, g (EvBeforeAll l a d) = None) →
            (∀ l, g (EvAfterAll l) = None) → g EvLogPut = None →
            omap g (trace run) = []) as Hquiet.
  { intros X g Hb Ha Hl.
    assert (omap g [EvBeforeAll [] (apply opts) (dryRun opts); EvAfterAll []; EvLogPut]
            = []) as Hall by (simpl; by rewrite Hb, Ha, Hl).
    pose proof (sublist_omap g _ _ Htrace) as Hs. rewrite Hall in Hs.
    by apply sublist_nil_r in Hs. }
  split_and!; by apply Hquiet.
Qed.


(** *** The calls a part of the run can make *)

Lemma bind_events {A B} (P : Event → Prop) (m : M A) (k : A → M B) r :
  Forall P (trace (m r)) →
  (∀ a r', Forall P (trace (k a r'))) →
  Forall P (trace (bind m k r)).
Proof.
  intros Hm Hk. rewrite bind_run.
  destruct (m r) as [[[a|e] r1] t1]; rewrite trace_triple in *; [|done].
  apply Forall_app. split; [done|apply Hk].
Qed.

Lemma tryCatch_events {A} (P : Event → Prop) (m : M A) (h : Exn → M A) r :
  Forall P (trace (m r)) →
  (∀ e r', Forall P (trace (h e r'))) →
  Forall P (trace (tryCatch m h r)).
Proof.
  intros Hm Hh. rewrite tryCatch_run.
  destruct (m r) as [[[a|e] r1] t1]; rewrite trace_triple in *; [done|].
  apply Forall_app. split; [done|apply Hh].
Qed.

Lemma call_events {A} (P : Event → Prop) ev (f : Ext A) r :
  P ev → Forall P (trace (call ev f r)).
Proof. intros Hev. rewrite call_run, trace_triple. by repeat constructor. Qed.

Lemma getInstanceState_events (P : Event → Prop) r :
  (∀ s, P (EvGetInstanceState s)) → Forall P (trace (getInstanceState r)).
Proof.
  intros Hs. rewrite getInstanceState_run.
  destruct (readInstanceState r); rewrite trace_triple; by repeat constructor.
Qed.

Lemma updateInstanceMigrations_events (P : Event → Prop) l r :
  P (EvUpdateInstanceMigrations l) → Forall P (trace (updateInstanceMigrations l r)).
Proof. intros Hl. rewrite updateInstanceMigrations_trace. by repeat constructor. Qed.

Lemma migrate_events opts m acc r :
  Forall loopEvent (trace (migrate sdk p opts m acc r)).
Proof.
  unfold migrate, statIsDirectory, runBeforeEach, execute, attempt, conclude, commit.
  apply bind_events.
  { apply bind_events; [by repeat constructor|]. intros _ r'.
    destruct (List.find _ _); by constructor. }
  intros isDir r1. apply bind_events.
  { rewrite loadNotes_run. by destruct (loadError p opts isDir m). }
  intros _ r1'. destruct (dryRun opts); [by constructor|].
  apply bind_events.
  { destruct (beforeEach (lifeCycleModule p)); [by apply call_events|by constructor]. }
  intros runMigration r2. apply bind_events.
  { destruct runMigration; [|by constructor].
    apply tryCatch_events.
    - destruct isDir; [by apply call_events|].
      destruct (requireScript p m); [by apply call_events|by constructor..].
    - intros e r'. destruct (onFailure (lifeCycleModule p));
        [by apply call_events|by constructor]. }
  intros _ r3. apply bind_events.
  { destruct (apply opts); [|by constructor].
    apply bind_events; [by apply getInstanceState_events|]. intros s r'.
    apply bind_events; [by apply updateInstanceMigrations_events|].
    intros _ r''. by constructor. }
  intros l r4. apply bind_events; [|intros _ r'; by constructor].
  destruct (afterEach (lifeCycleModule p)); [by apply call_events|by constructor].
Qed.

Lemma migrateAll_events opts ms acc r :
  Forall loopEvent (trace (migrateAll sdk p opts ms acc r)).
Proof.
  revert acc r. induction ms as [|m ms IH]; intros acc r; [by constructor|].
  cbn [migrateAll]. apply bind_events; [apply migrate_events|].
  intros acc' r'. apply IH.
Qed.

Lemma loopEvent_quiet t :
  Forall loopEvent t → beforeAlls t = [] ∧ afterAlls t = [] ∧ bootstraps t = [].
Proof.
  induction 1 as [|ev t Hev _ (Hb & Ha & Hs)]; [done|].
  by destruct ev.
Qed.

(** The trace of [reconcile] in its four parts: the [beforeAll] hook, the
    loop, the [afterAll] hook, and the log put. *)
Lemma reconcile_parts opts st r :
  let pending :=
    pendingMigrations
      (projectMigrations extname regexMatch localeCompare p opts) (migrations st) in
  let run := reconcile extname regexMatch localeCompare sdk p opts st r in
  ∃ t0 t1 t2 t3,
    trace run = t0 ++ t1 ++ t2 ++ t3
    ∧ t0 = match beforeAll (lifeCycleModule p) with
           | Some _ => [EvBeforeAll pending (apply opts) (dryRun opts)]
           | None => []
           end
    ∧ Forall loopEvent t1
    ∧ (t2 = [] ∨ (t2 = [EvAfterAll pending] ∧ dryRun opts = false
                  ∧ taken t1 = pending))
    ∧ (t3 = [] ∨ t3 = [EvLogPut])
    ∧ (outcome run = Returns tt →
       t3 = [EvLogPut]
       ∧ taken t1 = pending
       ∧ (dryRun opts = false → is_Some (afterAll (lifeCycleModule p)) →
          t2 = [EvAfterAll pending])).
Proof.
  intros pending run. subst run. rewrite reconcile_run. cbv zeta. fold pending.
  pose proof (runBeforeAll_run opts pending r) as Hb.
  destruct (runBeforeAll p opts pending r) as [[[[]|e] r0] t0].
  2:{ exists t0, [], [], []. rewrite trace_triple, outcome_triple.
      split_and!; try done; try (by left); try by rewrite !app_nil_r.
      destruct (beforeAll (lifeCycleModule p)); by simplify_eq. }
  assert (t0 = match beforeAll (lifeCycleModule p) with
               | Some _ => [EvBeforeAll pending (apply opts) (dryRun opts)]
               | None => []
               end) as Ht0
    by (destruct (beforeAll (lifeCycleModule p)); by simplify_eq).
  clear Hb.
  pose proof (migrateAll_events opts pending (migrations st, []) r0) as Hev.
  pose proof (migrateAll_taken sdk p opts pending (migrations st, []) r0) as [_ Htaken].
  pose proof (migrateAll_returns_ran sdk p opts pending (migrations st, []) r0) as Hran.
  destruct (migrateAll sdk p opts pending (migrations st, []) r0)
    as [[[acc|e] r1] t1]; rewrite trace_triple in Hev, Htaken.
  2:{ exists t0, t1, [], []. rewrite trace_triple, outcome_triple.
      split_and!; try done; try (by left). by rewrite !app_nil_r. }
  specialize (Htaken acc eq_refl). specialize (Hran acc r1 t1 eq_refl).
  cbn [snd app] in Hran.
  rewrite runAfterAll_run.
  destruct (dryRun opts) eqn:Hdry.
  { exists t0, t1, [], [EvLogPut]. rewrite trace_triple, outcome_triple.
    split_and!; try done; try (by left); by right. }
  rewrite Hran.
  destruct (afterAll (lifeCycleModule p)) as [hook|].
  - destruct (hook pending (apply opts) r1) as [[[]|e] r2]; cbn [fst snd].
    + exists t0, t1, [EvAfterAll pending], [EvLogPut].
      rewrite trace_triple, outcome_triple.
      split_and!; try done; by right.
    + exists t0, t1, [EvAfterAll pending], [].
      rewrite trace_triple, outcome_triple.
      split_and!; try done; try (by left); try (by right).
  - exists t0, t1, [], [EvLogPut]. rewrite trace_triple, outcome_triple.
    split_and!; try done; try (by left); try (by right).
Qed.

(** X10. What the two hooks around the loop are told. The [beforeAll] hook,
    when the project has one, is called once, with the pending units.
    The [afterAll] hook is called at most once, never in a dry run and
    only after every pending unit was taken, and the list it gets is the
    list of all pending units, those the [beforeEach] hook turned down
    and those whose failure the [onFailure] hook handled included. When
    the run returns and is no dry run, the [afterAll] hook of the project
    was called. The loop itself calls neither hook. *)
Theorem hooks_around_the_loop_get_the_plan opts st r :
  let pending :=
    pendingMigrations
      (projectMigrations extname regexMatch localeCompare p opts) (migrations st) in
  let run := reconcile extname regexMatch localeCompare sdk p opts st r in
  beforeAlls (trace run)
  = match beforeAll (lifeCycleModule p) with Some _ => [pending] | None => [] end
  ∧ (afterAlls (trace run) = []
     ∨ (afterAlls (trace run) = [pending] ∧ dryRun opts = false
        ∧ taken (trace run) = pending))
  ∧ (outcome run = Returns tt → dryRun opts = false →
     is_Some (afterAll (lifeCycleModule p)) →
     afterAlls (trace run) = [pending]).
Proof.
  intros pending run.
  destruct (reconcile_parts opts st r)
    as (t0 & t1 & t2 & t3 & Ht & Ht0 & Hloop & Ht2 & Ht3 & Hret).
  fold pending in Ht0, Ht2, Hret. fold run in Ht, Hret.
  destruct (loopEvent_quiet t1 Hloop) as (Hb1 & Ha1 & _).
  assert (beforeAlls t0
          = match beforeAll (lifeCycleModule p) with
            | Some _ => [pending] | None => [] end
          ∧ afterAlls t0 = [] ∧ taken t0 = []) as (Hb0 & Ha0 & Hk0)
    by (rewrite Ht0; by destruct (beforeAll (lifeCycleModule p))).
  assert (beforeAlls t3 = [] ∧ afterAlls t3 = [] ∧ taken t3 = []) as (Hb3 & Ha3 & Hk3)
    by (by destruct Ht3 as [->| ->]).
  assert (beforeAlls t2 = [] ∧ taken t2 = []) as [Hb2 Hk2]
    by (by destruct Ht2 as [->|[-> _]]).
  rewrite Ht. unfold beforeAlls, afterAlls in *.
  rewrite !taken_app, !omap_app, Hb0, Hb1, Hb2, Hb3, Ha0, Ha1, Ha3, Hk0, Hk2, Hk3.
  rewrite !app_nil_r. cbn [app].
  split_and!.
  - by destruct (beforeAll (lifeCycleModule p)).
  - destruct Ht2 as [->|(-> & Hdry & Htaken)]; [by left|by right].
  - intros Hout Hdry Hhook. destruct (Hret Hout) as (_ & _ & Hcalled).
    by rewrite (Hcalled Hdry Hhook).
Qed.

(** X11. No unit twice. When the names of the directory are different from
    each other, so are the units of the catalog, and a run takes and
    starts each pending unit at most once. *)
Theorem no_unit_is_taken_twice opts st r :
  NoDup (name <$> entries p) →
  let run := reconcile extname regexMatch localeCompare sdk p opts st r in
  NoDup (projectMigrations extname regexMatch localeCompare p opts)
  ∧ NoDup (taken (trace run))
  ∧ NoDup (executed (trace run)).
Proof.
  intros Hnames run.
  assert (NoDup (projectMigrations extname regexMatch localeCompare p opts)) as Hcat.
  { destruct (projectMigrations_sublist opts) as (names & -> & Hsub).
    eapply sublist_NoDup; [|exact Hsub].
    eapply sublist_NoDup; [exact Hnames|]. apply fmap_sublist, sublist_filter. }
  set (pending := pendingMigrations
         (projectMigrations extname regexMatch localeCompare p opts) (migrations st)).
  assert (NoDup pending) as Hpending by by apply NoDup_filter.
  split; [done|]. split.
  - destruct (reconcile_reading
                (λ ev, match ev with EvStat m => Some m | _ => None end) opts st r)
      as [H|[r0 H]]; try done; fold run in H; unfold taken; rewrite H;
      [constructor|].
    destruct (migrateAll_taken sdk p opts pending (migrations st, []) r0)
      as [[k Hk] _].
    fold pending. unfold taken in Hk. rewrite Hk in Hpending.
    by apply NoDup_app in Hpending as [? _].
  - destruct (reconcile_reading
                (λ ev, match ev with
                       | EvSiteArchiveImport m | EvScriptCall m => Some m
                       | _ => None
                       end) opts st r)
      as [H|[r0 H]]; try done; fold run in H; unfold executed; rewrite H;
      [constructor|].
    eapply sublist_NoDup; [exact Hpending|].
    apply (migrateAll_executed sdk p opts pending (migrations st, []) r0).
Qed.

(** X12. A unit whose name holds a comma is never seen as applied. The
    applied list is stored as one text with commas between the
    identifiers, so no identifier read from the instance holds a comma,
    and a unit of the catalog with a comma in its name is pending in
    every run, whatever the instance stores. *)
Theorem comma_named_unit_stays_pending opts r st m :
  readInstanceState r = Returns (Some st) →
  m ∈ projectMigrations extname regexMatch localeCompare p opts →
  comma ∈ String.list_ascii_of_string m →
  Forall (λ id, comma ∉ String.list_ascii_of_string id) (migrations st)
  ∧ m ∈ pendingMigrations
          (projectMigrations extname regexMatch localeCompare p opts) (migrations st).
Proof.
  intros Hread Hm Hcomma.
  assert (Forall (λ id, comma ∉ String.list_ascii_of_string id) (migrations st))
    as Hfree.
  { unfold readInstanceState in Hread. destruct (getError r) as [err|].
    - repeat case_decide; discriminate.
    - injection Hread as <-. apply parseMigrations_free. }
  split; [done|]. apply pending_catalog. split; [done|].
  intros Hin. by apply (proj1 (Forall_forall _ _) Hfree m Hin).
Qed.

(** *** What a committing run ends with *)

Lemma commit_last m l r l' known :
  outcome (commit true m l r) = Returns l' →
  lastSeen known (trace (commit true m l r)) = l' ∧ l ⊆ l' ∧ m ∈ l'.
Proof.
  rewrite commit_run.
  destruct (readInstanceState r) as [s|e]; [|by rewrite outcome_triple].
  cbv zeta. rewrite outcome_triple, trace_triple.
  destruct (outcome (updateInstanceMigrations _ r)); [|done].
  intros [= <-]. split; [by destruct s|].
  destruct s as [st|].
  - split.
    + intros x Hx. apply arrayFromSet_elem_of. rewrite !elem_of_app. auto.
    + apply arrayFromSet_elem_of. rewrite !elem_of_app, list_elem_of_singleton. auto.
  - split.
    + intros x Hx. rewrite elem_of_app. auto.
    + rewrite elem_of_app, list_elem_of_singleton. auto.
Qed.

Lemma conclude_last opts m acc r acc' known :
  apply opts = true →
  outcome (conclude p opts m acc r) = Returns acc' →
  lastSeen known (trace (conclude p opts m acc r)) = acc'.1
  ∧ acc.1 ⊆ acc'.1 ∧ m ∈ acc'.1.
Proof.
  intros Hap Hout.
  destruct (conclude_shape p opts m acc r) as (post & Hr & Hu & Ht & Hc).
  specialize (Hc acc' Hout). rewrite Hap in Hc, Ht.
  destruct (commit_last m acc.1 r acc'.1 known Hc) as (Hlast & Hsub & Hin).
  rewrite Ht, lastSeen_app, Hlast.
  split; [|done]. by apply quiet_keeps.
Qed.

Lemma migrate_last opts m acc r acc' known :
  apply opts = true → dryRun opts = false →
  outcome (migrate sdk p opts m acc r) = Returns acc' →
  lastSeen known (trace (migrate sdk p opts m acc r)) = acc'.1
  ∧ acc.1 ⊆ acc'.1 ∧ m ∈ acc'.1.
Proof.
  intros Hap Hdry. rewrite migrate_run, Hdry.
  destruct (List.find _ (entries p)) as [d|]; [|by rewrite outcome_triple].
  destruct (loadError p opts (isDirectory d) m); [by rewrite outcome_triple|].
  pose proof (runBeforeEach_quiet p (apply opts) m r) as (_ & _ & Hub & Hrb).
  destruct (runBeforeEach p (apply opts) m r) as [[[b|e] rb] tb];
    [|by rewrite outcome_triple].
  rewrite trace_triple in Hub, Hrb.
  assert (∀ t1, t1 = trace ((if b then execute sdk p (isDirectory d) m else ret tt) rb) →
                updates t1 = [] ∧ reads t1 = []) as Hquiet.
  { intros t1 ->. destruct b; [|done].
    by destruct (execute_quiet sdk p (isDirectory d) m rb) as (_ & ? & ? & _). }
  destruct ((if b then execute sdk p (isDirectory d) m else ret tt) rb)
    as [[[u|e] r1] t1]; [|by rewrite outcome_triple].
  destruct (Hquiet t1 eq_refl) as [Hu1 Hr1].
  cbv zeta. rewrite outcome_triple, trace_triple. intros Hout.
  destruct (conclude_last opts m acc r1 acc'
              (lastSeen known (EvStat m :: tb ++ t1)) Hap Hout) as (Hlast & Hrest).
  split; [|done].
  rewrite (app_assoc tb t1), app_comm_cons, lastSeen_app. exact Hlast.
Qed.

Lemma migrateAll_last opts ms acc r acc' :
  apply opts = true → dryRun opts = false →
  outcome (migrateAll sdk p opts ms acc r) = Returns acc' →
  lastSeen acc.1 (trace (migrateAll sdk p opts ms acc r)) = acc'.1
  ∧ acc.1 ⊆ acc'.1 ∧ ms ⊆ acc'.1.
Proof.
  intros Hap Hdry. revert acc r. induction ms as [|m ms IH]; intros acc r.
  - intros [= <-]. split_and!; [done..|]. by intros x ?%elem_of_nil.
  - rewrite migrateAll_cons_run.
    pose proof (migrate_last opts m acc r) as Hstep.
    destruct (migrate sdk p opts m acc r) as [[[acc1|e] r1] t1];
      [|by rewrite outcome_triple].
    rewrite outcome_triple, trace_triple in Hstep.
    destruct (Hstep acc1 acc.1 Hap Hdry eq_refl) as (Hlast & Hsub & Hin).
    cbv zeta. rewrite outcome_triple, trace_triple. intros Hout.
    destruct (IH acc1 r1 Hout) as (Hlast' & Hsub' & Hms).
    rewrite lastSeen_app, Hlast. split; [done|]. split.
    + by etrans.
    + intros x Hx. apply elem_of_cons in Hx as [->|Hx]; [by apply Hsub'|by apply Hms].
Qed.

(** X13. A run that returns has recorded the whole catalog. For a run with
    [apply] that is no dry run and returns, the applied list the engine
    saw or wrote last holds every unit of the catalog, so that against
    this list nothing is pending any more. *)
Theorem returning_run_records_the_catalog opts st r :
  apply opts = true →
  dryRun opts = false →
  let catalog := projectMigrations extname regexMatch localeCompare p opts in
  let run := reconcile extname regexMatch localeCompare sdk p opts st r in
  outcome run = Returns tt →
  let final := lastSeen (migrations st) (trace run) in
  catalog ⊆ final
  ∧ migrations st ⊆ final
  ∧ pendingMigrations catalog final = [].
Proof.
  intros Hap Hdry catalog run Hout final.
  assert (migrations st ⊆ final ∧
          pendingMigrations catalog (migrations st) ⊆ final) as [Hst Hpend].
  { subst final run. revert Hout. rewrite reconcile_run. cbv zeta.
    fold catalog. set (pending := pendingMigrations catalog (migrations st)).
    pose proof (runBeforeAll_quiet p opts pending r) as (_ & _ & Hu0 & Hr0).
    destruct (runBeforeAll p opts pending r) as [[[[]|e] r0] t0];
      [|by rewrite outcome_triple].
    rewrite trace_triple in Hu0, Hr0.
    pose proof (migrateAll_last opts pending (migrations st, []) r0) as Hloop.
    destruct (migrateAll sdk p opts pending (migrations st, []) r0)
      as [[[acc|e] r1] t1]; [|by rewrite outcome_triple].
    rewrite outcome_triple, trace_triple in Hloop.
    destruct (Hloop acc Hap Hdry eq_refl) as (Hlast & Hsub & Hms).
    cbn [fst] in Hlast, Hsub.
    pose proof (runAfterAll_quiet p opts acc.2 r1) as (_ & _ & Hu2 & Hr2).
    destruct (runAfterAll p opts acc.2 r1) as [[[[]|e] r2] t2];
      [|by rewrite outcome_triple].
    rewrite trace_triple in Hu2, Hr2. rewrite outcome_triple, trace_triple.
    intros _.
    rewrite !lastSeen_app.
    destruct (quiet_keeps (migrations st) t0 Hr0 Hu0) as [_ ->].
    rewrite Hlast.
    destruct (quiet_keeps acc.1 t2 Hr2 Hu2) as [_ ->].
    by change (lastSeen acc.1 [EvLogPut]) with acc.1. }
  assert (catalog ⊆ final) as Hcat.
  { intros m Hm. destruct (decide (m ∈ migrations st)) as [Hin|Hnot].
    - by apply Hst.
    - apply Hpend, pending_catalog. by split. }
  split_and!; [done..|].
  apply elem_of_nil_inv. intros m Hm. apply pending_catalog in Hm as [Hm Hn].
  by apply Hn, Hcat.
Qed.

(** *** A unit that ran and could not be recorded *)

Lemma taken_stat m t : taken (EvStat m :: t) = m :: taken t.
Proof. reflexivity. Qed.

Lemma updates_stat m t : updates (EvStat m :: t) = updates t.
Proof. reflexivity. Qed.

(** X14. A unit that ran but could not be recorded. When the unit, whose
    notes loaded, has run
    and the engine cannot read the state again, or the instance refuses
    the write, the run throws, the [afterEach] hook is not called, no
    further unit is taken, and the instance is left as the unit left it:
    the effects of the unit are there and its identifier is not
    recorded. After a read that failed no write is tried. *)
Theorem unrecorded_unit_stops_the_run opts m rest acc r d rb tb r1 t1 :
  dryRun opts = false →
  apply opts = true →
  List.find (λ d, bool_decide (name d = m)) (entries p) = Some d →
  loadError p opts (isDirectory d) m = None →
  runBeforeEach p true m r = (Returns true, rb, tb) →
  execute sdk p (isDirectory d) m rb = (Returns tt, r1, t1) →
  (∃ e, readInstanceState r1 = Throws e) ∨ is_Some (patchError r1) →
  let run := migrateAll sdk p opts (m :: rest) acc r in
  (∃ e, outcome run = Throws e)
  ∧ remoteAfter run = r1
  ∧ taken (trace run) = [m]
  ∧ Forall (λ ev, ev ≠ EvAfterEach m) (trace run)
  ∧ ((∃ e, readInstanceState r1 = Throws e) → updates (trace run) = []).
Proof.
  intros Hdry Hap Hd Hload Hb He Hfail run. subst run.
  rewrite migrateAll_cons_run, migrate_run, Hd, Hload, Hdry, Hap, Hb.
  cbn beta iota. rewrite He. cbn beta iota zeta.
  pose proof (runBeforeEach_trace p true m r) as Htb.
  rewrite Hb, trace_triple in Htb.
  pose proof (execute_run sdk p (isDirectory d) m rb) as Hx.
  rewrite He in Hx.
  assert (taken t1 = [] ∧ updates t1 = [] ∧ Forall (λ ev, ev ≠ EvAfterEach m) t1)
    as (Hk1 & Hu1 & Ha1).
  { pose proof (attempt_trace sdk p (isDirectory d) m rb) as Ht.
    destruct (attempt sdk p (isDirectory d) m rb) as [[[[]|e] ra] ta];
      rewrite trace_triple in Ht.
    - injection Hx as <- <-.
      destruct Ht as [->|[->| ->]]; by repeat constructor.
    - destruct (onFailure (lifeCycleModule p)) as [hook|]; [|done].
      injection Hx as _ _ ->.
      destruct Ht as [->|[->| ->]]; by repeat constructor. }
  assert (taken tb = [] ∧ updates tb = [] ∧ Forall (λ ev, ev ≠ EvAfterEach m) tb)
    as (Hkb & Hub & Hab) by (destruct Htb as [->| ->]; by repeat constructor).
  rewrite conclude_run, commit_run, Hap.
  destruct (readInstanceState r1) as [s|e] eqn:Hread.
  - destruct Hfail as [[e He']|[err Herr]]; [done|].
    cbv zeta.
    assert (∃ e, updateInstanceMigrations
                   match s with
                   | Some st => Js.arrayFromSet (migrations st ++ acc.1 ++ [m])
                   | None => acc.1 ++ [m]
                   end r1
                 = (Throws e, r1, [EvUpdateInstanceMigrations
                     match s with
                     | Some st => Js.arrayFromSet (migrations st ++ acc.1 ++ [m])
                     | None => acc.1 ++ [m]
                     end])) as [e Hup].
    { unfold updateInstanceMigrations. rewrite bind_run. unfold emit.
      cbn beta iota. rewrite Herr. unfold throw.
      repeat case_decide; eexists; reflexivity. }
    rewrite Hup, outcome_triple, remoteAfter_triple.
    cbn beta iota. rewrite ?outcome_triple, ?remoteAfter_triple, ?trace_triple.
    cbn beta iota. rewrite ?outcome_triple, ?remoteAfter_triple, ?trace_triple.
    split_and!.
    + by eexists.
    + done.
    + by rewrite taken_stat, !taken_app, Hkb, Hk1.
    + constructor; [done|]. rewrite !Forall_app. split_and!; [done..|].
      by repeat constructor.
    + by intros [e' ?].
  - cbn beta iota. rewrite ?outcome_triple, ?remoteAfter_triple, ?trace_triple.
    split_and!.
    + by eexists.
    + done.
    + by rewrite taken_stat, !taken_app, Hkb, Hk1.
    + constructor; [done|]. rewrite !Forall_app. split_and!; [done..|].
      by constructor.
    + intros _. by rewrite updates_stat, !updates_app, Hub, Hu1.
Qed.

(** *** The run log *)

Lemma readState_events (P : Event → Prop) clientId opts r :
  P EvInit → P EvShouldBootstrap → P (EvBootstrapMigrations clientId) →
  (∀ s, P (EvGetInstanceState s)) →
  Forall P (trace (readState extname regexMatch localeCompare sdk p clientId opts r)).
Proof.
  intros Hi Hs Hb Hg.
  unfold readState, runInit, stateCheck, runShouldBootstrap, bootstrapMigrations.
  apply bind_events.
  { destruct (init (lifeCycleModule p)); [by apply call_events|by constructor]. }
  intros _ r0. apply bind_events; [by constructor|].
  intros _ r1. apply bind_events; [|intros [st|] r'; by constructor].
  apply bind_events; [by apply getInstanceState_events|].
  intros s r2. apply bind_events.
  { destruct (shouldBootstrap (lifeCycleModule p)) as [hook|], s as [st|];
      try by constructor.
    destruct (isMigrationBootstrapRequired clientId (Some st)); [by constructor|].
    apply tryCatch_events; [|intros e r'; by constructor].
    apply bind_events; [by apply call_events|]. intros b r'. by constructor. }
  intros required r3.
  destruct (required && negb (allowBootstrap opts)); [by constructor|].
  destruct (forceBootstrap opts || required).
  - apply bind_events; [|intros _ r'; by apply getInstanceState_events].
    apply bind_events.
    { apply tryCatch_events; [by apply call_events|].
      intros e r'. case_decide; by constructor. }
    intros _ r4. apply bind_events; [by apply getInstanceState_events|].
    intros [st|] r5; [|by constructor].
    apply bind_events; [|intros st' r'; by constructor].
    destruct (onBootstrap (lifeCycleModule p)) as [hook|]; [|by constructor].
    destruct (hook _ r5) as [o r6]. by constructor.
  - destruct s as [st|]; [|by constructor].
    by destruct (negb (falsy (version st)) && _); constructor.
Qed.

(** X15. The log put cannot change the result of a run. The put of the run
    log is the last call of a run that would return, and whether it
    succeeds or throws, and whatever SDK call stands for it, the run has
    the same outcome and the same trace; a run that throws has not
    reached it. *)
Theorem log_put_cannot_change_the_result put clientId opts r :
  let run := migrateInstance extname regexMatch localeCompare sdk p clientId opts r in
  let run' := migrateInstance extname regexMatch localeCompare
                (withWebdavPut put sdk) p clientId opts r in
  outcome run' = outcome run
  ∧ trace run' = trace run
  ∧ (outcome run = Returns tt → last (trace run) = Some EvLogPut)
  ∧ (∀ e, outcome run = Throws e →
          remoteAfter run' = remoteAfter run ∧ EvLogPut ∉ trace run).
Proof.
  intros run run'. subst run run'. rewrite !migrateInstance_run.
  change (readState extname regexMatch localeCompare (withWebdavPut put sdk) p clientId opts r)
    with (readState extname regexMatch localeCompare sdk p clientId opts r).
  pose proof (readState_events (λ ev, ev ≠ EvLogPut) clientId opts r) as Hsetup.
  destruct (readState extname regexMatch localeCompare sdk p clientId opts r) as [[[st|e] r1] t1];
    rewrite trace_triple in Hsetup.
  2:{ rewrite !outcome_triple, !trace_triple, !remoteAfter_triple.
      split_and!; try done. intros e' _. split; [done|].
      intros Hin. by apply (proj1 (Forall_forall _ _) (Hsetup ltac:(done) ltac:(done)
                                 ltac:(done) ltac:(done)) _ Hin). }
  assert (EvLogPut ∉ t1) as Ht1.
  { intros Hin. by apply (proj1 (Forall_forall _ _) (Hsetup ltac:(done) ltac:(done)
                                  ltac:(done) ltac:(done)) _ Hin). }
  clear Hsetup. cbv zeta.
  rewrite !outcome_triple, !trace_triple, !remoteAfter_triple.
  rewrite !reconcile_run. cbv zeta.
  set (pending := pendingMigrations _ _).
  change (migrateAll (withWebdavPut put sdk) p opts pending)
    with (migrateAll sdk p opts pending).
  pose proof (runBeforeAll_run opts pending r1) as Hb.
  destruct (runBeforeAll p opts pending r1) as [[[[]|e] r0] t0].
  2:{ rewrite !outcome_triple, !trace_triple, !remoteAfter_triple.
      split_and!; try done. intros e' _. split; [done|].
      rewrite elem_of_app. intros [?|Hin]; [done|].
      destruct (beforeAll (lifeCycleModule p)); simplify_eq;
        first [by apply list_elem_of_singleton in Hin|by apply elem_of_nil in Hin]. }
  assert (EvLogPut ∉ t0) as Ht0.
  { intros Hin. destruct (beforeAll (lifeCycleModule p)); simplify_eq;
      first [by apply list_elem_of_singleton in Hin|by apply elem_of_nil in Hin]. }
  clear Hb.
  pose proof (migrateAll_events opts pending (migrations st, []) r0) as Hloop.
  destruct (migrateAll sdk p opts pending (migrations st, []) r0)
    as [[[acc|e] r2] t2]; rewrite trace_triple in Hloop.
  2:{ rewrite !outcome_triple, !trace_triple, !remoteAfter_triple.
      split_and!; try done. intros e' _. split; [done|].
      rewrite !elem_of_app. intros [?|[?|Hin]]; [done..|].
      by apply (proj1 (Forall_forall _ _) Hloop _ Hin). }
  assert (EvLogPut ∉ t2) as Ht2.
  { intros Hin. by apply (proj1 (Forall_forall _ _) Hloop _ Hin). }
  pose proof (runAfterAll_run opts acc.2 r2) as Ha.
  destruct (runAfterAll p opts acc.2 r2) as [[[[]|e] r3] t3];
    rewrite !outcome_triple, !trace_triple, !remoteAfter_triple.
  - split_and!; try done.
    intros _. rewrite !app_assoc. apply last_snoc.
  - split_and!; try done. intros e' _. split; [done|].
    rewrite !elem_of_app. intros [?|[?|[?|Hin]]]; [done..|].
    destruct (dryRun opts); [by simplify_eq|].
    destruct (afterAll (lifeCycleModule p)); simplify_eq.
    by apply list_elem_of_singleton in Hin.
Qed.

(** *** The decision to bootstrap *)

Lemma bootstrapMigrations_bootstraps clientId lifecycle r :
  bootstraps (trace (bootstrapMigrations sdk clientId lifecycle r)) = [clientId].
Proof.
  unfold bootstrapMigrations. rewrite bind_run, tryCatch_run, call_run.
  destruct (bootstrapImport sdk r) as [[u|e] r1]; cbn [fst snd].
  - rewrite trace_triple, bind_run, getInstanceState_run.
    destruct (readInstanceState r1) as [[st|]|e]; [|done..].
    rewrite bind_run.
    destruct (onBootstrap lifecycle) as [hook|].
    + by destruct (hook _ r1) as [[st'|e] r2].
    + done.
  - by case_decide.
Qed.

Lemma bootstraps_app t1 t2 : bootstraps (t1 ++ t2) = bootstraps t1 ++ bootstraps t2.
Proof. apply omap_app. Qed.

Lemma bootstraps_skip ev t :
  (∀ c, ev ≠ EvBootstrapMigrations c) → bootstraps (ev :: t) = bootstraps t.
Proof. intros Hev. destruct ev; try done. by destruct (Hev clientId). Qed.

Lemma stateCheck_run clientId opts r s required r1 t1 :
  readInstanceState r = Returns s →
  runShouldBootstrap p (isMigrationBootstrapRequired clientId s) s r
  = (Returns required, r1, t1) →
  stateCheck sdk p clientId opts r =
  if required && negb (allowBootstrap opts)
  then (Throws bootstrapNotAllowed, r1, EvGetInstanceState s :: t1)
  else if forceBootstrap opts || required then
    let x := (bootstrapMigrations sdk clientId (lifeCycleModule p) ;;
              getInstanceState) r1 in
    (outcome x, remoteAfter x, EvGetInstanceState s :: t1 ++ trace x)
  else
    let x := match s with
             | Some st =>
                 if negb (falsy (version st))
                    && bool_decide (toNumber (version st) > B2C_TOOLKIT_DATA_VERSION)
                 then throw versionGreater r1
                 else ret s r1
             | None => ret s r1
             end in
    (outcome x, remoteAfter x, EvGetInstanceState s :: t1 ++ trace x).
Proof.
  intros Hread Hshould. unfold stateCheck.
  rewrite bind_run, getInstanceState_run, Hread. cbn beta iota zeta.
  rewrite bind_run, Hshould. cbn beta iota zeta.
  destruct (required && negb (allowBootstrap opts)).
  { unfold throw. by rewrite outcome_triple, remoteAfter_triple, trace_triple, app_nil_r. }
  destruct (forceBootstrap opts || required); [done|].
  destruct s as [st|]; [|done]. by destruct (negb _ && _).
Qed.

Lemma shouldBootstrap_quiet required s r :
  bootstraps (trace (runShouldBootstrap p required s r)) = [].
Proof.
  by destruct (runShouldBootstrap_trace p required s r) as [-> | ->].
Qed.

(** X16. A run that may not bootstrap. With [allowBootstrap = false], a
    bootstrap that the state or the [shouldBootstrap] hook requires stops
    the run before any import, also when [forceBootstrap] is set; a
    bootstrap that is not required is still made when [forceBootstrap]
    asks for it. *)
Theorem disallowed_bootstrap clientId opts r s required r1 t1 :
  allowBootstrap opts = false →
  readInstanceState r = Returns s →
  runShouldBootstrap p (isMigrationBootstrapRequired clientId s) s r
  = (Returns required, r1, t1) →
  let run := stateCheck sdk p clientId opts r in
  if required
  then run = (Throws bootstrapNotAllowed, r1, EvGetInstanceState s :: t1)
       ∧ bootstraps (trace run) = []
  else bootstraps (trace run) = if forceBootstrap opts then [clientId] else [].
Proof.
  intros Hallow Hread Hshould run. subst run.
  rewrite (stateCheck_run clientId opts r s required r1 t1 Hread Hshould), Hallow.
  pose proof (shouldBootstrap_quiet (isMigrationBootstrapRequired clientId s) s r) as Hq.
  rewrite Hshould, trace_triple in Hq.
  destruct required; cbn [andb negb orb].
  - split; [done|]. by rewrite trace_triple, bootstraps_skip.
  - rewrite orb_false_r. destruct (forceBootstrap opts); cbv zeta;
      rewrite trace_triple, bootstraps_skip, bootstraps_app, Hq by done.
    + rewrite bind_run.
      pose proof (bootstrapMigrations_bootstraps clientId (lifeCycleModule p) r1) as Hb.
      destruct (bootstrapMigrations sdk clientId (lifeCycleModule p) r1)
        as [[[u|e] r2] tb]; rewrite trace_triple in Hb; rewrite ?trace_triple.
      * rewrite getInstanceState_run.
        destruct (readInstanceState r2); rewrite trace_triple;
          rewrite bootstraps_app, Hb; by rewrite ?app_nil_r.
      * by rewrite Hb.
    + destruct s as [st|]; [|done]. by destruct (negb _ && _).
Qed.

(** X17. A [shouldBootstrap] hook that throws asks for the bootstrap. When
    the state does not require a bootstrap and the hook throws, the error
    is dropped and the run goes on as if the hook had returned [true]:
    it imports the bootstrap archive, or stops when the bootstrap is not
    allowed. *)
Theorem failing_shouldBootstrap_asks_for_bootstrap clientId opts r st hook e r1 :
  readInstanceState r = Returns (Some st) →
  isMigrationBootstrapRequired clientId (Some st) = false →
  shouldBootstrap (lifeCycleModule p) = Some hook →
  hook st r = (Throws e, r1) →
  let run := stateCheck sdk p clientId opts r in
  runShouldBootstrap p false (Some st) r = (Returns true, r1, [EvShouldBootstrap])
  ∧ if allowBootstrap opts
    then bootstraps (trace run) = [clientId]
    else run = (Throws bootstrapNotAllowed, r1,
                [EvGetInstanceState (Some st); EvShouldBootstrap]).
Proof.
  intros Hread Hreq Hhook Hthrows run.
  assert (runShouldBootstrap p false (Some st) r
          = (Returns true, r1, [EvShouldBootstrap])) as Hshould.
  { unfold runShouldBootstrap. rewrite Hhook.
    rewrite tryCatch_run, bind_run, call_run, Hthrows. reflexivity. }
  split; [done|]. subst run.
  rewrite (stateCheck_run clientId opts r (Some st) true r1 [EvShouldBootstrap] Hread)
    by (by rewrite Hreq).
  destruct (allowBootstrap opts); cbn [andb negb orb]; [|done].
  rewrite orb_true_r. cbv zeta.
  rewrite trace_triple, !bootstraps_skip by done. cbn [app].
  rewrite bootstraps_skip by done. rewrite bind_run.
  pose proof (bootstrapMigrations_bootstraps clientId (lifeCycleModule p) r1) as Hb.
  destruct (bootstrapMigrations sdk clientId (lifeCycleModule p) r1)
    as [[[u|e'] r2] tb]; rewrite trace_triple in Hb; rewrite ?trace_triple.
  - rewrite getInstanceState_run.
    destruct (readInstanceState r2); rewrite trace_triple;
      rewrite bootstraps_app, Hb; by rewrite ?app_nil_r.
  - by rewrite Hb.
Qed.

(** *** What a bootstrap leaves behind *)

(** X18. A bootstrap registers the client. When the import succeeds, the
    state can be read, the project has no [onBootstrap] hook and the
    instance accepts the write, [bootstrapMigrations] returns and the
    state read afterwards no longer requires a bootstrap for this client:
    it has the data version of the engine and the client at that version.
    The other clients, the applied list and the feature registry are as
    the import left them, and the variables lose the entries whose value
    is undefined or a function. The client id [__proto__] is the
    exception: unless the
    stored clients have a property of that name, the assignment goes to
    the setter of the prototype, nothing is registered, and the state
    read afterwards requires a bootstrap as before. *)
Theorem bootstrap_registers_the_client clientId lifecycle r r1 st :
  bootstrapImport sdk r = (Returns tt, r1) →
  readInstanceState r1 = Returns (Some st) →
  onBootstrap lifecycle = None →
  patchError r1 = None →
  let run := bootstrapMigrations sdk clientId lifecycle r in
  outcome run = Returns tt
  ∧ trace run = [EvBootstrapMigrations clientId; EvGetInstanceState (Some st)]
  ∧ ∃ st',
      readInstanceState (remoteAfter run) = Returns (Some st')
      ∧ (if decide (clientId = "__proto__" ∧ clients st !! clientId = None)
         then isMigrationBootstrapRequired clientId (Some st') = true
              ∧ clients st' !! clientId = None
         else isMigrationBootstrapRequired clientId (Some st') = false
              ∧ clients st' !! clientId = Some (Some B2C_TOOLKIT_DATA_VERSION))
      ∧ version st' = Some B2C_TOOLKIT_DATA_VERSION
      ∧ (∀ c, c ≠ clientId → clients st' !! c = clients st !! c)
      ∧ migrations st' = migrations st
      ∧ vars st' = jsonObject (vars st)
      ∧ c_b2cToolsFeaturesVersion (preferences (remoteAfter run))
        = c_b2cToolsFeaturesVersion (preferences r1)
      ∧ c_b2cToolsFeaturesBootstrappedClientIDs (preferences (remoteAfter run))
        = c_b2cToolsFeaturesBootstrappedClientIDs (preferences r1).
Proof.
  intros Himport Hread Hhook Hpatch run.
  assert (getError r1 = None ∧
          st = {| version := c_b2cToolkitDataVersion (preferences r1);
                  migrations := parseMigrations (c_b2cToolkitMigrations (preferences r1));
                  clients := c_b2cToolsBootstrappedClientIDs (preferences r1);
                  vars := c_b2cToolsVars (preferences r1) |}) as [Hget Hst].
  { unfold readInstanceState in Hread. destruct (getError r1) as [err|].
    - repeat case_decide; discriminate.
    - by injection Hread as <-. }
  assert (run = (Returns tt,
                 recordBootstrap
                   (withClients (setClient (clients st) clientId B2C_TOOLKIT_DATA_VERSION) st)
                   r1,
                 [EvBootstrapMigrations clientId; EvGetInstanceState (Some st)])) as ->.
  { subst run. unfold bootstrapMigrations.
    rewrite bind_run, tryCatch_run, call_run, Himport. cbn [fst snd].
    cbn beta iota. rewrite bind_run, getInstanceState_run, Hread. cbn beta iota zeta.
    rewrite Hhook, bind_run. unfold ret, modify. cbn beta iota.
    by rewrite !outcome_triple, !remoteAfter_triple, !trace_triple. }
  rewrite outcome_triple, trace_triple, remoteAfter_triple.
  split; [done|]. split; [done|].
  unfold recordBootstrap. rewrite Hpatch.
  unfold readInstanceState. cbn [getError setPreferences preferences]. rewrite Hget.
  eexists. split; [reflexivity|].
  cbn [version clients migrations vars withClients c_b2cToolkitDataVersion
       c_b2cToolkitMigrations c_b2cToolsBootstrappedClientIDs c_b2cToolsVars
       c_b2cToolsFeaturesVersion c_b2cToolsFeaturesBootstrappedClientIDs].
  split_and!; try done.
  - unfold setClient, isMigrationBootstrapRequired, clientVersion.
    cbn [version clients]. rewrite Hst. cbn [clients].
    destruct (decide (clientId = "__proto__" ∧ _)) as [[_ Hnone]|_].
    + rewrite Hnone. by vm_compute.
    + rewrite lookup_insert_eq. by vm_compute.
  - intros c Hc. unfold setClient. case_decide; [done|]. by apply lookup_insert_ne.
  - by rewrite Hst.
Qed.

(** X19. A bootstrap write that the instance refuses goes unnoticed. The
    response of the final write of [bootstrapMigrations] is not looked
    at: when the instance refuses it, the bootstrap returns all the same
    and leaves the instance as the import left it, and the state check
    of the run returns the state read after the import, in which the
    client is as little registered as before. *)
Theorem refused_bootstrap_write_goes_unnoticed
    clientId opts r s r1 t1 r2 st err :
  readInstanceState r = Returns s →
  runShouldBootstrap p (isMigrationBootstrapRequired clientId s) s r
  = (Returns true, r1, t1) →
  allowBootstrap opts = true →
  bootstrapImport sdk r1 = (Returns tt, r2) →
  readInstanceState r2 = Returns (Some st) →
  onBootstrap (lifeCycleModule p) = None →
  patchError r2 = Some err →
  bootstrapMigrations sdk clientId (lifeCycleModule p) r1
  = (Returns tt, r2, [EvBootstrapMigrations clientId; EvGetInstanceState (Some st)])
  ∧ stateCheck sdk p clientId opts r
    = (Returns (Some st), r2,
       EvGetInstanceState s
       :: t1 ++ [EvBootstrapMigrations clientId; EvGetInstanceState (Some st);
                 EvGetInstanceState (Some st)]).
Proof.
  intros Hread Hshould Hallow Himport Hread2 Hhook Hpatch.
  assert (bootstrapMigrations sdk clientId (lifeCycleModule p) r1
          = (Returns tt, r2,
             [EvBootstrapMigrations clientId; EvGetInstanceState (Some st)])) as Hboot.
  { unfold bootstrapMigrations.
    rewrite bind_run, tryCatch_run, call_run, Himport. cbn [fst snd].
    cbn beta iota. rewrite bind_run, getInstanceState_run, Hread2. cbn beta iota zeta.
    rewrite Hhook, bind_run. unfold ret, modify, recordBootstrap. cbn beta iota.
    rewrite Hpatch. by rewrite !outcome_triple, !remoteAfter_triple, !trace_triple. }
  split; [done|].
  rewrite (stateCheck_run clientId opts r s true r1 t1 Hread Hshould), Hallow.
  cbn [andb negb]. rewrite orb_true_r. cbv zeta.
  rewrite bind_run, Hboot, getInstanceState_run, Hread2.
  by rewrite !outcome_triple, !remoteAfter_triple, !trace_triple.
Qed.

End EngineMore.

(** ** Features: bootstrap, redeploy and removal *)

(** X20. A feature bootstrap registers the client for features only. When
    the import succeeds, the feature state can be read and the instance
    accepts the write, [bootstrapFeatures] returns and the feature state
    read afterwards no longer requires a bootstrap for this client; the
    deployed features and the other clients are as the import left them.
    The migration state of the instance is not touched: a client that
    has to bootstrap for migrations still has to. The client id
    [__proto__] is the exception: unless the stored clients have a
    property of that name, nothing is registered for it and the feature
    state read afterwards requires a bootstrap as before. *)
Theorem feature_bootstrap_registers_the_client featuresImport clientId r r1 st :
  featuresImport r = (Returns tt, r1) →
  Features.getInstanceFeatureState r1 = Returns (Some st) →
  patchError r1 = None →
  let run := FeatureOps.bootstrapFeatures featuresImport clientId r in
  run.1 = Returns tt
  ∧ (∃ st',
       Features.getInstanceFeatureState run.2 = Returns (Some st')
       ∧ FeatureOps.isFeatureBootstrapRequired clientId (Some st')
         = (if decide (clientId = "__proto__"
                       ∧ Features.b2cToolsFeaturesBootstrappedClientIDs st !! clientId
                         = None)
            then true else false)
       ∧ Features.b2cToolsFeaturesVersion st' = Some B2C_TOOLS_FEATURES_VERSION
       ∧ (∀ c, c ≠ clientId →
            Features.b2cToolsFeaturesBootstrappedClientIDs st' !! c
            = Features.b2cToolsFeaturesBootstrappedClientIDs st !! c)
       ∧ Features.features st' = Features.features st)
  ∧ readInstanceState run.2 = readInstanceState r1
  ∧ customObjects run.2 = customObjects r1.
Proof.
  intros Himport Hread Hpatch run.
  assert (getError r1 = None ∧ searchError r1 = None) as [Hget Hsearch].
  { unfold Features.getInstanceFeatureState, Features.featuresError in Hread.
    destruct (getError r1) as [err|]; [by case_decide|].
    destruct (searchError r1) as [err|]; [by case_decide|]. done. }
  assert (st = {| Features.b2cToolsFeaturesVersion :=
                    c_b2cToolsFeaturesVersion (preferences r1);
                  Features.b2cToolsFeaturesBootstrappedClientIDs :=
                    c_b2cToolsFeaturesBootstrappedClientIDs (preferences r1);
                  Features.features :=
                    map Features.featureStateFromCustomObject
                      (map_to_list (customObjects r1)).*2 |}) as Hst.
  { unfold Features.getInstanceFeatureState in Hread.
    rewrite Hget, Hsearch in Hread. by injection Hread as <-. }
  subst run. unfold FeatureOps.bootstrapFeatures.
  rewrite Himport, Hread. cbn [fst snd].
  unfold FeatureOps.recordFeatureBootstrap. rewrite Hpatch.
  split; [done|]. split.
  - unfold Features.getInstanceFeatureState.
    cbn [getError searchError setPreferences preferences customObjects].
    rewrite Hget, Hsearch. eexists. split; [reflexivity|].
    cbn [Features.b2cToolsFeaturesVersion Features.b2cToolsFeaturesBootstrappedClientIDs
         Features.features c_b2cToolsFeaturesVersion
         c_b2cToolsFeaturesBootstrappedClientIDs].
    split_and!.
    + unfold setClient, FeatureOps.isFeatureBootstrapRequired, clientVersion.
      cbn [Features.b2cToolsFeaturesVersion
           Features.b2cToolsFeaturesBootstrappedClientIDs].
      rewrite Hst. cbn [Features.b2cToolsFeaturesBootstrappedClientIDs].
      destruct (decide (clientId = "__proto__" ∧ _)) as [[_ Hnone]|_].
      * rewrite Hnone. by vm_compute.
      * rewrite lookup_insert_eq. by vm_compute.
    + done.
    + intros c Hc. unfold setClient. case_decide; [done|]. by apply lookup_insert_ne.
    + by rewrite Hst.
  - split; [|done]. unfold readInstanceState.
    cbn [getError setPreferences preferences c_b2cToolkitDataVersion
         c_b2cToolkitMigrations c_b2cToolsBootstrappedClientIDs c_b2cToolsVars].
    reflexivity.
Qed.

(** X21. A second deploy replaces the stored record. After two writes of
    the state of one feature, the instance holds for it the two variable
    records of the second write alone, nothing is merged with what the
    first write stored; the key and the creation date of the object are
    the ones it had, the modification date is the later one, and the
    other objects and the preferences are not touched. *)
Theorem redeploy_replaces_the_record
    name vars1 sv1 ss1 now1 vars2 sv2 ss2 now2 r :
  let r1 := Features.updateFeatureState name vars1 sv1 ss1 now1 r in
  let r2 := Features.updateFeatureState name vars2 sv2 ss2 now2 r1 in
  let records := Features.targetRecords vars2 sv2 ss2 in
  ∃ obj1,
    customObjects r1 !! name = Some obj1
    ∧ key_value_string obj1
      = match customObjects r !! name with
        | Some obj0 => key_value_string obj0
        | None => name
        end
    ∧ creation_date obj1
      = match customObjects r !! name with
        | Some obj0 => creation_date obj0
        | None => now1
        end
    ∧ customObjects r2
      = <[name := {| key_value_string := key_value_string obj1;
                     c_vars := Some (jsonObject records.1);
                     c_secretVars := Some (jsonObject records.2);
                     creation_date := creation_date obj1;
                     last_modified := now2 |}]> (customObjects r)
    ∧ preferences r2 = preferences r.
Proof.
  intros r1 r2 records.
  assert (∀ vars sv ss now r0,
            Features.updateFeatureState name vars sv ss now r0
            = setCustomObjects
                (<[name := {| key_value_string :=
                                match customObjects r0 !! name with
                                | Some obj0 => key_value_string obj0
                                | None => name
                                end;
                              c_vars := Some (jsonObject (Features.targetRecords vars sv ss).1);
                              c_secretVars :=
                                Some (jsonObject (Features.targetRecords vars sv ss).2);
                              creation_date :=
                                match customObjects r0 !! name with
                                | Some obj0 => creation_date obj0
                                | None => now
                                end;
                              last_modified := now |}]> (customObjects r0)) r0) as Hupd.
  { intros vars sv ss now r0. unfold Features.updateFeatureState.
    destruct (Features.targetRecords vars sv ss) as [plain secret].
    by destruct (customObjects r0 !! name). }
  eexists. split_and!.
  - subst r1. rewrite Hupd. cbn [customObjects setCustomObjects].
    apply lookup_insert_eq.
  - reflexivity.
  - reflexivity.
  - subst r2 r1. rewrite (Hupd vars2), (Hupd vars1).
    cbn [customObjects setCustomObjects key_value_string creation_date].
    rewrite lookup_insert_eq, insert_insert_eq.
    cbn [key_value_string creation_date]. reflexivity.
  - subst r2 r1. by rewrite (Hupd vars2), (Hupd vars1).
Qed.

(** *** Removal *)

Lemma find_feature_state r st name obj :
  FeatureOps.keyedByName r →
  Features.getInstanceFeatureState r = Returns (Some st) →
  customObjects r !! name = Some obj →
  Features.findFeatureState st name = Some (Features.featureStateFromCustomObject obj).
Proof.
  intros Hkeyed Hread Hobj.
  assert (Features.features st
          = map Features.featureStateFromCustomObject
              (map_to_list (customObjects r)).*2) as Hst.
  { unfold Features.getInstanceFeatureState, Features.featuresError in Hread.
    destruct (getError r) as [err|]; [by case_decide|].
    destruct (searchError r) as [err|]; [by case_decide|].
    by injection Hread as <-. }
  unfold Features.findFeatureState. rewrite Hst.
  destruct (List.find _ _) as [f|] eqn:Hfind.
  - apply find_some in Hfind as [Hin Hname].
    apply list_elem_of_In, list_elem_of_fmap in Hin as (obj' & -> & Hin).
    apply list_elem_of_fmap in Hin as ([k obj''] & -> & Hin).
    apply elem_of_map_to_list in Hin. cbn [snd] in *.
    apply bool_decide_eq_true_1 in Hname.
    cbn [Features.featureName Features.featureStateFromCustomObject] in Hname.
    rewrite (Hkeyed k obj'' Hin) in Hname. subst k. congruence.
  - exfalso.
    assert (Features.featureStateFromCustomObject obj
            ∈ map Features.featureStateFromCustomObject
                (map_to_list (customObjects r)).*2) as Hin.
    { apply list_elem_of_fmap. exists obj. split; [done|].
      apply list_elem_of_fmap. exists (name, obj). split; [done|].
      by apply elem_of_map_to_list. }
    apply list_elem_of_In in Hin.
    pose proof (find_none _ _ Hfind _ Hin) as Hf. cbn beta in Hf.
    apply bool_decide_eq_false_1 in Hf. apply Hf.
    cbn [Features.featureName Features.featureStateFromCustomObject].
    by apply Hkeyed.
Qed.

Lemma find_feature_state_None r st name :
  FeatureOps.keyedByName r →
  Features.getInstanceFeatureState r = Returns (Some st) →
  customObjects r !! name = None →
  Features.findFeatureState st name = None.
Proof.
  intros Hkeyed Hread Hobj.
  assert (Features.features st
          = map Features.featureStateFromCustomObject
              (map_to_list (customObjects r)).*2) as Hst.
  { unfold Features.getInstanceFeatureState, Features.featuresError in Hread.
    destruct (getError r) as [err|]; [by case_decide|].
    destruct (searchError r) as [err|]; [by case_decide|].
    by injection Hread as <-. }
  unfold Features.findFeatureState. rewrite Hst.
  destruct (List.find _ _) as [f|] eqn:Hfind; [|done].
  apply find_some in Hfind as [Hin Hname].
  apply list_elem_of_In, list_elem_of_fmap in Hin as (obj' & -> & Hin).
  apply list_elem_of_fmap in Hin as ([k obj''] & -> & Hin).
  apply elem_of_map_to_list in Hin. cbn [snd] in *.
  apply bool_decide_eq_true_1 in Hname.
  cbn [Features.featureName Features.featureStateFromCustomObject] in Hname.
  rewrite (Hkeyed k obj'' Hin) in Hname. subst k. congruence.
Qed.

(** X22. Removal undoes a first deploy. On an instance whose objects are
    stored under their own keys and that did not hold the feature, the
    removal of a feature of the project without a [remove] hook, right
    after the write of its state, returns and leaves the instance exactly
    as it was before the write. *)
Theorem remove_undoes_first_deploy
    hostname features feature name vars sv ss now removeVars r :
  FeatureOps.keyedByName r →
  getError r = None →
  searchError r = None →
  customObjects r !! name = None →
  List.find (λ f, bool_decide
               (Features.definitionName (FeatureOps.definition f) = name)) features
  = Some feature →
  FeatureOps.remove feature = None →
  let deployed := Features.updateFeatureState name vars sv ss now r in
  FeatureOps.removeFeature hostname features name removeVars deployed
  = (Returns tt, r).
Proof.
  intros Hkeyed Hget Hsearch Hnone Hfeature Hhook deployed.
  destruct (updateFeatureState_stored name vars sv ss now r) as (obj & Hobj & _).
  fold deployed in Hobj.
  assert (deployed = setCustomObjects (<[name := obj]> (customObjects r)) r
          ∧ key_value_string obj = name) as [Hdep Hkey].
  { subst deployed. revert Hobj. unfold Features.updateFeatureState.
    destruct (Features.targetRecords vars sv ss) as [plain secret].
    rewrite Hnone. cbn [customObjects setCustomObjects].
    rewrite lookup_insert_eq. by intros [= <-]. }
  assert (FeatureOps.keyedByName deployed) as Hkeyed'.
  { rewrite Hdep. intros k o. cbn [customObjects setCustomObjects].
    destruct (decide (k = name)) as [->|Hne].
    - rewrite lookup_insert_eq. by intros [= <-].
    - rewrite lookup_insert_ne by done. apply Hkeyed. }
  assert (∃ st, Features.getInstanceFeatureState deployed = Returns (Some st))
    as [st Hst].
  { rewrite Hdep. unfold Features.getInstanceFeatureState.
    cbn [getError searchError setCustomObjects]. rewrite Hget, Hsearch. by eexists. }
  unfold FeatureOps.removeFeature.
  rewrite Hst, Hfeature, (find_feature_state deployed st name obj Hkeyed' Hst Hobj), Hhook.
  f_equal. rewrite Hdep. unfold setCustomObjects.
  cbn [customObjects getError patchError preferences searchError].
  rewrite delete_insert_id by done. by destruct r.
Qed.

(** X23. Nothing is removed of a feature that is unknown or not deployed.
    When the project has no feature of the name, or the instance, with
    its objects stored under their own keys, holds no object of the name,
    [removeFeature] leaves the instance as it is; it returns, silently,
    exactly when the instance has no feature state to read, and throws
    otherwise. *)
Theorem removal_needs_a_known_deployed_feature hostname features name vars r :
  (∀ f, f ∈ features → Features.definitionName (FeatureOps.definition f) ≠ name)
  ∨ (FeatureOps.keyedByName r ∧ customObjects r !! name = None) →
  let run := FeatureOps.removeFeature hostname features name vars r in
  run.2 = r
  ∧ (run.1 = Returns tt ↔ Features.getInstanceFeatureState r = Returns None).
Proof.
  intros Hcase run. subst run. unfold FeatureOps.removeFeature.
  destruct (Features.getInstanceFeatureState r) as [[st|]|e] eqn:Hst;
    [|done|by split].
  destruct (List.find _ features) as [feature|] eqn:Hfind; [|by split].
  destruct Hcase as [Hunknown|[Hkeyed Hnone]].
  - apply find_some in Hfind as [Hin Hname].
    apply bool_decide_eq_true_1 in Hname.
    by destruct (Hunknown feature (proj2 (list_elem_of_In _ _) Hin)).
  - by rewrite (find_feature_state_None r st name Hkeyed Hst Hnone).
Qed.

(** ** The further properties at sample inputs *)

Lemma dry_run_only_plans_witness :
  let p := Sample.project [Sample.directory "0001-a"; Sample.file "0002-b.js"]
             (λ _, ExportsFunction Sample.succeed) noLifecycle in
  let r := Sample.instanceAt 7 (Some "0001-a") in
  let run := reconcile Runtime.extname Runtime.literalMatch Runtime.localeCompare
               Sample.sdk p Sample.dry (Fixture.stateAt ["0001-a"]) r in
  executed (trace run) = [] ∧ updates (trace run) = []
  ∧ run = (Returns tt, r, [EvStat "0002-b.js"; EvLogPut]).
Proof.
  intros p r run.
  destruct (dry_run_only_plans Runtime.extname Runtime.literalMatch
              Runtime.localeCompare Sample.sdk p
              Sample.dry (Fixture.stateAt ["0001-a"]) r eq_refl)
    as (_ & He & Hu & _ & _ & Hrun).
  split; [exact He|]. split; [exact Hu|].
  apply (proj1 (Hrun r [] eq_refl)).
  apply (bool_decide_unpack _). vm_compute. exact I.
Defined.

(** A directory whose notes file cannot be read: with [showNotes] the run
    throws the error of the read at that unit, [onFailure] hook or not;
    without [showNotes] the file is not read and the unit runs. *)
Example unreadable_notes_sample :
  let p := Fixture.withUnreadableNotes "0001-a" (jsError "EISDIR")
             (Fixture.twoUnits Sample.handlesFailure) in
  let r := Sample.instanceAt 7 None in
  Sample.run p defaultOptions r
  = (Throws (jsError "EISDIR"), r,
     [EvGetInstanceState (Some (Fixture.stateAt [])); EvStat "0001-a"])
  ∧ outcome (Sample.run p Fixture.withoutNotes r) = Returns tt
  ∧ executed (trace (Sample.run p Fixture.withoutNotes r)) = ["0001-a"; "0002-b"].
Proof. by vm_compute. Qed.

(** A dry run over a script file whose module throws while it is loaded:
    the run throws that error and writes no run log. *)
Example dry_run_load_failure_sample :
  let p := Sample.project [Sample.file "0001-a.js"; Sample.file "0002-b.js"]
             (λ _, ThrowsOnLoad (jsError "boom")) Sample.handlesFailure in
  let r := Sample.instanceAt 7 None in
  Sample.run p Sample.dry r
  = (Throws (jsError "boom"), r,
     [EvGetInstanceState (Some (Fixture.stateAt [])); EvStat "0001-a.js"]).
Proof. by vm_compute. Qed.

Lemma without_apply_list_is_left_alone_witness :
  let run := reconcile Runtime.extname Runtime.literalMatch Runtime.localeCompare
               Sample.sdk (Fixture.twoUnits noLifecycle) Fixture.noApply
               (Fixture.stateAt []) (Sample.instanceAt 7 None) in
  reads (trace run) = [] ∧ updates (trace run) = []
  ∧ executed (trace run) = ["0001-a"; "0002-b"].
Proof.
  intros run.
  destruct (without_apply_list_is_left_alone Runtime.extname Runtime.literalMatch
              Runtime.localeCompare Sample.sdk (Fixture.twoUnits noLifecycle)
              Fixture.noApply (Fixture.stateAt []) (Sample.instanceAt 7 None) eq_refl)
    as [Hr Hu].
  split; [exact Hr|]. split; [exact Hu|]. vm_compute. reflexivity.
Defined.

Lemma up_to_date_run_is_quiet_witness :
  let run := reconcile Runtime.extname Runtime.literalMatch Runtime.localeCompare
               Sample.sdk (Fixture.twoUnits noLifecycle) defaultOptions
               (Fixture.stateAt ["0001-a"; "0002-b"])
               (Sample.instanceAt 7 (Some "0001-a,0002-b")) in
  trace run `sublist_of` [EvBeforeAll [] true false; EvAfterAll []; EvLogPut]
  ∧ taken (trace run) = [] ∧ updates (trace run) = [].
Proof.
  intros run.
  destruct (up_to_date_run_is_quiet Runtime.extname Runtime.literalMatch
              Runtime.localeCompare Sample.sdk (Fixture.twoUnits noLifecycle)
              defaultOptions (Fixture.stateAt ["0001-a"; "0002-b"])
              (Sample.instanceAt 7 (Some "0001-a,0002-b")) (λ x Hx, Hx))
    as (_ & Ht & Hk & _ & _ & Hu).
  split; [exact Ht|]. split; [exact Hk|exact Hu].
Defined.


Lemma no_unit_is_taken_twice_witness :
  let run := reconcile Runtime.extname Runtime.literalMatch Runtime.localeCompare
               Sample.sdk (Fixture.twoUnits noLifecycle) defaultOptions
               (Fixture.stateAt []) (Sample.instanceAt 7 None) in
  NoDup (taken (trace run)) ∧ NoDup (executed (trace run))
  ∧ taken (trace run) = ["0001-a"; "0002-b"].
Proof.
  intros run.
  destruct (no_unit_is_taken_twice Runtime.extname Runtime.literalMatch
              Runtime.localeCompare Sample.sdk (Fixture.twoUnits noLifecycle)
              defaultOptions (Fixture.stateAt []) (Sample.instanceAt 7 None))
    as (_ & Ht & He).
  { apply (bool_decide_unpack _). vm_compute. exact I. }
  split; [exact Ht|]. split; [exact He|]. vm_compute. reflexivity.
Defined.

Lemma comma_named_unit_stays_pending_witness :
  let p := Sample.project [Sample.directory "0001,a"] (λ _, ExportsOther) noLifecycle in
  let catalog := projectMigrations Runtime.extname Runtime.literalMatch
                   Runtime.localeCompare p defaultOptions in
  "0001,a" ∈ pendingMigrations catalog ["0001"; "a"]
  ∧ appliedUnits (remoteAfter (Sample.run p defaultOptions (Sample.instanceAt 7 None)))
    = ["0001"; "a"].
Proof.
  intros p catalog. split; [|vm_compute; reflexivity].
  refine (proj2 (comma_named_unit_stays_pending Runtime.extname Runtime.literalMatch
                   Runtime.localeCompare p defaultOptions
                   (Sample.instanceAt 7 (Some "0001,a")) _ "0001,a" eq_refl _ _)).
  - vm_compute. apply list_elem_of_here.
  - apply (bool_decide_unpack _). vm_compute. exact I.
Defined.

Lemma returning_run_records_the_catalog_witness :
  let run := reconcile Runtime.extname Runtime.literalMatch Runtime.localeCompare
               Sample.sdk (Fixture.twoUnits noLifecycle) defaultOptions
               (Fixture.stateAt ["0001-a"]) (Sample.instanceAt 7 (Some "0001-a")) in
  let final := lastSeen ["0001-a"] (trace run) in
  final = ["0001-a"; "0002-b"]
  ∧ pendingMigrations ["0001-a"; "0002-b"] final = [].
Proof.
  intros run final. split; [vm_compute; reflexivity|].
  refine (proj2 (proj2 (returning_run_records_the_catalog Runtime.extname
                          Runtime.literalMatch Runtime.localeCompare Sample.sdk
                          (Fixture.twoUnits noLifecycle) defaultOptions
                          (Fixture.stateAt ["0001-a"])
                          (Sample.instanceAt 7 (Some "0001-a")) eq_refl eq_refl _))).
  vm_compute. reflexivity.
Defined.

Lemma merge_keeps_the_stored_order_witness :
  let run := commit true "D" ["A"; "B"] (Sample.instanceAt 7 (Some "C,A,B")) in
  updates (trace run) = [["C"; "A"; "B"; "D"]]
  ∧ ∃ written, updates (trace run) = [written]
               ∧ ["C"; "A"; "B"] `prefix_of` written.
Proof.
  intros run. split; [vm_compute; reflexivity|].
  destruct (merge_keeps_the_stored_order "D" ["A"; "B"]
              (Sample.instanceAt 7 (Some "C,A,B")) _ eq_refl)
    as (written & Hw & Hp & _).
  exists written. split; [exact Hw|exact Hp].
Defined.

Lemma unrecorded_unit_stops_the_run_witness :
  let r := Fixture.readOnly None in
  let run := migrateAll Sample.sdk (Fixture.twoUnits noLifecycle) defaultOptions
               ["0001-a"; "0002-b"] ([], []) r in
  outcome run = Throws permissionsError
  ∧ remoteAfter run = r
  ∧ taken (trace run) = ["0001-a"]
  ∧ executed (trace run) = ["0001-a"].
Proof.
  intros r run.
  destruct (unrecorded_unit_stops_the_run Sample.sdk (Fixture.twoUnits noLifecycle)
              defaultOptions "0001-a" ["0002-b"] ([], []) r
              (Sample.directory "0001-a") r [] r [EvSiteArchiveImport "0001-a"]
              eq_refl eq_refl eq_refl eq_refl eq_refl eq_refl
              (or_intror (ex_intro _ _ eq_refl)))
    as (_ & Hr & Ht & _).
  split; [vm_compute; reflexivity|]. split; [exact Hr|]. split; [exact Ht|].
  vm_compute. reflexivity.
Defined.

Lemma disallowed_bootstrap_witness :
  let p := Fixture.twoUnits noLifecycle in
  let r := Sample.unregisteredAt 7 None in
  let run := stateCheck Sample.sdk p "cid" Fixture.forcedButDisallowed r in
  outcome run = Throws bootstrapNotAllowed ∧ remoteAfter run = r
  ∧ bootstraps (trace run) = [].
Proof.
  intros p r run.
  destruct (disallowed_bootstrap Sample.sdk p "cid" Fixture.forcedButDisallowed r
              _ true r [] eq_refl eq_refl eq_refl) as [Hrun Hb].
  change (stateCheck Sample.sdk p "cid" Fixture.forcedButDisallowed r) with run in Hrun.
  rewrite Hrun. split; [reflexivity|]. split; [reflexivity|exact Hb].
Defined.

Lemma failing_shouldBootstrap_asks_for_bootstrap_witness :
  let p := Fixture.twoUnits Fixture.brokenShouldBootstrap in
  let r := Sample.instanceAt 7 None in
  bootstraps (trace (stateCheck Sample.sdk p "cid" defaultOptions r)) = ["cid"]
  ∧ outcome (stateCheck Sample.sdk p "cid" Sample.disallowed r)
    = Throws bootstrapNotAllowed.
Proof.
  intros p r. split.
  - exact (proj2 (failing_shouldBootstrap_asks_for_bootstrap Sample.sdk p "cid"
                    defaultOptions r _ _ (jsError "cannot tell") r
                    eq_refl eq_refl eq_refl eq_refl)).
  - vm_compute. reflexivity.
Defined.

Lemma bootstrap_registers_the_client_witness :
  let r := Sample.instanceAt 7 (Some "0001-a") in
  let run := bootstrapMigrations Sample.sdk "new-client" noLifecycle r in
  outcome run = Returns tt
  ∧ ∃ st', readInstanceState (remoteAfter run) = Returns (Some st')
           ∧ isMigrationBootstrapRequired "new-client" (Some st') = false
           ∧ isMigrationBootstrapRequired "cid" (Some st') = false
           ∧ migrations st' = ["0001-a"].
Proof.
  intros r run.
  destruct (bootstrap_registers_the_client Sample.sdk "new-client" noLifecycle r r
              _ eq_refl eq_refl eq_refl eq_refl)
    as (Hout & _ & st' & Hread & [Hreq _] & _ & _ & Hm & _).
  split; [exact Hout|]. exists st'. split; [exact Hread|]. split; [exact Hreq|].
  split; [|exact Hm].
  change (readInstanceState (remoteAfter run) = Returns (Some st')) in Hread.
  vm_compute in Hread. injection Hread as <-. vm_compute. reflexivity.
Defined.

Lemma feature_bootstrap_registers_the_client_witness :
  let r := Sample.instanceAt 7 None in
  let run := FeatureOps.bootstrapFeatures Sample.succeed "cid" r in
  run.1 = Returns tt
  ∧ FeatureOps.isFeatureBootstrapRequired "cid"
      (match Features.getInstanceFeatureState r with
       | Returns s => s | Throws _ => None end) = true
  ∧ (∃ st', Features.getInstanceFeatureState run.2 = Returns (Some st')
            ∧ FeatureOps.isFeatureBootstrapRequired "cid" (Some st') = false)
  ∧ readInstanceState run.2 = readInstanceState r.
Proof.
  intros r run.
  destruct (feature_bootstrap_registers_the_client Sample.succeed "cid" r r
              _ eq_refl eq_refl eq_refl)
    as (Hout & (st' & Hread & Hreq & _) & Hstate & _).
  split; [exact Hout|]. split; [vm_compute; reflexivity|].
  split; [|exact Hstate]. exists st'. split; [exact Hread|exact Hreq].
Defined.

Lemma remove_undoes_first_deploy_witness :
  let r := Sample.instanceAt 7 None in
  let deployed :=
    Features.updateFeatureState "search" {[ "token" := JStr "abc" ]}
      (Some ["token"]) true "2026-01-01" r in
  customObjects deployed !! "search" ≠ None
  ∧ FeatureOps.removeFeature "host" [Fixture.plainFeature "search"] "search" ∅ deployed
    = (Returns tt, r).
Proof.
  intros r deployed. split; [by vm_compute|].
  refine (remove_undoes_first_deploy "host" [Fixture.plainFeature "search"]
            (Fixture.plainFeature "search") "search" _ _ _ _ ∅ r
            _ eq_refl eq_refl eq_refl eq_refl eq_refl).
  intros k obj Hk. vm_compute in Hk. discriminate Hk.
Defined.

Lemma removal_needs_a_known_deployed_feature_witness :
  let r := Sample.instanceAt 7 None in
  let run := FeatureOps.removeFeature "host" [] "search" ∅ r in
  run.2 = r ∧ run.1 = Throws (FeatureOps.cannotFind "search").
Proof.
  intros r run.
  destruct (removal_needs_a_known_deployed_feature "host" [] "search" ∅ r) as [Hr _].
  { left. intros f Hf. by apply elem_of_nil in Hf. }
  split; [exact Hr|]. vm_compute. reflexivity.
Defined.

Lemma refused_bootstrap_write_goes_unnoticed_witness :
  let p := Fixture.twoUnits noLifecycle in
  let r := Fixture.readOnly None in
  let run := stateCheck Sample.sdk p "new-client" defaultOptions r in
  (∃ st, outcome run = Returns (Some st)
         ∧ isMigrationBootstrapRequired "new-client" (Some st) = true)
  ∧ remoteAfter run = r.
Proof.
  intros p r run.
  destruct (refused_bootstrap_write_goes_unnoticed Sample.sdk p "new-client"
              defaultOptions r _ r [] r _ _
              eq_refl eq_refl eq_refl eq_refl eq_refl eq_refl eq_refl)
    as [_ Hrun].
  change (stateCheck Sample.sdk p "new-client" defaultOptions r) with run in Hrun.
  rewrite Hrun. split; [|reflexivity].
  eexists. split; [reflexivity|]. vm_compute. reflexivity.
Defined.
